(** * Muehle (nine men's morris on an n-gon) and its Monte Carlo tree search

    A shallow embedding of [mühle.py], [mcts/base.py] and [mcts/simple.py].

    Python integers are [Z], and so are player ids ([PlayerID = int]); a
    list is indexed as Python indexes it, a negative index counting from the
    end; a [dict] is an insertion-ordered association list, and a read of a
    [defaultdict] stores the default under a missing key; a raising call is
    an [outcome] carrying the exception, and a mutating method is a function
    from the object before the call to the outcome and the object after it
    (an exception does not roll a mutation back). *)

From Stdlib Require Import List ZArith Lia Bool Arith Permutation QArith Qround FinFun.
Import ListNotations.
Open Scope Z_scope.

Set Implicit Arguments.

(* ================================================================== *)
(** ** Exceptions and mutating methods *)

Inductive Exn : Type :=
| AssertionError
| KeyError
| IndexError
| ValueError
| AttributeError
| ZeroDivisionError
| OverflowError.

Inductive outcome (A : Type) : Type :=
| Ok (a : A)
| Raise (e : Exn).
Arguments Ok {A} a.
Arguments Raise {A} e.

Definition is_ok {A} (o : outcome A) : bool :=
  match o with Ok _ => true | Raise _ => false end.

(** A method of an object of type [S] returning an [A]. *)
Definition M (S A : Type) : Type := S -> outcome A * S.

Definition ret {S A} (a : A) : M S A := fun s => (Ok a, s).
Definition raise {S A} (e : Exn) : M S A := fun s => (Raise e, s).
Definition bind {S A B} (m : M S A) (k : A -> M S B) : M S B :=
  fun s => match m s with
           | (Ok a, s') => k a s'
           | (Raise e, s') => (Raise e, s')
           end.
Definition get_self {S} : M S S := fun s => (Ok s, s).
Definition set_self {S} (s' : S) : M S unit := fun _ => (Ok tt, s').
Definition assert {S} (b : bool) : M S unit :=
  if b then ret tt else raise AssertionError.

Declare Scope py_scope.
Delimit Scope py_scope with py.
Notation "x <- m ;; k" := (bind m (fun x => k))
  (at level 100, m at next level, right associativity) : py_scope.
Notation "m ;;; k" := (bind m (fun _ => k))
  (at level 100, right associativity) : py_scope.

(** [for x in xs: body x] *)
Fixpoint for_each {S A} (xs : list A) (body : A -> M S unit) : M S unit :=
  match xs with
  | [] => ret tt
  | x :: xs' => bind (body x) (fun _ => for_each xs' body)
  end.

(** [range(0, n)] *)
Definition range (n : Z) : list Z := map Z.of_nat (seq 0 (Z.to_nat n)).

(* ================================================================== *)
(** ** Positions and the board design *)

Record Position : Type := Pos { ring : Z; index : Z }.

Definition Position_eqb (a b : Position) : bool :=
  (ring a =? ring b) && (index a =? index b).

Record DefaultBoardDesign : Type := Design { sides : Z; extended : bool }.

Definition ring_size (d : DefaultBoardDesign) : Z := 2 * sides d.

Section Design.
Variable d : DefaultBoardDesign.

Definition distance_between (a b : Position) : Z * Z :=
  (Z.abs (ring a - ring b),
   Z.min (Z.abs (index a - index b)) (ring_size d - Z.abs (index a - index b))).

Definition is_linked_to (a b : Position) : bool :=
  if ring a =? ring b then
    Z.abs (index a - index b) mod (ring_size d - 2) =? 1
  else if index a =? index b then
    if extended d || (index a mod 2 =? 1) then Z.abs (ring a - ring b) =? 1
    else false
  else false.

Definition neighbors_of (pos : Position) : list Position :=
  [Pos (ring pos) ((index pos - 1) mod ring_size d);
   Pos (ring pos) ((index pos + 1) mod ring_size d)]
  ++ (if extended d || (index pos mod 2 =? 1) then
        (if ring pos >? 0 then [Pos (ring pos - 1) (index pos)] else [])
        ++ (if ring pos <? 2 then [Pos (ring pos + 1) (index pos)] else [])
      else []).

Definition get_third_in_line (first second : Position) : outcome Position :=
  if (ring first =? ring second) && negb (index first =? index second) then
    let a := Z.min (index first) (index second) in
    let b := Z.max (index first) (index second) in
    let '(a, b) := if b - a >? 2 then (b, a + ring_size d) else (a, b) in
    if b - a =? 1 then
      if a mod 2 =? 0 then Ok (Pos (ring first) ((a + 2) mod ring_size d))
      else Ok (Pos (ring first) ((a - 1) mod ring_size d))
    else if b - a =? 2 then
      if a mod 2 =? 0 then Ok (Pos (ring first) ((a + 1) mod ring_size d))
      else Raise ValueError
    else Raise ValueError
  else if negb (ring first =? ring second) && (index first =? index second)
          && (extended d || (index first mod 2 =? 1)) then
    let a := Z.min (ring first) (ring second) in
    let b := Z.max (ring first) (ring second) in
    if a =? 0 then
      if b =? 1 then Ok (Pos 2 (index first)) else Ok (Pos 1 (index first))
    else Ok (Pos 0 (index first))
  else Raise ValueError.

Definition iter_fields : list Position :=
  flat_map (fun r => map (fun i => Pos r i) (range (ring_size d))) (range 3).

Definition iter_lines : list (Position * Position * Position) :=
  flat_map (fun r =>
              map (fun side => let i := side * 2 in
                               (Pos r i, Pos r (i + 1), Pos r ((i + 2) mod ring_size d)))
                  (range (sides d)))
           (range 3)
  ++ flat_map (fun i => if extended d || (i mod 2 =? 1)
                        then [(Pos 0 i, Pos 1 i, Pos 2 i)] else [])
              (range (ring_size d)).

Definition iter_lines_of (pos : Position) : list (Position * Position) :=
  (if extended d || (index pos mod 2 =? 1) then
     [(Pos ((ring pos + 1) mod 3) (index pos), Pos ((ring pos + 2) mod 3) (index pos))]
   else [])
  ++ (if index pos mod 2 =? 1 then
        [(Pos (ring pos) (index pos - 1), Pos (ring pos) ((index pos + 1) mod ring_size d))]
      else
        [(Pos (ring pos) ((index pos - 1) mod ring_size d),
          Pos (ring pos) ((index pos - 2) mod ring_size d));
         (Pos (ring pos) ((index pos + 1) mod ring_size d),
          Pos (ring pos) ((index pos + 2) mod ring_size d))]).

(** The line along ring [r] anchored at the even index [2 * s], and the
    line across the rings at index [i], as [iter_lines] yields them. *)
Definition ring_line (r s : Z) : Position * Position * Position :=
  (Pos r (s * 2), Pos r (s * 2 + 1), Pos r ((s * 2 + 2) mod ring_size d)).

(** A position of the board: [ring] in [0..2], [index] in [0..ring_size-1]. *)
Definition valid_pos (p : Position) : Prop :=
  0 <= ring p <= 2 /\ 0 <= index p < ring_size d.

Definition valid_posb (p : Position) : bool :=
  (0 <=? ring p) && (ring p <=? 2) && (0 <=? index p) && (index p <? ring_size d).

End Design.

Definition cross_line (i : Z) : Position * Position * Position :=
  (Pos 0 i, Pos 1 i, Pos 2 i).

Definition line_members (t : Position * Position * Position) : list Position :=
  let '(a, b, c) := t in [a; b; c].

(** Two positions lie on a valid line: some triple of [iter_lines] has both. *)
Definition on_line (d : DefaultBoardDesign) (a b : Position) : Prop :=
  exists t, In t (iter_lines d) /\ In a (line_members t) /\ In b (line_members t).

(* ================================================================== *)
(** ** Python containers *)

(** The item at place [k] of a list, counted from [0]. *)
Definition list_get {A} (l : list A) (k : nat) : outcome A :=
  match nth_error l k with
  | Some x => Ok x
  | None => Raise IndexError
  end.

(** The place an index [i] names in a sequence of [n] items: a negative
    [i] counts from the end, and an [i] outside [-n .. n-1] names none. *)
Definition py_index (n : nat) (i : Z) : option nat :=
  let j := if i <? 0 then i + Z.of_nat n else i in
  if (0 <=? j) && (j <? Z.of_nat n) then Some (Z.to_nat j) else None.

(** The list with [x] at place [k], for a [k] in range. *)
Fixpoint list_set {A} (l : list A) (i : nat) (x : A) : list A :=
  match l, i with
  | [], _ => []
  | _ :: l', O => x :: l'
  | y :: l', S i' => y :: list_set l' i' x
  end.

(** [l[i]] *)
Definition list_getitem {A} (l : list A) (i : Z) : outcome A :=
  match py_index (length l) i with
  | Some k => list_get l k
  | None => Raise IndexError
  end.

(** [l[i] = x]: the list left. *)
Definition list_setitem {A} (l : list A) (i : Z) (x : A) : outcome (list A) :=
  match py_index (length l) i with
  | Some k => Ok (list_set l k x)
  | None => Raise IndexError
  end.

(** [del l[k]] for a [k] in range. *)
Fixpoint list_del {A} (l : list A) (i : nat) : list A :=
  match l, i with
  | [], _ => []
  | _ :: l', O => l'
  | y :: l', S i' => y :: list_del l' i'
  end.

(** A [dict]: the items in insertion order, every key once. *)
Section Dict.
Variables (K V : Type) (eqb : K -> K -> bool).

Definition dict : Type := list (K * V).

(** [d.get(k, None)] *)
Fixpoint dict_get (d : dict) (k : K) : option V :=
  match d with
  | [] => None
  | (k', v) :: d' => if eqb k' k then Some v else dict_get d' k
  end.

(** [k in d] *)
Definition dict_mem (d : dict) (k : K) : bool :=
  match dict_get d k with Some _ => true | None => false end.

(** [d[k] = v]: a present key keeps its place, a new one goes last. *)
Fixpoint dict_set (d : dict) (k : K) (v : V) : dict :=
  match d with
  | [] => [(k, v)]
  | (k', v') :: d' =>
      if eqb k' k then (k', v) :: d' else (k', v') :: dict_set d' k v
  end.

(** The items left by [d.pop(k)]. *)
Fixpoint dict_del (d : dict) (k : K) : dict :=
  match d with
  | [] => []
  | (k', v') :: d' => if eqb k' k then d' else (k', v') :: dict_del d' k
  end.

Definition dict_keys (d : dict) : list K := map fst d.
End Dict.

(** [itertools.combinations(pool, r)], in its lexicographic order. *)
Fixpoint combinations {A} (pool : list A) (r : nat) : list (list A) :=
  match pool with
  | [] => match r with O => [[]] | S _ => [] end
  | x :: pool' =>
      match r with
      | O => [[]]
      | S r' => map (cons x) (combinations pool' r') ++ combinations pool' r
      end
  end.

(* ================================================================== *)
(** ** The board *)

Definition PlayerID : Type := Z.

Record Piece : Type := mkPiece { playerID : PlayerID }.

Definition Fields : Type := dict Position Piece.

Record GameBoard : Type := mkGameBoard {
  design : DefaultBoardDesign;
  fields : Fields;
  _count : list Z
}.

Definition set_fields (f : Fields) : M GameBoard unit :=
  fun b => (Ok tt, mkGameBoard (design b) f (_count b)).
Definition set_count (c : list Z) : M GameBoard unit :=
  fun b => (Ok tt, mkGameBoard (design b) (fields b) c).

(** A pure expression that may raise, inside a method. *)
Definition lift {S A} (o : outcome A) : M S A := fun s => (o, s).

Definition GameBoard_init (d : DefaultBoardDesign) : GameBoard :=
  mkGameBoard d [] [0; 0].

Section Board.
Variable b : GameBoard.

Definition GameBoard_clone : GameBoard :=
  mkGameBoard (design b) (fields b) (_count b).

Definition count (p : PlayerID) : outcome Z := list_getitem (_count b) p.

Definition count_total : outcome (Z * Z) :=
  match list_getitem (_count b) 0, list_getitem (_count b) 1 with
  | Ok c0, Ok c1 => Ok (c0, c1)
  | Raise e, _ => Raise e
  | _, Raise e => Raise e
  end.

Definition is_empty (pos : Position) : bool :=
  negb (dict_mem Position_eqb (fields b) pos).

Definition iter_empty : list Position :=
  filter is_empty (iter_fields (design b)).

Definition get (pos : Position) : option Piece :=
  dict_get Position_eqb (fields b) pos.

(** [iter_pieces(playerID)] with a player given. *)
Definition iter_pieces (p : PlayerID) : list (Position * Piece) :=
  filter (fun e => (playerID (snd e) =? p)) (fields b).

(** [p.playerID == playerID if p else False] for the piece at [pos]. *)
Definition owned_by (p : PlayerID) (pos : Position) : bool :=
  match get pos with
  | Some piece => (playerID piece =? p)
  | None => false
  end.

Definition iter_mills (p : PlayerID) : list (Position * Position * Position) :=
  filter (fun line => forallb (owned_by p) (line_members line))
         (iter_lines (design b)).

Definition all_mills_pos (p : PlayerID) : list Position :=
  flat_map line_members (iter_mills p).

Definition iter_pieces_inside_mill (p : PlayerID) : list (Position * Piece) :=
  filter (fun e => (playerID (snd e) =? p)
                   && existsb (Position_eqb (fst e)) (all_mills_pos p))
         (fields b).

Definition iter_pieces_outside_mill (p : PlayerID) : list (Position * Piece) :=
  filter (fun e => (playerID (snd e) =? p)
                   && negb (existsb (Position_eqb (fst e)) (all_mills_pos p)))
         (fields b).

Definition is_inside_a_mill (p : PlayerID) (pos : Position) : bool :=
  owned_by p pos
  && existsb (fun line => owned_by p (fst line) && owned_by p (snd line))
             (iter_lines_of (design b) pos).

Definition iter_ready_mills (p : PlayerID) (pos : Position)
  : list (Position * Position) :=
  if dict_mem Position_eqb (fields b) pos then []
  else filter (fun line => owned_by p (fst line) && owned_by p (snd line))
              (iter_lines_of (design b) pos).

Definition iter_available_moves (pos : Position) : list Position :=
  filter is_empty (neighbors_of (design b) pos).
End Board.

Definition place (pos : Position) (piece : Piece) : M GameBoard unit :=
  (self <- get_self ;;
   assert (negb (dict_mem Position_eqb (fields self) pos)) ;;;
   set_fields (dict_set Position_eqb (fields self) pos piece) ;;;
   c <- lift (list_getitem (_count self) (playerID piece)) ;;
   counts <- lift (list_setitem (_count self) (playerID piece) (c + 1)) ;;
   set_count counts)%py.

Definition jump (start end_ : Position) : M GameBoard unit :=
  (self <- get_self ;;
   assert (negb (dict_mem Position_eqb (fields self) end_)) ;;;
   match dict_get Position_eqb (fields self) start with
   | None => raise KeyError
   | Some piece =>
       set_fields (dict_set Position_eqb
                     (dict_del Position_eqb (fields self) start) end_ piece)
   end)%py.

Definition move (start end_ : Position) : M GameBoard unit :=
  (self <- get_self ;;
   assert (is_linked_to (design self) start end_) ;;;
   jump start end_)%py.

Definition remove (pos : Position) : M GameBoard (option Piece) :=
  (self <- get_self ;;
   match dict_get Position_eqb (fields self) pos with
   | None => ret None
   | Some piece =>
       set_fields (dict_del Position_eqb (fields self) pos) ;;;
       c <- lift (list_getitem (_count self) (playerID piece)) ;;
       counts <- lift (list_setitem (_count self) (playerID piece) (c - 1)) ;;
       set_count counts ;;;
       ret (Some piece)
   end)%py.

(** The pieces of player [p] that stand on the board. *)
Definition live_count (b : GameBoard) (p : PlayerID) : Z :=
  Z.of_nat (length (iter_pieces b p)).

(** Every piece on the board belongs to a player that has a counter, and
    every counter of [_count] is the number of live pieces of its player. *)
Definition counts_ok (b : GameBoard) : Prop :=
  (forall e, In e (fields b) ->
             0 <= playerID (snd e) < Z.of_nat (length (_count b)))
  /\ forall p, 0 <= p < Z.of_nat (length (_count b)) ->
               count b p = Ok (live_count b p).

(** The calls of the claims about the piece counters. *)
Inductive BoardOp : Type :=
| OpPlace (pos : Position) (piece : Piece)
| OpMove (start end_ : Position)
| OpJump (start end_ : Position)
| OpRemove (pos : Position).

Definition run_op (op : BoardOp) : M GameBoard unit :=
  match op with
  | OpPlace pos piece => place pos piece
  | OpMove s e => move s e
  | OpJump s e => jump s e
  | OpRemove pos => bind (remove pos) (fun _ => ret tt)
  end.

Definition run_ops (ops : list BoardOp) : M GameBoard unit :=
  for_each ops run_op.


(* ================================================================== *)
(** ** Actions *)

Inductive Action : Type :=
| PlaceAction (player : PlayerID) (pos : Position) (attacks : option (list Position))
| MoveAction (player : PlayerID) (start end_ : Position) (attacks : option (list Position))
| JumpAction (player : PlayerID) (start end_ : Position) (attacks : option (list Position)).

Definition action_playerID (a : Action) : PlayerID :=
  match a with
  | PlaceAction p _ _ | MoveAction p _ _ _ | JumpAction p _ _ _ => p
  end.

Definition attacks (a : Action) : option (list Position) :=
  match a with
  | PlaceAction _ _ l | MoveAction _ _ _ l | JumpAction _ _ _ l => l
  end.

(** The position an action puts a piece on. *)
Definition destination (a : Action) : Position :=
  match a with
  | PlaceAction _ pos _ => pos
  | MoveAction _ _ e _ | JumpAction _ _ e _ => e
  end.

(** [if action.attacks:] holds for a list with an element. *)
Definition has_attacks (a : Action) : bool :=
  match attacks a with
  | Some (_ :: _) => true
  | _ => false
  end.

(** The captured positions an action carries. *)
Definition attack_list (a : Action) : list Position :=
  match attacks a with
  | Some l => l
  | None => []
  end.

(* ================================================================== *)
(** ** Floats

    [max_placed_items] is computed in floats.  A finite float is kept as the
    pair of integers [mant] and [expo] of its value [mant * 2^expo]; an
    operation rounds its exact result to the nearest float of 53 significant
    bits, the even one of two nearest, and a result beyond the largest float
    is no finite float. *)

Record binary64 : Type := Float { mant : Z; expo : Z }.

(** The bits a value [m * 2^e] has too many: those over 53, and those below
    the last place [2^-1074] of the smallest floats. *)
Definition excess_bits (m e : Z) : Z :=
  Z.max (Z.max 0 (Z.log2 (Z.abs m) + 1 - 53)) (- 1074 - e).

(** [a / 2^k] for [a >= 0], rounded to the nearest integer, a tie to the
    even one. *)
Definition round_half_even (a k : Z) : Z :=
  let q := a / 2 ^ k in
  let r := a mod 2 ^ k in
  if (2 ^ k <? 2 * r) || ((2 ^ k =? 2 * r) && Z.odd q) then q + 1 else q.

(** The float nearest to [m * 2^e]; [None] when it would be [2^1024] or
    more. *)
Definition round_binary64 (m e : Z) : option binary64 :=
  let k := excess_bits m e in
  let q := round_half_even (Z.abs m) k in
  if (0 <? q) && (1024 <=? Z.log2 q + (e + k)) then None
  else Some (Float (Z.sgn m * q) (e + k)).

(** [n / 2^k] of two ints: the float nearest to the quotient, and
    [OverflowError] ([None]) when there is none. *)
Definition int_div_pow2 (n k : Z) : option binary64 :=
  round_binary64 n (- k).

(** [float(n)] of an int of at most 53 bits. *)
Definition float_of_small_int (n : Z) : binary64 := Float n 0.

(** [x * y] of two floats; [None] is an infinity. *)
Definition float_mul (x y : binary64) : option binary64 :=
  round_binary64 (mant x * mant y) (expo x + expo y).

(** [int(x)]: the float cut off towards zero. *)
Definition float_to_int (x : option binary64) : outcome Z :=
  match x with
  | None => Raise OverflowError
  | Some (Float m e) =>
      if 0 <=? e then Ok (m * 2 ^ e) else Ok (Z.quot m (2 ^ (- e)))
  end.

(* ================================================================== *)
(** ** The game state *)

(** [players] is the pair [(Player(0), Player(1))] in every state, so a
    player is its id and [players[k]] is [k]. *)
Record GameState : Type := mkGameState {
  placed_items : dict PlayerID Z;
  player_turn : PlayerID;
  board : GameBoard;
  max_placed_items : Z;
  frozen : bool
}.

(** The number [placed_items] holds for [p], [0] when [p] is no key of it:
    the value a read of [placed_items[p]] returns.  The read itself is
    [placed_items_getitem], which also stores the [0]. *)
Definition placed (s : GameState) (p : PlayerID) : Z :=
  match dict_get Z.eqb (placed_items s) p with
  | Some n => n
  | None => 0
  end.

Definition set_placed_items (p : dict PlayerID Z) : M GameState unit :=
  fun s => (Ok tt, mkGameState p (player_turn s) (board s) (max_placed_items s) (frozen s)).

(** [self.placed_items[p]] of the [defaultdict(lambda: 0)]: a missing key
    is stored with the value [0] before it is returned. *)
Definition placed_items_getitem (p : PlayerID) : M GameState Z :=
  (self <- get_self ;;
   match dict_get Z.eqb (placed_items self) p with
   | Some n => ret n
   | None =>
       set_placed_items (dict_set Z.eqb (placed_items self) p 0) ;;;
       ret 0
   end)%py.

(** The state a read of [placed_items[p]] leaves. *)
Definition read_placed (p : PlayerID) (s : GameState) : GameState :=
  snd (placed_items_getitem p s).

(** [self.placed_items[p] = n] *)
Definition placed_items_setitem (p : PlayerID) (n : Z) : M GameState unit :=
  (self <- get_self ;;
   set_placed_items (dict_set Z.eqb (placed_items self) p n))%py.

Definition DefaultBoardDesign_init (sides : Z) (extended : bool)
  : outcome DefaultBoardDesign :=
  if 3 <=? sides then Ok (Design sides extended) else Raise AssertionError.

(** [int(sides / 4 * 9)] *)
Definition max_placed_items_init (sides : Z) : outcome Z :=
  match int_div_pow2 sides 2 with
  | None => Raise OverflowError
  | Some quarter => float_to_int (float_mul quarter (float_of_small_int 9))
  end.

(** [GameState(sides)] *)
Definition GameState_init (sides : Z) : outcome GameState :=
  match DefaultBoardDesign_init sides false with
  | Ok d =>
      match max_placed_items_init sides with
      | Ok n => Ok (mkGameState [] 0 (GameBoard_init d) n false)
      | Raise e => Raise e
      end
  | Raise e => Raise e
  end.
Definition set_player_turn (p : PlayerID) : M GameState unit :=
  fun s => (Ok tt, mkGameState (placed_items s) p (board s) (max_placed_items s) (frozen s)).
Definition set_board (b : GameBoard) (s : GameState) : GameState :=
  mkGameState (placed_items s) (player_turn s) b (max_placed_items s) (frozen s).

(** A method of [self.board] called from a method of the state. *)
Definition on_board {A} (m : M GameBoard A) : M GameState A :=
  fun s => let (r, b') := m (board s) in (r, set_board b' s).

Definition freeze : M GameState unit :=
  fun s => (Ok tt, mkGameState (placed_items s) (player_turn s) (board s)
                               (max_placed_items s) true).

(** [clone]: a state built by [GameState()], so not frozen, with copies of
    the dicts and lists of [self]. *)
Definition clone (s : GameState) : GameState :=
  mkGameState (placed_items s) (player_turn s) (GameBoard_clone (board s))
              (max_placed_items s) false.

(** [other(player).playerID]: [players[(player + 1) % 2]] is one of the two
    players of the state. *)
Definition other (player : PlayerID) : PlayerID := (player + 1) mod 2.

Definition calc_available_attacks (s : GameState) (player : PlayerID)
  : list (Position * Piece) :=
  let otherID := other player in
  let outside := iter_pieces_outside_mill (board s) otherID in
  match outside with
  | _ :: _ => outside
  | [] => iter_pieces_inside_mill (board s) otherID
  end.

Section Actions.
Variable s : GameState.
Variable player : PlayerID.

Definition enhance_with_attacks (available_attacks : list (Position * Piece))
    (pos : Position) (action_cls : option (list Position) -> Action)
  : list Action :=
  let mills := iter_ready_mills (board s) player pos in
  match mills with
  | _ :: _ =>
      map (fun comb => action_cls (Some (map fst comb)))
          (combinations available_attacks (length mills))
  | [] => [action_cls None]
  end.

(** The three phases of [calc_available_actions], from the number read
    from [placed_items] and the player's counter. *)
Definition actions_of_phase (placed_count player_board_count : Z)
    (available_attacks : list (Position * Piece)) : list Action :=
  if placed_count <? max_placed_items s then
    flat_map (fun empty_pos =>
                enhance_with_attacks available_attacks empty_pos
                  (PlaceAction player empty_pos))
             (iter_empty (board s))
  else if player_board_count >? 3 then
    flat_map (fun e =>
                flat_map (fun end_pos =>
                            enhance_with_attacks available_attacks end_pos
                              (MoveAction player (fst e) end_pos))
                         (iter_available_moves (board s) (fst e)))
             (iter_pieces (board s) player)
  else if player_board_count =? 3 then
    flat_map (fun e =>
                flat_map (fun empty_pos =>
                            enhance_with_attacks available_attacks empty_pos
                              (JumpAction player (fst e) empty_pos))
                         (iter_empty (board s)))
             (iter_pieces (board s) player)
  else [].
End Actions.

(** [list(self.calc_available_actions(player))]: all of the generator's
    output, and the state its read of [placed_items] leaves.  The read
    changes nothing the enumeration looks at afterwards. *)
Definition calc_available_actions (player : PlayerID) : M GameState (list Action) :=
  (self <- get_self ;;
   player_board_count <- lift (count (board self) player) ;;
   let available_attacks := calc_available_attacks self player in
   placed_count <- placed_items_getitem player ;;
   self <- get_self ;;
   ret (actions_of_phase self player placed_count player_board_count
                         available_attacks))%py.

(** One turn of the loop over [action.attacks]. *)
Definition execute_attack (playerID_ : PlayerID) (attack_pos : Position)
  : M GameState unit :=
  (attacked <- on_board (remove attack_pos) ;;
   match attacked with
   | None => raise AttributeError
   | Some piece => assert (negb (playerID piece =? playerID_))
   end)%py.

(** The [isinstance] dispatch of [execute]. *)
Definition execute_step (action : Action) : M GameState unit :=
  (self <- get_self ;;
   let playerID_ := action_playerID action in
   match action with
   | PlaceAction _ pos _ =>
       placed_count <- placed_items_getitem playerID_ ;;
       assert (placed_count <? max_placed_items self) ;;;
       on_board (place pos (mkPiece playerID_)) ;;;
       placed_count <- placed_items_getitem playerID_ ;;
       placed_items_setitem playerID_ (placed_count + 1)
   | MoveAction _ start end_ _ =>
       match get (board self) start with
       | None => raise AssertionError
       | Some piece =>
           assert (playerID piece =? playerID_) ;;;
           on_board (move start end_)
       end
   | JumpAction _ start end_ _ =>
       match get (board self) start with
       | None => raise AssertionError
       | Some piece =>
           assert (playerID piece =? playerID_) ;;;
           on_board (jump start end_)
       end
   end)%py.

(** [if action.attacks: for attack_pos in action.attacks: ...] *)
Definition execute_attacks (action : Action) : M GameState unit :=
  if has_attacks action then
    for_each (attack_list action) (execute_attack (action_playerID action))
  else ret tt.

(** [execute(action)]; the value it hands back is [None], as its body has
    no [return]. *)
Definition execute (action : Action) : M GameState (option GameState) :=
  (self <- get_self ;;
   assert (negb (frozen self)) ;;;
   assert (action_playerID action =? player_turn self) ;;;
   execute_step action ;;;
   execute_attacks action ;;;
   self <- get_self ;;
   set_player_turn (other (player_turn self)) ;;;
   ret None)%py.

(** Mills of the mover that stand after a move and did not stand before. *)
Definition line_eqb (t u : Position * Position * Position) : bool :=
  let '(a, b, c) := t in
  let '(a', b', c') := u in
  Position_eqb a a' && Position_eqb b b' && Position_eqb c c'.

Definition new_mills (before after : GameBoard) (p : PlayerID)
  : list (Position * Position * Position) :=
  filter (fun t => negb (existsb (line_eqb t) (iter_mills before p)))
         (iter_mills after p).

(** The states the game is played on: a board of at least three sides, a
    dict with every key once and only board positions as keys, one of the
    two players to move, and the two piece counters. *)
Definition wf_state (s : GameState) : Prop :=
  3 <= sides (design (board s))
  /\ NoDup (dict_keys (fields (board s)))
  /\ (forall pos, In pos (dict_keys (fields (board s))) ->
                  valid_pos (design (board s)) pos)
  /\ 0 <= player_turn s < 2
  /\ length (_count (board s)) = 2%nat.

(** A position whose piece the player [pid] may capture. *)
Definition attackable (pid : PlayerID) (b : GameBoard) (y : Position) : Prop :=
  exists piece, get b y = Some piece
                /\ playerID piece <> pid
                /\ 0 <= playerID piece < Z.of_nat (length (_count b)).

(** Positions the player to move may capture: all different, each with a
    piece of the other player. *)
Definition capturable (s : GameState) (l : list Position) : Prop :=
  NoDup l
  /\ forall y, In y l ->
                exists piece, In (y, piece) (fields (board s))
                              /\ playerID piece = other (player_turn s).

(** The shape of every enumerated action. *)
Inductive enumerated (s : GameState) : Action -> Prop :=
| enum_place pos atk :
    placed s (player_turn s) < max_placed_items s ->
    In pos (iter_empty (board s)) ->
    enumerated s (PlaceAction (player_turn s) pos atk)
| enum_move start piece end_ atk :
    In (start, piece) (iter_pieces (board s) (player_turn s)) ->
    In end_ (iter_available_moves (board s) start) ->
    enumerated s (MoveAction (player_turn s) start end_ atk)
| enum_jump start piece end_ atk :
    In (start, piece) (iter_pieces (board s) (player_turn s)) ->
    In end_ (iter_empty (board s)) ->
    enumerated s (JumpAction (player_turn s) start end_ atk).

(** The binomial coefficient [C(n, k)]. *)
Fixpoint binomial (n k : nat) : nat :=
  match n, k with
  | _, O => 1
  | O, S _ => 0
  | S n', S k' => binomial n' k' + binomial n' k
  end.

(** *** Mills and captures in the words of the rules

    These say what a mill and a capturable piece are without the methods
    of the board: through the items of [fields] and the lines of the
    design only. *)

(** Player [p] has a piece on [x]. *)
Definition holds (b : GameBoard) (p : PlayerID) (x : Position) : Prop :=
  exists piece, In (x, piece) (fields b) /\ playerID piece = p.

(** A mill of [p]: a line of the board with a piece of [p] on each of its
    three positions. *)
Definition mill (b : GameBoard) (p : PlayerID)
    (t : Position * Position * Position) : Prop :=
  In t (iter_lines (design b))
  /\ forall x, In x (line_members t) -> holds b p x.

(** A mill that a piece of [p] on [pos] completes: a line through [pos]
    with a piece of [p] on each of its two other positions. *)
Definition completes (b : GameBoard) (p : PlayerID) (pos : Position)
    (t : Position * Position * Position) : Prop :=
  In t (iter_lines (design b))
  /\ In pos (line_members t)
  /\ forall x, In x (line_members t) -> x <> pos -> holds b p x.

(** [x] is a position of a mill of [q]. *)
Definition in_a_mill (b : GameBoard) (q : PlayerID) (x : Position) : Prop :=
  exists t, mill b q t /\ In x (line_members t).

(** A piece of [q] that may be captured: one outside the mills of [q], or
    any piece of [q] when all of them are inside mills. *)
Definition capturable_position (b : GameBoard) (q : PlayerID) (y : Position)
  : Prop :=
  holds b q y
  /\ ((exists z, holds b q z /\ ~ in_a_mill b q z) -> ~ in_a_mill b q y).

(** [l] lists the things that satisfy [P], each once. *)
Definition lists_all {A} (P : A -> Prop) (l : list A) : Prop :=
  NoDup l /\ forall x, In x l <-> P x.

(** The actions among [acts] that put a piece on [pos]. *)
Definition actions_to (pos : Position) (acts : list Action) : list Action :=
  filter (fun a => Position_eqb (destination a) pos) acts.

(* ================================================================== *)
(** ** Example states *)

(** [GameState(sides=4)] *)
Definition start_state : GameState :=
  mkGameState [] 0 (GameBoard_init (Design 4 false)) 9 false.

Definition P0 : Piece := mkPiece 0.
Definition P1 : Piece := mkPiece 1.

(** Both players have placed two pieces; player 0 is about to close the
    line [0:0, 0:1, 0:2]. *)
Definition placing_state : GameState :=
  mkGameState [(0, 2); (1, 2)] 0
    (mkGameBoard (Design 4 false)
       [(Pos 0 0, P0); (Pos 1 3, P1); (Pos 0 1, P0); (Pos 2 5, P1)]
       [2; 2])
    9 false.

(** All eighteen pieces are placed and four of each player are left; the
    pieces of player 0 on [0:0] and [0:2] flank the empty [0:1]. *)
Definition moving_state : GameState :=
  mkGameState [(0, 9); (1, 9)] 0
    (mkGameBoard (Design 4 false)
       [(Pos 0 0, P0); (Pos 1 0, P1); (Pos 0 2, P0); (Pos 2 0, P1);
        (Pos 1 4, P0); (Pos 1 2, P1); (Pos 2 6, P0); (Pos 2 2, P1)]
       [4; 4])
    9 false.

Definition frozen_state : GameState :=
  mkGameState [(0, 2); (1, 2)] 0 (board placing_state) 9 true.

(* ================================================================== *)
(** ** Objects and references

    Where a claim is about which object a call mutates, states live in a
    heap: a [GameState] object refers to its [placed_items] dict and to its
    board, a [GameBoard] object to its [fields] dict and its [_count] list.
    An address is an index of the heap, and a new object goes to its end. *)

Definition ref : Type := nat.

Inductive Obj : Type :=
| OFields (f : Fields)
| OCount (c : list Z)
| OPlaced (p : dict PlayerID Z)
| OBoard (d : DefaultBoardDesign) (fields_ref count_ref : ref)
| OState (placed_ref : ref) (turn : PlayerID) (board_ref : ref)
         (max_placed : Z) (is_frozen : bool).

Definition Heap : Type := list Obj.

(** The state an address stands for, read through its references. *)
Definition load (h : Heap) (r : ref) : option GameState :=
  match nth_error h r with
  | Some (OState pr turn br mx fz) =>
      match nth_error h pr, nth_error h br with
      | Some (OPlaced p), Some (OBoard d fr cr) =>
          match nth_error h fr, nth_error h cr with
          | Some (OFields f), Some (OCount c) =>
              Some (mkGameState p turn (mkGameBoard d f c) mx fz)
          | _, _ => None
          end
      | _, _ => None
      end
  | _ => None
  end.

(** Writing a state back into the objects its address refers to. *)
Definition store (h : Heap) (r : ref) (v : GameState) : Heap :=
  match nth_error h r with
  | Some (OState pr _ br _ _) =>
      match nth_error h br with
      | Some (OBoard _ fr cr) =>
          let h1 := list_set h pr (OPlaced (placed_items v)) in
          let h2 := list_set h1 fr (OFields (fields (board v))) in
          let h3 := list_set h2 cr (OCount (_count (board v))) in
          let h4 := list_set h3 br (OBoard (design (board v)) fr cr) in
          list_set h4 r (OState pr (player_turn v) br (max_placed_items v) (frozen v))
      | _ => h
      end
  | _ => h
  end.

(** A method of the state object at address [r]: it mutates the objects of
    that state in place. *)
Definition h_method {A} (r : ref) (m : M GameState A) : M Heap A :=
  fun h => match load h r with
           | Some v => let (res, v') := m v in (res, store h r v')
           | None => (Raise AttributeError, h)
           end.

Definition h_execute (r : ref) (action : Action) : M Heap (option GameState) :=
  h_method r (execute action).

(** [self.clone()]: a new state object with a new [defaultdict], a new
    board object, a new [dict] of fields and a new [list] of counters, each
    filled with the items of the one of [self]. *)
Definition h_clone (r : ref) : M Heap ref :=
  fun h => match load h r with
           | Some v =>
               let n := length h in
               (Ok (n + 4)%nat,
                h ++ [OPlaced (placed_items v);
                      OFields (fields (board v));
                      OCount (_count (board v));
                      OBoard (design (board v)) (n + 1)%nat (n + 2)%nat;
                      OState n (player_turn v) (n + 3)%nat (max_placed_items v) false])
           | None => (Raise AttributeError, h)
           end.

(** [for action in actions: state.execute(action)] on the state at [r]. *)
Definition h_run (r : ref) (actions : list Action) : M Heap unit :=
  for_each actions (fun a => bind (h_execute r a) (fun _ => ret tt)).

(** The addresses below [n] hold in [h'] what they hold in [h]. *)
Definition agree (n : nat) (h h' : Heap) : Prop :=
  forall r, (r < n)%nat -> nth_error h' r = nth_error h r.

(** The state at [r] and all the objects it refers to lie at five different
    addresses from [n] on. *)
Definition owns_above (n : nat) (h : Heap) (r : ref) : Prop :=
  exists pr turn br mx fz d fr cr,
    nth_error h r = Some (OState pr turn br mx fz)
    /\ nth_error h br = Some (OBoard d fr cr)
    /\ (exists p, nth_error h pr = Some (OPlaced p))
    /\ (exists f, nth_error h fr = Some (OFields f))
    /\ (exists c, nth_error h cr = Some (OCount c))
    /\ (n <= r)%nat /\ (n <= pr)%nat /\ (n <= br)%nat /\ (n <= fr)%nat /\ (n <= cr)%nat
    /\ NoDup [r; pr; br; fr; cr].


Set Warnings "-register-all".

(** A heap with one state: the frozen state of a tree node. *)
Definition frozen_heap : Heap :=
  [OPlaced (placed_items frozen_state);
   OFields (fields (board frozen_state));
   OCount (_count (board frozen_state));
   OBoard (design (board frozen_state)) 1%nat 2%nat;
   OState 0%nat (player_turn frozen_state) 3%nat (max_placed_items frozen_state) true].

(* ================================================================== *)
(** ** Python floats and the random module

    The rewards are Python floats.  Their arithmetic is a parameter: the
    operations below stand for [float(n)], [+], [*], [/], [math.log],
    [math.sqrt] and [<] on floats, and the model raises where Python does. *)

Class PyFloat (F : Type) : Type := {
  float : Z -> F;
  fadd : F -> F -> F;
  fmul : F -> F -> F;
  fdiv : F -> F -> F;
  flog : F -> F;
  fsqrt : F -> F;
  fltb : F -> F -> bool
}.

(** Exact rational arithmetic; [math.log] and [math.sqrt] are rounded down
    to an integer. *)
#[export] Instance Q_PyFloat : PyFloat Q := {
  float := inject_Z;
  fadd := Qplus;
  fmul := Qmult;
  fdiv := Qdiv;
  flog := fun q => inject_Z (Z.log2 (Qfloor q));
  fsqrt := fun q => inject_Z (Z.sqrt (Qfloor q));
  fltb := fun a b => negb (Qle_bool b a)
}.

Section Floats.
Context {F : Type} {PF : PyFloat F}.

(** [a / b] of two ints *)
Definition int_truediv (a b : Z) : outcome F :=
  if b =? 0 then Raise ZeroDivisionError else Ok (fdiv (float a) (float b)).

(** [x / n] of a float and an int *)
Definition float_div_int (x : F) (n : Z) : outcome F :=
  if n =? 0 then Raise ZeroDivisionError else Ok (fdiv x (float n)).

(** [math.log(n)] of an int *)
Definition math_log (n : Z) : outcome F :=
  if n <=? 0 then Raise ValueError else Ok (flog (float n)).

(** [math.sqrt(x)] *)
Definition math_sqrt (x : F) : outcome F :=
  if fltb x (float 0) then Raise ValueError else Ok (fsqrt x).
End Floats.

(** The state of the random module: the draws to come. *)
Definition Rng : Type := list nat.

(** [random.randint(0, n - 1)] for [n >= 1] *)
Definition randint (n : nat) : M Rng nat :=
  fun rng => match rng with
             | [] => (Ok 0%nat, [])
             | x :: rng' => (Ok (x mod n)%nat, rng')
             end.

(** [pop_random_from_list(data)]: the popped item and the list left. *)
Definition pop_random_from_list {A} (data : list A) : M Rng (A * list A) :=
  match data with
  | [] => raise ValueError
  | x :: _ =>
      bind (randint (length data))
           (fun index => ret (nth index data x, list_del data index))
  end.

(** [enumerate(l)] *)
Definition enumerate {A} (l : list A) : list (nat * A) :=
  combine (seq 0 (length l)) l.

(* ================================================================== *)
(** ** The simulation policy *)

Record SimulationResult : Type := mkSimulationResult {
  steps : Z;
  winner : option PlayerID;
  pieces_left : Z * Z
}.

(** [t[i]] of a pair *)
Definition pair_get (t : Z * Z) (i : Z) : outcome Z :=
  match py_index 2 i with
  | Some 0%nat => Ok (fst t)
  | Some _ => Ok (snd t)
  | None => Raise IndexError
  end.

(** [list(state.calc_available_actions())] on a state no one else refers
    to: the actions, and the state as the call leaves it. *)
Definition list_actions {S} (state : GameState) : M S (list Action * GameState) :=
  match calc_available_actions (player_turn state) state with
  | (Ok actions, state') => ret (actions, state')
  | (Raise e, _) => raise e
  end.

(** [state.execute(action)] on a state no one else refers to. *)
Definition executed {S} (state : GameState) (action : Action) : M S GameState :=
  match execute action state with
  | (Ok _, state') => ret state'
  | (Raise e, _) => raise e
  end.

Section Simulation.
Context {F : Type} {PF : PyFloat F}.
(** The fields of [SimpleSimulationPolicy]. *)
Variables (player : PlayerID) (max_depth branching branching_depth : Z).

Definition take_action (actions : list Action) : M Rng (Action * list Action) :=
  (assert (negb (length actions =? 0)%nat) ;;;
   let actions_with_attack :=
     filter (fun na => has_attacks (snd na)) (enumerate actions) in
   match actions_with_attack with
   | _ :: _ =>
       r <- pop_random_from_list actions_with_attack ;;
       let '((index, action), _) := r in
       ret (action, list_del actions index)
   | [] => pop_random_from_list actions
   end)%py.

Definition result_of (state : GameState) (steps : Z) (winner : option PlayerID)
  : M Rng (list SimulationResult) :=
  (pieces <- lift (count_total (board state)) ;;
   ret [mkSimulationResult steps winner pieces])%py.

(** [_iter_simulate(state, actions, steps)] with [depth_left] plies to go:
    [depth_left] is [max_depth - steps], and [0] when [steps >= max_depth]. *)
Fixpoint iter_simulate_from (depth_left : nat) (state : GameState)
    (actions : list Action) (steps : Z) : M Rng (list SimulationResult) :=
  match depth_left with
  | O => result_of state steps None
  | S depth_left' =>
      match actions with
      | [] => result_of state steps (Some (other (player_turn state)))
      | _ :: _ =>
          if (branching >? 1) && (steps <? branching_depth) then
            (fix loop (n : nat) (actions : list Action)
               : M Rng (list SimulationResult) :=
               match n with
               | O => ret []
               | S n' =>
                   (r <- take_action actions ;;
                    let '(action, actions') := r in
                    newstate <- executed (clone state) action ;;
                    listed <- list_actions newstate ;;
                    let '(next, newstate) := listed in
                    rs <- iter_simulate_from depth_left' newstate next (steps + 1) ;;
                    rest <- loop n' actions' ;;
                    ret (rs ++ rest))%py
               end)
              (Nat.min (Z.to_nat branching) (length actions)) actions
          else
            (r <- take_action actions ;;
             let '(action, _) := r in
             state' <- executed state action ;;
             listed <- list_actions state' ;;
             let '(next, state') := listed in
             iter_simulate_from depth_left' state' next (steps + 1))%py
      end
  end.

Definition _iter_simulate (state : GameState) (actions : list Action)
  : M Rng (list SimulationResult) :=
  iter_simulate_from (Z.to_nat max_depth) state actions 0.

(** The loop of [simulate] over the results: the reward after a result. *)
Definition add_result (reward : outcome F) (result : SimulationResult)
  : outcome F :=
  match reward with
  | Raise e => Raise e
  | Ok reward =>
      match pair_get (pieces_left result) player,
            pair_get (pieces_left result) (other player) with
      | Ok pieces_player, Ok pieces_other =>
          match int_truediv (pieces_player - pieces_other)
                            (pieces_player + pieces_other) with
          | Ok ratio => Ok (fadd reward (fmul (float 2) ratio))
          | Raise e => Raise e
          end
      | Raise e, _ => Raise e
      | _, Raise e => Raise e
      end
  end.

(** What [simulate] adds to [reward_total], from the results. *)
Definition reward_of (results : list SimulationResult) : outcome F :=
  match fold_left add_result results (Ok (float 0)) with
  | Ok reward => float_div_int reward (Z.of_nat (length results))
  | Raise e => Raise e
  end.
End Simulation.

(* ================================================================== *)
(** ** Playouts

    What a simulation plays, said without the simulation policy: a playout
    is a run of plies, and a ply executes, on a copy of the state, one of
    the actions the state offers to the player to move. *)




(** The state of a game in play: the pieces stand on positions of the
    board, the counters count them, and no player has placed more pieces
    than there are to place. *)
Definition game_invariant (s : GameState) : Prop :=
  wf_state s
  /\ counts_ok (board s)
  /\ forall q, placed s q <= max_placed_items s.

(* ================================================================== *)
(** ** Equality of actions *)

Fixpoint positions_eqb (l l' : list Position) : bool :=
  match l, l' with
  | [], [] => true
  | p :: l, p' :: l' => Position_eqb p p' && positions_eqb l l'
  | _, _ => false
  end.

Definition attacks_eqb (o o' : option (list Position)) : bool :=
  match o, o' with
  | None, None => true
  | Some l, Some l' => positions_eqb l l'
  | _, _ => false
  end.

(** [Action.__eq__] of the three classes. *)
Definition Action_eqb (a a' : Action) : bool :=
  match a, a' with
  | PlaceAction p pos atk, PlaceAction p' pos' atk' =>
      (p =? p') && attacks_eqb atk atk' && Position_eqb pos pos'
  | MoveAction p s e atk, MoveAction p' s' e' atk' =>
      (p =? p') && attacks_eqb atk atk' && Position_eqb s s' && Position_eqb e e'
  | JumpAction p s e atk, JumpAction p' s' e' atk' =>
      (p =? p') && attacks_eqb atk atk' && Position_eqb s s' && Position_eqb e e'
  | _, _ => false
  end.

(* ================================================================== *)
(** ** The search tree

    A node is the value of its object; a node object is named by the keys
    of [children] that lead to it from the root of the search, and its
    [parent] is the node one key up.  The root has no parent. *)

Section Search.
Context {F : Type} {PF : PyFloat F}.

Inductive MCTS_Node : Type := mkNode {
  state : GameState;
  remaining_actions : list Action;
  children : list (Action * MCTS_Node);
  visited : Z;
  simulations : Z;
  reward_total : F
}.

Definition set_remaining_actions (l : list Action) (n : MCTS_Node) : MCTS_Node :=
  mkNode (state n) l (children n) (visited n) (simulations n) (reward_total n).
Definition set_children (c : list (Action * MCTS_Node)) (n : MCTS_Node)
  : MCTS_Node :=
  mkNode (state n) (remaining_actions n) c (visited n) (simulations n)
         (reward_total n).
Definition set_stats (v s : Z) (r : F) (n : MCTS_Node) : MCTS_Node :=
  mkNode (state n) (remaining_actions n) (children n) v s r.

(** [MCTS_Node(state, parent)]: freezes [state] and lists its actions. *)
Definition MCTS_Node_init (st : GameState) : outcome MCTS_Node :=
  let frozen_st := snd (freeze st) in
  match calc_available_actions (player_turn frozen_st) frozen_st with
  | (Ok actions, listed_st) => Ok (mkNode listed_st actions [] 0 0 (float 0))
  | (Raise e, _) => Raise e
  end.

Definition Path : Type := list Action.

Fixpoint get_node (root : MCTS_Node) (path : Path) : option MCTS_Node :=
  match path with
  | [] => Some root
  | a :: path' =>
      match dict_get Action_eqb (children root) a with
      | Some child => get_node child path'
      | None => None
      end
  end.

(** The tree after the node at [path] has become [node']. *)
Fixpoint set_node (root : MCTS_Node) (path : Path) (node' : MCTS_Node)
  : MCTS_Node :=
  match path with
  | [] => node'
  | a :: path' =>
      match dict_get Action_eqb (children root) a with
      | Some child =>
          set_children (dict_set Action_eqb (children root) a
                                 (set_node child path' node')) root
      | None => root
      end
  end.

(** [mcts.node] and the state of the random module. *)
Record World : Type := mkWorld { root : MCTS_Node; rng : Rng }.

Definition with_rng {A} (m : M Rng A) : M World A :=
  fun w => let (r, rng') := m (rng w) in (r, mkWorld (root w) rng').

Definition node_at (path : Path) : M World MCTS_Node :=
  fun w => match get_node (root w) path with
           | Some n => (Ok n, w)
           | None => (Raise AttributeError, w)
           end.

Definition set_node_at (path : Path) (node' : MCTS_Node) : M World unit :=
  fun w => (Ok tt, mkWorld (set_node (root w) path node') (rng w)).

(** *** SimpleSelectionPolicy *)

Definition UCB1 (node : MCTS_Node) (ln_simulations_total : F) : outcome F :=
  match float_div_int (reward_total node) (simulations node),
        float_div_int (fmul (float 2) ln_simulations_total) (simulations node) with
  | Ok mean, Ok q =>
      match math_sqrt q with
      | Ok root_q => Ok (fadd mean root_q)
      | Raise e => Raise e
      end
  | Raise e, _ => Raise e
  | _, Raise e => Raise e
  end.

(** [[(UCB1(child, ln), child) for action, child in ...]], each child
    with what the descent into it selects. *)
Fixpoint score_all {X} (ln : F) (l : list (MCTS_Node * X))
  : outcome (list (F * X)) :=
  match l with
  | [] => Ok []
  | (child, x) :: l' =>
      match UCB1 child ln with
      | Raise e => Raise e
      | Ok u => match score_all ln l' with
                | Ok us => Ok ((u, x) :: us)
                | Raise e => Raise e
                end
      end
  end.

(** [children.sort(key=..., reverse=True); children[0]]: the first item
    of the greatest key. *)
Fixpoint first_max {X} (best : F * X) (l : list (F * X)) : X :=
  match l with
  | [] => snd best
  | c :: l' => if fltb (fst best) (fst c) then first_max c l' else first_max best l'
  end.

(** [select_from(node)]: the path from [node] to the selected node. *)
Fixpoint select_from (node : MCTS_Node) : outcome (option Path) :=
  match remaining_actions node with
  | _ :: _ => Ok (Some [])
  | [] =>
      match children node with
      | [] => Ok None
      | _ :: _ =>
          match math_log (simulations node) with
          | Raise e => Raise e
          | Ok ln_simulations_total =>
              match score_all ln_simulations_total
                      (map (fun ac =>
                              (snd ac,
                               match select_from (snd ac) with
                               | Ok (Some path) => Ok (Some (fst ac :: path))
                               | other_result => other_result
                               end))
                           (children node)) with
              | Raise e => Raise e
              | Ok [] => Ok None
              | Ok (c :: cs) => first_max c cs
              end
          end
      end
  end.

(** *** The default policies, on the tree *)

Variables (player : PlayerID) (max_depth branching branching_depth : Z).
Variable expansion_branching : Z.

(** [SimpleSimulationPolicy.simulate(node)] *)
Definition simulate (path : Path) : M World unit :=
  (node <- node_at path ;;
   listed <- list_actions (clone (state node)) ;;
   let '(actions, st) := listed in
   results <- with_rng (_iter_simulate max_depth branching branching_depth
                                       st actions) ;;
   reward <- lift (reward_of player results) ;;
   set_node_at path (set_stats (visited node) (simulations node + 1)
                               (fadd (reward_total node) reward) node))%py.

(** [SimpleBackpropagationPolicy.backpropagate(node)], the path given
    last key first. *)
Fixpoint backpropagate_rev (rev_path : Path) : M World unit :=
  match rev_path with
  | [] => ret tt
  | _ :: rev_parent =>
      (node <- node_at (rev rev_path) ;;
       parent <- node_at (rev rev_parent) ;;
       set_node_at (rev rev_parent)
         (set_stats (visited parent + 1)
                    (simulations parent + simulations node)
                    (fadd (reward_total parent) (reward_total node)) parent) ;;;
       backpropagate_rev rev_parent)%py
  end.

Definition backpropagate (path : Path) : M World unit :=
  backpropagate_rev (rev path).

(** One turn of the loop of [SimpleExpansionPolicy.expand(node)], up to
    its [yield]: the path of the new child. *)
Definition expand_one (path : Path) : M World Path :=
  (node <- node_at path ;;
   r <- with_rng (pop_random_from_list (remaining_actions node)) ;;
   let '(action, remaining) := r in
   set_node_at path (set_remaining_actions remaining node) ;;;
   newstate <- executed (clone (state node)) action ;;
   child <- lift (MCTS_Node_init newstate) ;;
   node <- node_at path ;;
   set_node_at path
     (set_children (dict_set Action_eqb (children node) action child) node) ;;;
   ret (path ++ [action]))%py.

(** [MCTS.run_one_iteration()] *)
Definition run_one_iteration : M World bool :=
  (w <- get_self ;;
   selected <- lift (select_from (root w)) ;;
   match selected with
   | Some path =>
       node <- node_at path ;;
       assert (negb (length (remaining_actions node) =? 0)%nat) ;;;
       for_each (seq 0 (Nat.min (Z.to_nat expansion_branching)
                                (length (remaining_actions node))))
         (fun _ => child <- expand_one path ;;
                   simulate child ;;;
                   backpropagate child) ;;;
       ret true
   | None => ret false
   end)%py.

(** [for _ in range(n): mcts.run_one_iteration()] *)
Definition run_iterations (n : nat) : M World unit :=
  for_each (seq 0 n) (fun _ => bind run_one_iteration (fun _ => ret tt)).

(** [MCTS(root, ...)] *)
Definition MCTS_init (game : GameState) (rng0 : Rng) : outcome World :=
  match MCTS_Node_init game with
  | Ok node => Ok (mkWorld node rng0)
  | Raise e => Raise e
  end.
End Search.

(* ================================================================== *)
(** ** An example search *)

(** All pieces are placed; player 0 is to move and has one move only,
    from [2:1] to [2:2], which closes no line. *)
Definition single_action_state : GameState :=
  mkGameState [(0, 9); (1, 9)] 0
    (mkGameBoard (Design 4 false)
       [(Pos 0 0, P0); (Pos 0 7, P1); (Pos 0 1, P0); (Pos 0 2, P1);
        (Pos 1 1, P0); (Pos 1 0, P1); (Pos 2 1, P0); (Pos 1 2, P1);
        (Pos 2 0, P1)]
       [4; 5])
    9 false.

Definition single_action : Action :=
  MoveAction 0 (Pos 2 1) (Pos 2 2) None.

(** [init_mcts(game, 0)] with the defaults [max_depth=50], [branching=5],
    [branching_depth=1] of the simulation and [branching=3] of the
    expansion, over rational rewards, every random draw being [0]. *)
Definition example_search (n : nat) : outcome unit * World (F := Q) :=
  match MCTS_init single_action_state [] with
  | Ok w => run_iterations 0 50 5 1 3 n w
  | Raise e => (Raise e, mkWorld (mkNode single_action_state [] [] 0 0 (float 0)) [])
  end.

(* ================================================================== *)
(** ** The reward in the words of the specification *)

Section ClaimedReward.
Context {F : Type} {PF : PyFloat F}.
Variable player : PlayerID.




End ClaimedReward.

(* ================================================================== *)
(** ** Reasoning about methods *)

(** If [m] returns from a state that satisfies [P], then the value returned
    and the state left satisfy [Q]. *)
Definition hoare {S A} (P : S -> Prop) (m : M S A) (Q : A -> S -> Prop) : Prop :=
  forall s, P s -> forall a s', m s = (Ok a, s') -> Q a s'.

Section OneChild.
Context {F : Type} {PF : PyFloat F}.

(** The node is fully expanded and has the one child [a]. *)
Definition has_one_child (a : Action) (n : @MCTS_Node F) : Prop :=
  remaining_actions n = [] /\ exists c, children n = [(a, c)].

(** A property of the tree, whatever the random module holds. *)
Definition on_root (R : @MCTS_Node F -> Prop) : @World F -> Prop :=
  fun w => R (root w).

(** The same, with the [simulations] counter of the child. *)
Definition one_child_simulated (a : Action) (k : Z) (n : @MCTS_Node F) : Prop :=
  remaining_actions n = []
  /\ exists c, children n = [(a, c)] /\ simulations c = k.
End OneChild.


Set Warnings "-register-all".

(* ================================================================== *)
(** ** The search object: choosing a move *)

Section Best.
Context {F : Type} {PF : PyFloat F}.





(** The [simulations] counters of the nodes below [node] on a path. *)
Fixpoint path_simulations (node : @MCTS_Node F) (path : Path) : Z :=
  match path with
  | [] => 0
  | a :: path' =>
      match dict_get Action_eqb (children node) a with
      | Some child => simulations child + path_simulations child path'
      | None => 0
      end
  end.
End Best.

(** A search over rational rewards whose root has two simulated children. *)
Definition two_children : World (F := Q) :=
  mkWorld
    (mkNode single_action_state [] 
       [(MoveAction 0 (Pos 2 1) (Pos 2 2) None,
         mkNode single_action_state [] [] 1 2 (1 # 1)%Q);
        (MoveAction 0 (Pos 0 1) (Pos 0 2) None,
         mkNode single_action_state [] [] 1 2 (3 # 1)%Q)]
       2 4 (4 # 1)%Q)
    [].

(* ================================================================== *)
(** ** A game *)

(** A game from [state]: at every turn one of the actions offered to the
    player to move, the one at the given index, is executed on a clone of
    the state, and the game stops when no action is offered.  This is the
    loop of [main], with the indices in place of [random.choice]. *)
Fixpoint play (choices : list nat) (state : GameState) : outcome GameState :=
  match choices with
  | [] => Ok state
  | n :: choices' =>
      match calc_available_actions (player_turn state) state with
      | (Raise e, _) => Raise e
      | (Ok [], state) => Ok state
      | (Ok (a :: acts), state) =>
          match execute (nth (n mod length (a :: acts)) (a :: acts) a)
                        (clone state) with
          | (Ok _, state') => play choices' state'
          | (Raise e, state') => Raise e
          end
      end
  end.



(* ================================================================== *)
(** * Part II: properties *)

(** ** Arithmetic of ring indices *)

Ltac zlia := Z.div_mod_to_equations; lia.

(** Case analysis on the integer tests of the goal, dropping at once the
    cases the context refutes. *)
Ltac zstep :=
  match goal with
  | |- context [Z.min ?a ?b] =>
      destruct (Z.min_spec a b) as [[? ->]|[? ->]]
  | |- context [Z.max ?a ?b] =>
      destruct (Z.max_spec a b) as [[? ->]|[? ->]]
  | |- context [?a =? ?b] => destruct (Z.eqb_spec a b)
  | |- context [?a >? ?b] => destruct (Z.gtb_spec a b)
  | |- context [?a <? ?b] => destruct (Z.ltb_spec a b)
  | |- context [?a <=? ?b] => destruct (Z.leb_spec a b)
  end; try (exfalso; zlia); cbn [negb andb orb].

Ltac zcases := repeat zstep.

Lemma in_range (n x : Z) : In x (range n) <-> 0 <= x < n.
Proof.
  unfold range. rewrite in_map_iff. split.
  - intros (k & <- & Hk). apply in_seq in Hk. lia.
  - intros H. exists (Z.to_nat x). split; [lia|]. apply in_seq. lia.
Qed.

Lemma NoDup_range (n : Z) : NoDup (range n).
Proof.
  unfold range. apply Injective_map_NoDup.
  - intros a b H. lia.
  - apply seq_NoDup.
Qed.

(** [x % n] for an [x] at most one turn away from [0..n-1]. *)
Lemma mod_wrap (n x : Z) :
  0 < n -> - n <= x < 2 * n ->
  x mod n = if x <? 0 then x + n else if x <? n then x else x - n.
Proof.
  intros Hn Hx. destruct (Z.ltb_spec x 0); [|destruct (Z.ltb_spec x n)].
  - symmetry. apply Z.mod_unique with (q := -1); lia.
  - apply Z.mod_small; lia.
  - symmetry. apply Z.mod_unique with (q := 1); lia.
Qed.

Lemma parity_cases (x : Z) : x mod 2 = 0 \/ x mod 2 = 1.
Proof. pose proof (Z.mod_pos_bound x 2). lia. Qed.

Lemma Position_eqb_eq (a b : Position) : Position_eqb a b = true <-> a = b.
Proof.
  destruct a as [r i], b as [r' i']. unfold Position_eqb; simpl.
  rewrite andb_true_iff, !Z.eqb_eq. split; [intros [-> ->]; reflexivity|].
  intros H; inversion H; auto.
Qed.

Lemma Position_eqb_refl (a : Position) : Position_eqb a a = true.
Proof. apply Position_eqb_eq; reflexivity. Qed.

Lemma Position_eqb_neq (a b : Position) : Position_eqb a b = false <-> a <> b.
Proof.
  rewrite <- Position_eqb_eq. destruct (Position_eqb a b); split; congruence.
Qed.

Lemma Position_eq_dec (a b : Position) : {a = b} + {a <> b}.
Proof. decide equality; apply Z.eq_dec. Defined.

Lemma valid_posb_spec d p : valid_posb d p = true <-> valid_pos d p.
Proof.
  unfold valid_posb, valid_pos. rewrite !andb_true_iff, !Z.leb_le, Z.ltb_lt. lia.
Qed.

(** The same-ring test of [is_linked_to]: distance 1, also around the seam. *)
Lemma linked_mod (n i j : Z) :
  6 <= n -> 0 <= i < n -> 0 <= j < n ->
  (Z.abs (i - j) mod (n - 2) =? 1) = true <->
  (j = i + 1 \/ j = i - 1 \/ (i = 0 /\ j = n - 1) \/ (i = n - 1 /\ j = 0)).
Proof.
  intros Hn Hi Hj. rewrite Z.eqb_eq.
  assert (Hx : 0 <= Z.abs (i - j) <= n - 1) by lia.
  destruct (Z.lt_ge_cases (Z.abs (i - j)) (n - 2)) as [Hlt|Hge].
  - rewrite Z.mod_small by lia. lia.
  - replace (Z.abs (i - j)) with ((Z.abs (i - j) - (n - 2)) + 1 * (n - 2)) by lia.
    rewrite Z.mod_add by lia. rewrite Z.mod_small by lia. lia.
Qed.

Section Topology.
Variable d : DefaultBoardDesign.
Hypothesis Hsides : 3 <= sides d.

Let n := ring_size d.

Lemma ring_size_ge : 6 <= ring_size d.
Proof. unfold ring_size. lia. Qed.

Lemma ring_size_even : ring_size d mod 2 = 0.
Proof. unfold ring_size. rewrite Z.mul_comm. apply Z.mod_mul. lia. Qed.

Lemma in_iter_fields (p : Position) : In p (iter_fields d) <-> valid_pos d p.
Proof.
  unfold iter_fields, valid_pos. rewrite in_flat_map. split.
  - intros (r & Hr & Hp). apply in_map_iff in Hp as (i & <- & Hi).
    apply in_range in Hr, Hi. simpl. lia.
  - intros [Hr Hi]. exists (ring p). split; [apply in_range; lia|].
    apply in_map_iff. exists (index p). split; [destruct p; reflexivity|].
    apply in_range; lia.
Qed.

Lemma is_linked_to_sym (a b : Position) :
  is_linked_to d a b = is_linked_to d b a.
Proof.
  unfold is_linked_to.
  rewrite (Z.eqb_sym (ring b) (ring a)), (Z.eqb_sym (index b) (index a)).
  destruct (ring a =? ring b) eqn:Er.
  - f_equal. f_equal. lia.
  - destruct (index a =? index b) eqn:Ei; [|reflexivity].
    apply Z.eqb_eq in Ei. rewrite Ei.
    replace (Z.abs (ring b - ring a)) with (Z.abs (ring a - ring b)) by lia.
    reflexivity.
Qed.

Lemma in_neighbors_of (p q : Position) :
  In q (neighbors_of d p) <->
  q = Pos (ring p) ((index p - 1) mod ring_size d)
  \/ q = Pos (ring p) ((index p + 1) mod ring_size d)
  \/ ((extended d || (index p mod 2 =? 1)) = true
      /\ ((0 < ring p /\ q = Pos (ring p - 1) (index p))
          \/ (ring p < 2 /\ q = Pos (ring p + 1) (index p)))).
Proof.
  unfold neighbors_of. rewrite in_app_iff. simpl.
  destruct (extended d || (index p mod 2 =? 1)).
  - rewrite in_app_iff.
    destruct (Z.gtb_spec (ring p) 0); destruct (Z.ltb_spec (ring p) 2); simpl;
      intuition (try congruence; try lia).
  - simpl. intuition (try congruence).
Qed.

Lemma neighbors_of_valid (p q : Position) :
  valid_pos d p -> In q (neighbors_of d p) -> valid_pos d q.
Proof.
  pose proof ring_size_ge as Hn.
  rewrite in_neighbors_of. unfold valid_pos. intros [Hr Hi] Hq.
  destruct Hq as [->|[->|[_ [[? ->]|[? ->]]]]]; simpl;
    try (split; [lia|apply Z.mod_pos_bound; lia]); lia.
Qed.

Lemma neighbors_of_linked (p q : Position) :
  valid_pos d p -> valid_pos d q ->
  (In q (neighbors_of d p) <-> is_linked_to d p q = true).
Proof.
  pose proof ring_size_ge as Hn.
  rewrite in_neighbors_of.
  destruct p as [r i], q as [r' i']. unfold valid_pos; simpl.
  intros [Hr Hi] [Hr' Hi'].
  unfold is_linked_to; simpl.
  rewrite !(mod_wrap (n := ring_size d)) by lia.
  destruct (Z.ltb_spec (i - 1) 0); destruct (Z.ltb_spec (i + 1) 0); try lia;
    destruct (Z.ltb_spec (i - 1) (ring_size d));
    destruct (Z.ltb_spec (i + 1) (ring_size d)); try lia;
    (destruct (Z.eqb_spec r r') as [<-|Hrr];
     [ rewrite linked_mod by lia; split;
       [ intros [HQ|[HQ|[_ [[_ HQ]|[_ HQ]]]]]; inversion HQ; lia
       | intros [->|[->|[[-> ->]|[-> ->]]]]; try lia;
         solve [left; f_equal; lia | right; left; f_equal; lia] ]
     | destruct (Z.eqb_spec i i') as [<-|Hii];
       [ destruct (extended d || (i mod 2 =? 1));
         [ rewrite Z.eqb_eq; split;
           [ intros [HQ|[HQ|[_ [[_ HQ]|[_ HQ]]]]]; inversion HQ; lia
           | intros HQ; right; right; split; [reflexivity|];
             destruct (Z.lt_ge_cases r' r);
             [left; split; [lia|f_equal; lia] | right; split; [lia|f_equal; lia]] ]
         | split; [intros [HQ|[HQ|[HQ _]]]; try discriminate; inversion HQ; lia
                  | discriminate] ]
       | split; [intros [HQ|[HQ|[_ [[_ HQ]|[_ HQ]]]]]; inversion HQ; lia | discriminate] ] ]).
Qed.

(** *** Lines *)

Lemma in_iter_lines (t : Position * Position * Position) :
  In t (iter_lines d) <->
  (exists r s, 0 <= r <= 2 /\ 0 <= s < sides d /\ t = ring_line d r s)
  \/ (exists i, 0 <= i < ring_size d
                /\ (extended d || (i mod 2 =? 1)) = true /\ t = cross_line i).
Proof.
  unfold iter_lines. rewrite in_app_iff, !in_flat_map. split.
  - intros [(r & Hr & Ht)|(i & Hi & Ht)].
    + left. apply in_map_iff in Ht as (s & <- & Hs).
      apply in_range in Hr, Hs. exists r, s. repeat split; lia.
    + right. apply in_range in Hi. exists i.
      destruct (extended d || (i mod 2 =? 1)); [|contradiction].
      destruct Ht as [<-|[]]. repeat split; lia.
  - intros [(r & s & Hr & Hs & ->)|(i & Hi & He & ->)].
    + left. exists r. split; [apply in_range; lia|].
      apply in_map_iff. exists s. split; [reflexivity|apply in_range; lia].
    + right. exists i. split; [apply in_range; lia|].
      rewrite He. left; reflexivity.
Qed.

Lemma get_third_in_line_sym (a b : Position) :
  get_third_in_line d a b = get_third_in_line d b a.
Proof.
  unfold get_third_in_line.
  rewrite (Z.eqb_sym (ring b) (ring a)), (Z.eqb_sym (index b) (index a)).
  rewrite (Z.min_comm (index b)), (Z.max_comm (index b)).
  rewrite (Z.min_comm (ring b)), (Z.max_comm (ring b)).
  destruct (Z.eqb_spec (ring a) (ring b)) as [->|Hr]; cbn [andb negb].
  - reflexivity.
  - destruct (Z.eqb_spec (index a) (index b)) as [->|Hi]; reflexivity.
Qed.

Lemma get_third_in_line_raises (a b : Position) :
  (exists c, get_third_in_line d a b = Ok c)
  \/ get_third_in_line d a b = Raise ValueError.
Proof.
  unfold get_third_in_line.
  repeat match goal with
         | |- context [if ?c then _ else _] => destruct c
         | |- context [let '(_, _) := ?p in _] => destruct p
         end; eauto.
Qed.

Lemma get_third_in_line_same (a : Position) :
  get_third_in_line d a a = Raise ValueError.
Proof. unfold get_third_in_line. rewrite !Z.eqb_refl. reflexivity. Qed.

Lemma third_ring_line (r s : Z) :
  0 <= s < sides d ->
  let '(x0, x1, x2) := ring_line d r s in
  get_third_in_line d x0 x1 = Ok x2
  /\ get_third_in_line d x0 x2 = Ok x1
  /\ get_third_in_line d x1 x2 = Ok x0.
Proof.
  intros Hs. pose proof ring_size_ge as Hn.
  assert (Hrs : ring_size d = 2 * sides d) by reflexivity.
  unfold ring_line, get_third_in_line. cbn [ring index].
  rewrite Z.eqb_refl. cbn [andb].
  rewrite (mod_wrap (n := ring_size d) (x := s * 2 + 2)) by lia.
  destruct (Z.ltb_spec (s * 2 + 2) 0); [lia|].
  destruct (Z.ltb_spec (s * 2 + 2) (ring_size d)).
  - repeat split; zcases; try zlia; try reflexivity;
      rewrite ?(mod_wrap (n := ring_size d)) by lia; zcases; try zlia;
      f_equal; f_equal; lia.
  - assert (Hs2 : s * 2 + 2 = ring_size d) by lia.
    repeat split; zcases; try zlia; try reflexivity;
      rewrite ?(mod_wrap (n := ring_size d)) by lia; zcases; try zlia;
      f_equal; f_equal; lia.
Qed.

Lemma third_cross_line (i : Z) :
  (extended d || (i mod 2 =? 1)) = true ->
  get_third_in_line d (Pos 0 i) (Pos 1 i) = Ok (Pos 2 i)
  /\ get_third_in_line d (Pos 0 i) (Pos 2 i) = Ok (Pos 1 i)
  /\ get_third_in_line d (Pos 1 i) (Pos 2 i) = Ok (Pos 0 i).
Proof.
  intros He. unfold get_third_in_line. cbn [ring index].
  rewrite He, Z.eqb_refl. repeat split; reflexivity.
Qed.

Lemma perm3 (A : Type) (x y z a b c : A) :
  (a = x /\ b = y /\ c = z) \/ (a = x /\ b = z /\ c = y)
  \/ (a = y /\ b = x /\ c = z) \/ (a = y /\ b = z /\ c = x)
  \/ (a = z /\ b = x /\ c = y) \/ (a = z /\ b = y /\ c = x) ->
  Permutation [x; y; z] [a; b; c].
Proof.
  intros [(-> & -> & ->)|[(-> & -> & ->)|[(-> & -> & ->)|[(-> & -> & ->)
         |[(-> & -> & ->)|(-> & -> & ->)]]]]].
  - apply Permutation_refl.
  - apply perm_skip, perm_swap.
  - apply perm_swap.
  - eapply perm_trans; [apply perm_swap|apply perm_skip, perm_swap].
  - eapply perm_trans; [apply perm_skip, perm_swap|apply perm_swap].
  - eapply perm_trans; [apply perm_swap|].
    eapply perm_trans; [apply perm_skip, perm_swap|apply perm_swap].
Qed.

Ltac pos_eq := f_equal; zlia.

Ltac perm3_tac :=
  apply perm3;
  first [ left; solve [repeat split; pos_eq]
        | right; left; solve [repeat split; pos_eq]
        | do 2 right; left; solve [repeat split; pos_eq]
        | do 3 right; left; solve [repeat split; pos_eq]
        | do 4 right; left; solve [repeat split; pos_eq]
        | do 5 right; solve [repeat split; pos_eq] ].

Lemma ring_line_in (r s : Z) (x y z : Position) :
  0 <= r <= 2 -> 0 <= s < sides d ->
  Permutation (line_members (ring_line d r s)) [x; y; z] ->
  exists t, In t (iter_lines d) /\ Permutation (line_members t) [x; y; z].
Proof.
  intros Hr Hs Hp. exists (ring_line d r s). split; [|exact Hp].
  apply in_iter_lines. left. exists r, s. auto.
Qed.

Lemma cross_line_in (i : Z) (x y z : Position) :
  0 <= i < ring_size d -> (extended d || (i mod 2 =? 1)) = true ->
  Permutation (line_members (cross_line i)) [x; y; z] ->
  exists t, In t (iter_lines d) /\ Permutation (line_members t) [x; y; z].
Proof.
  intros Hi He Hp. exists (cross_line i). split; [|exact Hp].
  apply in_iter_lines. right. exists i. auto.
Qed.

(** The ring line anchored at the even index [2 * s], spelled out. *)
Ltac ring_line_tac r s :=
  apply (@ring_line_in r s); [lia | zlia |];
  unfold ring_line, line_members;
  rewrite ?(mod_wrap (n := ring_size d)) by zlia;
  zcases; try zlia; perm3_tac.

Lemma third_ok_line (a b c : Position) :
  valid_pos d a -> valid_pos d b ->
  get_third_in_line d a b = Ok c ->
  exists t, In t (iter_lines d) /\ Permutation (line_members t) [a; b; c].
Proof.
  pose proof ring_size_ge as Hn.
  assert (Hrs : ring_size d = 2 * sides d) by reflexivity.
  destruct a as [r i], b as [r' j]. unfold valid_pos. cbn [ring index].
  intros [Hr Hi] [Hr' Hj].
  unfold get_third_in_line. cbn [ring index].
  destruct (Z.eqb_spec r r') as [<-|Hrr]; destruct (Z.eqb_spec i j) as [<-|Hij];
    cbn [negb andb]; try discriminate.
  - (* same ring *)
    destruct (Z.lt_ge_cases i j) as [Hlt|Hge].
    + rewrite Z.min_l, Z.max_r by lia.
      destruct (Z.gtb_spec (j - i) 2) as [Hw|Hw].
      * zcases; try discriminate; intros HOk; injection HOk as <-;
          rewrite ?(mod_wrap (n := ring_size d)) by lia; zcases; try zlia;
          ring_line_tac r (sides d - 1).
      * zcases; try discriminate; intros HOk; injection HOk as <-;
          rewrite ?(mod_wrap (n := ring_size d)) by lia; zcases; try zlia;
          first [ ring_line_tac r (i / 2) | ring_line_tac r ((i - 1) / 2) ].
    + rewrite Z.min_r, Z.max_l by lia.
      destruct (Z.gtb_spec (i - j) 2) as [Hw|Hw].
      * zcases; try discriminate; intros HOk; injection HOk as <-;
          rewrite ?(mod_wrap (n := ring_size d)) by lia; zcases; try zlia;
          ring_line_tac r (sides d - 1).
      * zcases; try discriminate; intros HOk; injection HOk as <-;
          rewrite ?(mod_wrap (n := ring_size d)) by lia; zcases; try zlia;
          first [ ring_line_tac r (j / 2) | ring_line_tac r ((j - 1) / 2) ].
  - (* same index, across the rings *)
    destruct (extended d || (i mod 2 =? 1)) eqn:He; [|discriminate].
    zcases; try lia; intros HOk; injection HOk as <-;
      (apply (@cross_line_in i); [lia | exact He |]);
      unfold cross_line, line_members; perm3_tac.
Qed.

Lemma iter_lines_valid (t : Position * Position * Position) (p : Position) :
  In t (iter_lines d) -> In p (line_members t) -> valid_pos d p.
Proof.
  pose proof ring_size_ge as Hn.
  assert (Hrs : ring_size d = 2 * sides d) by reflexivity.
  rewrite in_iter_lines.
  intros [(r & s & Hr & Hs & ->)|(i & Hi & He & ->)] Hp;
    cbn [ring_line cross_line line_members In] in Hp;
    destruct Hp as [<-|[<-|[<-|[]]]]; unfold valid_pos; cbn [ring index];
    try lia; split; try lia; apply Z.mod_pos_bound; lia.
Qed.

Lemma third_of_line (t : Position * Position * Position) (a b : Position) :
  In t (iter_lines d) -> In a (line_members t) -> In b (line_members t) ->
  a <> b ->
  exists c, get_third_in_line d a b = Ok c
            /\ Permutation (line_members t) [a; b; c].
Proof.
  intros Ht Ha Hb Hab. apply in_iter_lines in Ht.
  destruct Ht as [(r & s & Hr & Hs & ->)|(i & Hi & He & ->)].
  - pose proof (third_ring_line r Hs) as H3.
    unfold ring_line in *. cbn [line_members In] in Ha, Hb.
    destruct H3 as (H01 & H02 & H12).
    destruct Ha as [<-|[<-|[<-|[]]]]; destruct Hb as [<-|[<-|[<-|[]]]];
      try congruence; cbn [line_members];
      first [ eexists; split; [eassumption|]
            | eexists; split; [rewrite get_third_in_line_sym; eassumption|] ];
      apply perm3; auto 10.
  - pose proof (third_cross_line i He) as (H01 & H02 & H12).
    unfold cross_line in *. cbn [line_members In] in Ha, Hb.
    destruct Ha as [<-|[<-|[<-|[]]]]; destruct Hb as [<-|[<-|[<-|[]]]];
      try congruence; cbn [line_members];
      first [ eexists; split; [eassumption|]
            | eexists; split; [rewrite get_third_in_line_sym; eassumption|] ];
      apply perm3; auto 10.
Qed.

Lemma ring_cases (r : Z) : 0 <= r <= 2 -> r = 0 \/ r = 1 \/ r = 2.
Proof. lia. Qed.

Lemma iter_lines_of_line (p q r : Position) :
  valid_pos d p -> In (q, r) (iter_lines_of d p) ->
  exists t, In t (iter_lines d) /\ Permutation (line_members t) [p; q; r].
Proof.
  pose proof ring_size_ge as Hn.
  assert (Hrs : ring_size d = 2 * sides d) by reflexivity.
  destruct p as [r0 i]. unfold valid_pos, iter_lines_of. cbn [ring index].
  intros [Hr Hi] Hin. apply in_app_or in Hin as [Hin|Hin].
  - destruct (extended d || (i mod 2 =? 1)) eqn:He; [|contradiction].
    destruct Hin as [Hin|[]]. injection Hin as E1 E2; subst q r.
    apply (@cross_line_in i); [lia | exact He |].
    unfold cross_line, line_members.
    destruct (ring_cases Hr) as [-> | [-> | ->]]; apply perm3; cbn; auto 10.
  - destruct (Z.eqb_spec (i mod 2) 1) as [Ho|Ho].
    + destruct Hin as [Hin|[]]. injection Hin as E1 E2; subst q r.
      rewrite ?(mod_wrap (n := ring_size d)) by lia. zcases.
      * ring_line_tac r0 ((i - 1) / 2).
      * ring_line_tac r0 ((i - 1) / 2).
    + destruct Hin as [Hin|[Hin|[]]]; injection Hin as E1 E2; subst q r;
        rewrite ?(mod_wrap (n := ring_size d)) by lia; zcases;
        first [ ring_line_tac r0 (i / 2)
              | ring_line_tac r0 ((i - 2) / 2)
              | ring_line_tac r0 (sides d - 1) ].
Qed.

Lemma line_iter_lines_of (t : Position * Position * Position) (p : Position) :
  In t (iter_lines d) -> In p (line_members t) ->
  exists q r, In (q, r) (iter_lines_of d p)
              /\ Permutation (line_members t) [p; q; r].
Proof.
  pose proof ring_size_ge as Hn.
  assert (Hrs : ring_size d = 2 * sides d) by reflexivity.
  rewrite in_iter_lines.
  intros [(r & s & Hr & Hs & ->)|(i & Hi & He & ->)] Hp.
  - unfold ring_line in *. cbn [line_members In] in Hp.
    destruct Hp as [<-|[<-|[<-|[]]]]; unfold iter_lines_of; cbn [ring index].
    + (* the even anchor: the line after it *)
      exists (Pos r ((s * 2 + 1) mod ring_size d)),
             (Pos r ((s * 2 + 2) mod ring_size d)).
      split.
      * apply in_or_app. right.
        destruct (Z.eqb_spec ((s * 2) mod 2) 1); [zlia|].
        right. left. reflexivity.
      * cbn [line_members]. rewrite (mod_wrap (n := ring_size d) (x := s * 2 + 1)) by lia.
        zcases. apply Permutation_refl.
    + (* the odd middle *)
      exists (Pos r (s * 2 + 1 - 1)), (Pos r ((s * 2 + 1 + 1) mod ring_size d)).
      split.
      * apply in_or_app. right.
        destruct (Z.eqb_spec ((s * 2 + 1) mod 2) 1); [|zlia].
        left. reflexivity.
      * cbn [line_members]. replace (s * 2 + 1 + 1) with (s * 2 + 2) by lia.
        replace (s * 2 + 1 - 1) with (s * 2) by lia.
        apply perm3; auto 10.
    + (* the even end: the line before it *)
      set (m := (s * 2 + 2) mod ring_size d).
      exists (Pos r ((m - 1) mod ring_size d)), (Pos r ((m - 2) mod ring_size d)).
      assert (Hm : m = s * 2 + 2 \/ (m = 0 /\ s * 2 + 2 = ring_size d)).
      { unfold m. rewrite (mod_wrap (n := ring_size d)) by lia. zcases; lia. }
      split.
      * apply in_or_app. right.
        destruct (Z.eqb_spec (m mod 2) 1); [zlia|].
        left. reflexivity.
      * cbn [line_members].
        rewrite !(mod_wrap (n := ring_size d)) by lia.
        zcases; apply perm3; do 5 right; repeat split; f_equal; lia.
  - unfold cross_line in *. cbn [line_members In] in Hp.
    destruct Hp as [<-|[<-|[<-|[]]]]; unfold iter_lines_of; cbn [ring index];
      rewrite He; cbn [app];
      (eexists; eexists; split; [left; reflexivity|]);
      cbn [line_members]; apply perm3; cbn; auto 10.
Qed.

Lemma iter_lines_NoDup (t : Position * Position * Position) :
  In t (iter_lines d) -> NoDup (line_members t).
Proof.
  pose proof ring_size_ge as Hn.
  assert (Hrs : ring_size d = 2 * sides d) by reflexivity.
  rewrite in_iter_lines.
  intros [(r & s & Hr & Hs & ->)|(i & Hi & He & ->)];
    unfold ring_line, cross_line, line_members;
    rewrite ?(mod_wrap (n := ring_size d)) by lia; zcases;
    repeat constructor; cbn [In]; intros HIn;
    repeat (destruct HIn as [HIn|HIn]; [inversion HIn; lia|]); exact HIn.
Qed.

Lemma not_on_line_raises (a b : Position) :
  valid_pos d a -> valid_pos d b -> ~ (a <> b /\ on_line d a b) ->
  get_third_in_line d a b = Raise ValueError.
Proof.
  intros Ha Hb Hno.
  destruct (Position_eq_dec a b) as [->|Hab]; [apply get_third_in_line_same|].
  destruct (get_third_in_line_raises a b) as [[c Hc]|Hr]; [|exact Hr].
  exfalso. apply Hno. split; [exact Hab|].
  destruct (third_ok_line Ha Hb Hc) as (t & Ht & Hp).
  exists t. split; [exact Ht|].
  split; apply (Permutation_in _ (Permutation_sym Hp)); cbn; auto.
Qed.

End Topology.

(** C7: on the triangle and the square board, with or without the extended
    links, [is_linked_to] is symmetric and [neighbors_of p] yields exactly
    the board positions linked to [p]. *)
Theorem neighbors_of_is_linked_to (d : DefaultBoardDesign) (p q : Position)
    (Hsides : sides d = 3 \/ sides d = 4)
    (Hp : valid_pos d p) (Hq : valid_pos d q) :
  is_linked_to d p q = is_linked_to d q p
  /\ (In q (neighbors_of d p) <-> is_linked_to d p q = true)
  /\ (forall q', In q' (neighbors_of d p) -> valid_pos d q').
Proof.
  assert (H3 : 3 <= sides d) by lia.
  split; [apply is_linked_to_sym|].
  split; [apply neighbors_of_linked; assumption|].
  intros q'. apply neighbors_of_valid; assumption.
Qed.

Lemma neighbors_of_is_linked_to_witness :
  let d := Design 4 false in
  is_linked_to d (Pos 1 1) (Pos 0 1) = is_linked_to d (Pos 0 1) (Pos 1 1)
  /\ (In (Pos 0 1) (neighbors_of d (Pos 1 1)) <-> is_linked_to d (Pos 1 1) (Pos 0 1) = true)
  /\ (forall q', In q' (neighbors_of d (Pos 1 1)) -> valid_pos d q').
Proof.
  apply (@neighbors_of_is_linked_to (Design 4 false) (Pos 1 1) (Pos 0 1)).
  - right; reflexivity.
  - unfold valid_pos, ring_size; simpl; lia.
  - unfold valid_pos, ring_size; simpl; lia.
Defined.

(** C8: for two distinct board positions on a valid line [get_third_in_line]
    returns the third position of that line, whichever comes first, and the
    three are a triple of [iter_lines]; every triple of [iter_lines] has three
    different board positions, any two of which give the third; the pairs of
    [iter_lines_of] complete triples of [iter_lines], and every triple is
    found from each of its positions; for positions not on a valid line
    [get_third_in_line] raises [ValueError]. *)
Theorem get_third_in_line_iter_lines (d : DefaultBoardDesign)
    (Hsides : 3 <= sides d) :
  (forall a b, valid_pos d a -> valid_pos d b -> a <> b -> on_line d a b ->
     exists c, get_third_in_line d a b = Ok c
               /\ get_third_in_line d b a = Ok c
               /\ exists t, In t (iter_lines d)
                            /\ Permutation (line_members t) [a; b; c])
  /\ (forall a b, valid_pos d a -> valid_pos d b -> ~ (a <> b /\ on_line d a b) ->
        get_third_in_line d a b = Raise ValueError)
  /\ (forall t, In t (iter_lines d) ->
        NoDup (line_members t)
        /\ (forall p, In p (line_members t) -> valid_pos d p)
        /\ (forall a b, In a (line_members t) -> In b (line_members t) -> a <> b ->
              exists c, get_third_in_line d a b = Ok c
                        /\ Permutation (line_members t) [a; b; c]))
  /\ (forall p q r, valid_pos d p -> In (q, r) (iter_lines_of d p) ->
        exists t, In t (iter_lines d) /\ Permutation (line_members t) [p; q; r])
  /\ (forall t p, In t (iter_lines d) -> In p (line_members t) ->
        exists q r, In (q, r) (iter_lines_of d p)
                    /\ Permutation (line_members t) [p; q; r]).
Proof.
  split; [|split; [|split; [|split]]].
  - intros a b Ha Hb Hab (t & Ht & Hat & Hbt).
    destruct (@third_of_line d Hsides t a b Ht Hat Hbt Hab) as (c & Hc & Hp).
    exists c. split; [exact Hc|]. split.
    + rewrite get_third_in_line_sym. exact Hc.
    + exists t. auto.
  - intros a b. apply (@not_on_line_raises d Hsides).
  - intros t Ht. split; [|split].
    + apply (@iter_lines_NoDup d Hsides); assumption.
    + intros p. apply (@iter_lines_valid d Hsides); assumption.
    + intros a b. apply (@third_of_line d Hsides); assumption.
  - intros p q r. apply (@iter_lines_of_line d Hsides).
  - intros t p. apply (@line_iter_lines_of d Hsides).
Qed.

Lemma get_third_in_line_iter_lines_witness :
  3 <= sides (Design 4 false)
  /\ exists c, get_third_in_line (Design 4 false) (Pos 0 7) (Pos 0 0) = Ok c.
Proof.
  assert (H4 : 3 <= sides (Design 4 false)) by (simpl; lia).
  split; [exact H4|].
  destruct (@get_third_in_line_iter_lines (Design 4 false) H4) as (H1 & _).
  destruct (H1 (Pos 0 7) (Pos 0 0)) as (c & Hc & _).
  - unfold valid_pos, ring_size; simpl; lia.
  - unfold valid_pos, ring_size; simpl; lia.
  - discriminate.
  - exists (Pos 0 6, Pos 0 7, Pos 0 0). simpl. tauto.
  - exists c. exact Hc.
Defined.



(* ================================================================== *)
(** ** Lists and dicts *)

Lemma list_get_Ok (A : Type) (l : list A) (i : nat) (x : A) :
  list_get l i = Ok x -> (i < length l)%nat.
Proof.
  unfold list_get. destruct (nth_error l i) eqn:E; [|discriminate].
  intros _. apply nth_error_Some. congruence.
Qed.

Lemma list_get_lt (A : Type) (l : list A) (i : nat) :
  (i < length l)%nat -> exists x, list_get l i = Ok x.
Proof.
  intros H. unfold list_get. destruct (nth_error l i) eqn:E; [eauto|].
  apply nth_error_None in E. lia.
Qed.

Lemma length_list_set (A : Type) (l : list A) (i : nat) (x : A) :
  length (list_set l i x) = length l.
Proof.
  revert i. induction l as [|y l IH]; intros [|i]; simpl; auto.
Qed.

Lemma list_get_set_eq (A : Type) (l : list A) (i : nat) (x : A) :
  (i < length l)%nat -> list_get (list_set l i x) i = Ok x.
Proof.
  unfold list_get. revert i. induction l as [|y l IH]; intros [|i] H; simpl in *;
    try lia; auto. apply IH. lia.
Qed.

Lemma list_get_set_neq (A : Type) (l : list A) (i j : nat) (x : A) :
  i <> j -> list_get (list_set l i x) j = list_get l j.
Proof.
  unfold list_get. revert i j. induction l as [|y l IH]; intros [|i] [|j] H; simpl;
    try congruence; auto.
Qed.

Section DictFacts.
Variables (K V : Type) (eqb : K -> K -> bool).
Hypothesis eqb_eq : forall a b, eqb a b = true <-> a = b.

Lemma dict_get_In (d : dict K V) (k : K) (v : V) :
  dict_get eqb d k = Some v -> In (k, v) d.
Proof.
  induction d as [|[k' v'] d IH]; simpl; [discriminate|].
  destruct (eqb k' k) eqn:E.
  - apply eqb_eq in E. intros H. inversion H; subst. auto.
  - auto.
Qed.

Lemma dict_get_None (d : dict K V) (k : K) :
  dict_get eqb d k = None <-> ~ In k (dict_keys d).
Proof.
  induction d as [|[k' v'] d IH]; simpl; [tauto|].
  destruct (eqb k' k) eqn:E.
  - apply eqb_eq in E. split; [discriminate|]. intros H. exfalso. auto.
  - rewrite IH. split; [|tauto]. intros H [H'|H']; [|tauto].
    apply eqb_eq in H'. congruence.
Qed.

Lemma dict_mem_In (d : dict K V) (k : K) :
  dict_mem eqb d k = true <-> In k (dict_keys d).
Proof.
  unfold dict_mem. destruct (dict_get eqb d k) eqn:E.
  - split; [intros _|reflexivity].
    apply dict_get_In in E. apply in_map_iff. exists (k, v). auto.
  - apply dict_get_None in E. split; [discriminate|tauto].
Qed.

Lemma dict_mem_false (d : dict K V) (k : K) :
  dict_mem eqb d k = false <-> ~ In k (dict_keys d).
Proof.
  rewrite <- dict_mem_In. destruct (dict_mem eqb d k); split; congruence.
Qed.

Lemma dict_get_NoDup (d : dict K V) (k : K) (v : V) :
  NoDup (dict_keys d) -> In (k, v) d -> dict_get eqb d k = Some v.
Proof.
  induction d as [|[k' v'] d IH]; simpl; [tauto|].
  intros Hnd [H|H].
  - inversion H; subst. rewrite (proj2 (eqb_eq k k) eq_refl). reflexivity.
  - inversion Hnd; subst. destruct (eqb k' k) eqn:E.
    + apply eqb_eq in E. subst. exfalso. apply H2.
      apply in_map_iff. exists (k, v). auto.
    + auto.
Qed.

Lemma dict_set_fresh (d : dict K V) (k : K) (v : V) :
  dict_get eqb d k = None -> dict_set eqb d k v = d ++ [(k, v)].
Proof.
  induction d as [|[k' v'] d IH]; simpl; [reflexivity|].
  destruct (eqb k' k); [discriminate|]. intros H. rewrite IH; auto.
Qed.

Lemma dict_keys_del (d : dict K V) (k k' : K) :
  In k' (dict_keys (dict_del eqb d k)) -> In k' (dict_keys d).
Proof.
  induction d as [|[k0 v0] d IH]; simpl; [tauto|].
  destruct (eqb k0 k); simpl; tauto.
Qed.

Lemma dict_del_In (d : dict K V) (k : K) (e : K * V) :
  In e (dict_del eqb d k) -> In e d.
Proof.
  induction d as [|[k0 v0] d IH]; simpl; [tauto|].
  destruct (eqb k0 k); simpl; tauto.
Qed.

Lemma dict_del_NoDup (d : dict K V) (k : K) :
  NoDup (dict_keys d) -> NoDup (dict_keys (dict_del eqb d k)).
Proof.
  induction d as [|[k0 v0] d IH]; simpl; [auto|].
  intros H. inversion H; subst. destruct (eqb k0 k); [assumption|].
  simpl. constructor; [|auto]. intros Hin. apply H2.
  eapply dict_keys_del; eauto.
Qed.

Lemma dict_del_other (d : dict K V) (k k' : K) :
  k <> k' -> dict_get eqb (dict_del eqb d k) k' = dict_get eqb d k'.
Proof.
  intros Hne. induction d as [|[k0 v0] d IH]; simpl; [reflexivity|].
  destruct (eqb k0 k) eqn:E.
  - apply eqb_eq in E. subst. destruct (eqb k k') eqn:E'; [|reflexivity].
    apply eqb_eq in E'. congruence.
  - simpl. rewrite IH. reflexivity.
Qed.

Lemma dict_del_same (d : dict K V) (k : K) :
  NoDup (dict_keys d) -> dict_get eqb (dict_del eqb d k) k = None.
Proof.
  induction d as [|[k0 v0] d IH]; simpl; [reflexivity|].
  intros H. inversion H; subst. destruct (eqb k0 k) eqn:E.
  - apply eqb_eq in E. subst. apply dict_get_None. assumption.
  - simpl. rewrite E. auto.
Qed.

Lemma dict_del_In_other (d : dict K V) (k : K) (e : K * V) :
  In e d -> fst e <> k -> In e (dict_del eqb d k).
Proof.
  induction d as [|[k0 v0] d IH]; simpl; [tauto|].
  intros [H|H] Hne.
  - subst e. simpl in Hne. destruct (eqb k0 k) eqn:E.
    + apply eqb_eq in E. congruence.
    + left; reflexivity.
  - destruct (eqb k0 k); [assumption|]. right; auto.
Qed.

(** Counting the items that pass a test, across [pop]. *)
Lemma filter_dict_del (f : K * V -> bool) (d : dict K V) (k : K) (v : V) :
  (forall k1 k2 v', f (k1, v') = f (k2, v')) ->
  dict_get eqb d k = Some v ->
  length (filter f d)
  = (length (filter f (dict_del eqb d k)) + (if f (k, v) then 1 else 0))%nat.
Proof.
  intros Hf. induction d as [|[k0 v0] d IH]; simpl; [discriminate|].
  destruct (eqb k0 k) eqn:E.
  - intros H. inversion H; subst. rewrite (Hf k0 k v).
    destruct (f (k, v)); simpl; lia.
  - intros H. simpl. destruct (f (k0, v0)); simpl; rewrite (IH H); lia.
Qed.
End DictFacts.

Unset Implicit Arguments.

Lemma Z_eqb_iff (a b : Z) : Z.eqb a b = true <-> a = b.
Proof. apply Z.eqb_eq. Qed.

(** *** Python indices *)

Lemma py_index_lt (n : nat) (i : Z) (k : nat) :
  py_index n i = Some k -> (k < n)%nat.
Proof.
  unfold py_index. destruct (i <? 0) eqn:Ei.
  - destruct ((0 <=? i + Z.of_nat n) && (i + Z.of_nat n <? Z.of_nat n)) eqn:E;
      [|discriminate].
    intros H. injection H as <-. apply andb_prop in E. lia.
  - destruct ((0 <=? i) && (i <? Z.of_nat n)) eqn:E; [|discriminate].
    intros H. injection H as <-. apply andb_prop in E. lia.
Qed.

Lemma py_index_nonneg (n : nat) (i : Z) :
  0 <= i < Z.of_nat n -> py_index n i = Some (Z.to_nat i).
Proof.
  intros H. unfold py_index.
  replace (i <? 0) with false by lia.
  replace ((0 <=? i) && (i <? Z.of_nat n)) with true by lia. reflexivity.
Qed.

Lemma py_index_inj (n : nat) (i j : Z) (k : nat) :
  0 <= i < Z.of_nat n -> 0 <= j < Z.of_nat n ->
  py_index n i = Some k -> py_index n j = Some k -> i = j.
Proof.
  intros Hi Hj. rewrite !py_index_nonneg by assumption.
  intros H1 H2. injection H1 as <-. injection H2 as H2. lia.
Qed.

Lemma list_getitem_nonneg (A : Type) (l : list A) (i : Z) :
  0 <= i < Z.of_nat (length l) -> list_getitem l i = list_get l (Z.to_nat i).
Proof. intros H. unfold list_getitem. rewrite py_index_nonneg by exact H. reflexivity. Qed.

Lemma list_setitem_nonneg (A : Type) (l : list A) (i : Z) (x : A) :
  0 <= i < Z.of_nat (length l) ->
  list_setitem l i x = Ok (list_set l (Z.to_nat i) x).
Proof. intros H. unfold list_setitem. rewrite py_index_nonneg by exact H. reflexivity. Qed.

Lemma list_getitem_lt (A : Type) (l : list A) (i : Z) :
  0 <= i < Z.of_nat (length l) -> exists x, list_getitem l i = Ok x.
Proof.
  intros H. rewrite list_getitem_nonneg by exact H. apply list_get_lt. lia.
Qed.

(* ================================================================== *)
(** ** The piece counters of the board *)

Ltac unfold_m :=
  unfold bind, get_self, set_self, assert, ret, raise, lift,
    set_fields, set_count in *.

(** What a [place] that returned has done. *)
Lemma place_inv (pos : Position) (piece : Piece) (b b' : GameBoard) :
  place pos piece b = (Ok tt, b') ->
  exists k c, dict_get Position_eqb (fields b) pos = None
              /\ py_index (length (_count b)) (playerID piece) = Some k
              /\ list_get (_count b) k = Ok c
              /\ b' = mkGameBoard (design b) (fields b ++ [(pos, piece)])
                                  (list_set (_count b) k (c + 1)).
Proof.
  unfold place. unfold_m.
  destruct (dict_mem Position_eqb (fields b) pos) eqn:Hmem; cbn; [discriminate|].
  unfold list_getitem, list_setitem.
  destruct (py_index (length (_count b)) (playerID piece)) as [k|] eqn:Hk;
    [|discriminate].
  destruct (list_get (_count b) k) as [c|e] eqn:Hc; [|discriminate].
  cbn. intros H. injection H as <-. exists k, c.
  assert (Hnone : dict_get Position_eqb (fields b) pos = None).
  { unfold dict_mem in Hmem. destruct (dict_get _ _ _); congruence. }
  split; [exact Hnone|]. split; [reflexivity|]. split; [exact Hc|].
  rewrite (@dict_set_fresh _ _ Position_eqb (fields b) pos piece Hnone).
  reflexivity.
Qed.

(** What a [jump] that returned has done. *)
Lemma jump_inv (start end_ : Position) (b b' : GameBoard) :
  jump start end_ b = (Ok tt, b') ->
  exists piece, dict_get Position_eqb (fields b) end_ = None
                /\ dict_get Position_eqb (fields b) start = Some piece
                /\ b' = mkGameBoard (design b)
                          (dict_set Position_eqb
                             (dict_del Position_eqb (fields b) start) end_ piece)
                          (_count b).
Proof.
  unfold jump. unfold_m.
  destruct (dict_mem Position_eqb (fields b) end_) eqn:Hmem; cbn; [discriminate|].
  destruct (dict_get Position_eqb (fields b) start) as [piece|] eqn:Hget;
    [|discriminate].
  intros H. injection H as <-. exists piece.
  unfold dict_mem in Hmem. destruct (dict_get Position_eqb (fields b) end_);
    [discriminate|]. auto.
Qed.

(** What a [remove] that returned has done. *)
Lemma remove_inv (pos : Position) (r : option Piece) (b b' : GameBoard) :
  remove pos b = (Ok r, b') ->
  r = dict_get Position_eqb (fields b) pos
  /\ match r with
     | None => b' = b
     | Some piece =>
         exists k c, py_index (length (_count b)) (playerID piece) = Some k
                     /\ list_get (_count b) k = Ok c
                     /\ b' = mkGameBoard (design b)
                               (dict_del Position_eqb (fields b) pos)
                               (list_set (_count b) k (c - 1))
     end.
Proof.
  unfold remove. unfold_m.
  destruct (dict_get Position_eqb (fields b) pos) as [piece|] eqn:Hget; cbn.
  - unfold list_getitem, list_setitem.
    destruct (py_index (length (_count b)) (playerID piece)) as [k|] eqn:Hk;
      [|discriminate].
    destruct (list_get (_count b) k) as [c|e] eqn:Hc; [|discriminate].
    cbn. intros H. injection H as <- <-. split; [reflexivity|].
    exists k, c. auto.
  - intros H. injection H as <- <-. auto.
Qed.

Lemma counts_ok_init (d : DefaultBoardDesign) : counts_ok (GameBoard_init d).
Proof.
  split; [intros e []|].
  intros p Hp. cbn in Hp. unfold count, live_count. cbn.
  assert (p = 0 \/ p = 1) as [-> | ->] by lia; reflexivity.
Qed.

Lemma length_iter_pieces_app (d : DefaultBoardDesign) (c : list Z) (f : Fields)
    (pos : Position) (piece : Piece) (p : PlayerID) :
  length (iter_pieces (mkGameBoard d (f ++ [(pos, piece)]) c) p)
  = (length (filter (fun e => Z.eqb (playerID (snd e)) p) f)
     + (if Z.eqb (playerID piece) p then 1 else 0))%nat.
Proof.
  unfold iter_pieces. simpl. rewrite filter_app, length_app. simpl.
  destruct (playerID piece =? p); reflexivity.
Qed.

(** The counter at place [k] after it has gone from [c] to [c'], read
    through the index of a player. *)
Lemma count_after_set (l : list Z) (i p : Z) (k : nat) (c' : Z) :
  0 <= i < Z.of_nat (length l) -> 0 <= p < Z.of_nat (length l) ->
  py_index (length l) i = Some k ->
  list_getitem (list_set l k c') p
  = if i =? p then Ok c' else list_getitem l p.
Proof.
  intros Hi Hp Hk. rewrite py_index_nonneg in Hk by exact Hi. injection Hk as <-.
  rewrite !list_getitem_nonneg by (rewrite ?length_list_set; exact Hp).
  destruct (Z.eqb_spec i p) as [->|Hne].
  - apply list_get_set_eq. lia.
  - apply list_get_set_neq. lia.
Qed.

Lemma place_counts_ok (pos : Position) (piece : Piece) (b b' : GameBoard) :
  place pos piece b = (Ok tt, b') ->
  0 <= playerID piece < Z.of_nat (length (_count b)) ->
  counts_ok b -> counts_ok b' /\ length (_count b') = length (_count b).
Proof.
  intros Hplace Hpiece [Hin Hok].
  destruct (place_inv pos piece b b' Hplace) as (k & c & Hnone & Hk & Hc & ->).
  unfold counts_ok. cbn [_count fields]. rewrite !length_list_set.
  split; [|reflexivity]. split.
  - intros e He. apply in_app_or in He. destruct He as [He|[<-|[]]]; auto.
  - intros p Hp. unfold count. cbn [_count].
    rewrite (count_after_set _ (playerID piece) p k _ Hpiece Hp Hk).
    unfold live_count. rewrite length_iter_pieces_app.
    pose proof (Hok p Hp) as Hp'. unfold count, live_count, iter_pieces in Hp'.
    destruct (Z.eqb_spec (playerID piece) p) as [E|Hne].
    + subst p. rewrite list_getitem_nonneg in Hp' by exact Hp.
      rewrite py_index_nonneg in Hk by exact Hpiece. injection Hk as <-.
      rewrite Hc in Hp'. injection Hp' as ->. f_equal. lia.
    + rewrite Hp'. f_equal. lia.
Qed.

Lemma jump_counts_ok (start end_ : Position) (b b' : GameBoard) :
  jump start end_ b = (Ok tt, b') ->
  counts_ok b -> counts_ok b' /\ length (_count b') = length (_count b).
Proof.
  intros Hjump [Hin Hok].
  destruct (jump_inv start end_ b b' Hjump) as (piece & Hnone & Hget & ->).
  unfold counts_ok. cbn [_count fields]. split; [|reflexivity].
  assert (Hnone' : dict_get Position_eqb (dict_del Position_eqb (fields b) start) end_
                   = None).
  { apply (dict_get_None Position_eqb Position_eqb_eq). intros Hi.
    apply dict_keys_del in Hi.
    apply (dict_get_None Position_eqb Position_eqb_eq) in Hnone. auto. }
  rewrite (@dict_set_fresh _ _ Position_eqb _ end_ piece Hnone').
  split.
  - intros e He. apply in_app_or in He. destruct He as [He|[<-|[]]].
    + apply Hin. eapply dict_del_In. exact He.
    + apply (Hin (start, piece)).
      apply (dict_get_In Position_eqb Position_eqb_eq). exact Hget.
  - intros p Hp. unfold count, live_count. cbn [_count].
    rewrite length_iter_pieces_app.
    pose proof (Hok p Hp) as Hp'. unfold count, live_count, iter_pieces in Hp'.
    rewrite Hp'. f_equal. f_equal.
    rewrite (@filter_dict_del _ _ Position_eqb
               (fun e => (playerID (snd e) =? p)) (fields b) start piece
               (fun _ _ _ => eq_refl) Hget).
    reflexivity.
Qed.


Lemma remove_counts_ok (pos : Position) (r : option Piece) (b b' : GameBoard) :
  remove pos b = (Ok r, b') ->
  counts_ok b -> counts_ok b' /\ length (_count b') = length (_count b).
Proof.
  intros Hrem [Hin Hok].
  destruct (remove_inv pos r b b' Hrem) as [-> Hb'].
  destruct (dict_get Position_eqb (fields b) pos) as [piece|] eqn:Hget.
  - destruct Hb' as (k & c & Hk & Hc & ->).
    unfold counts_ok. cbn [_count fields]. rewrite !length_list_set.
    split; [|reflexivity].
    assert (Hpiece : 0 <= playerID piece < Z.of_nat (length (_count b))).
    { apply (Hin (pos, piece)).
      apply (dict_get_In Position_eqb Position_eqb_eq). exact Hget. }
    split.
    + intros e He. apply Hin. eapply dict_del_In. exact He.
    + intros p Hp. unfold count. cbn [_count].
      rewrite (count_after_set _ (playerID piece) p k _ Hpiece Hp Hk).
      unfold live_count, iter_pieces. cbn [fields].
      pose proof (Hok p Hp) as Hp'. unfold count, live_count, iter_pieces in Hp'.
      pose proof (@filter_dict_del _ _ Position_eqb
                    (fun e => (playerID (snd e) =? p)) (fields b) pos
                    piece (fun _ _ _ => eq_refl) Hget) as Hlen.
      cbn [snd] in Hlen.
      destruct (Z.eqb_spec (playerID piece) p) as [E|Hne].
      * subst p. rewrite list_getitem_nonneg in Hp' by exact Hp.
        rewrite py_index_nonneg in Hk by exact Hpiece. injection Hk as <-.
        rewrite Hc in Hp'. injection Hp' as ->. f_equal. lia.
      * rewrite Hp'. f_equal. lia.
  - subst b'. split; [split; assumption|reflexivity].
Qed.





(** C5, as the claim has it, fails: [place] takes a piece of any player id,
    and the id [-1] indexes the counter of player [1].  After the one
    successful call [place(0:0, Piece(-1))] on a new board, [count(1)] is
    [1] and no position holds a piece of player [1]. *)
Lemma negative_player_id_counterexample :
  let b := snd (run_ops [OpPlace (Pos 0 0) (mkPiece (-1))]
                        (GameBoard_init (Design 4 false))) in
  run_ops [OpPlace (Pos 0 0) (mkPiece (-1))] (GameBoard_init (Design 4 false))
  = (Ok tt, b)
  /\ count b 1 = Ok 1
  /\ live_count b 1 = 0
  /\ count b 1 <> Ok (live_count b 1).
Proof.
  cbv zeta. split; [reflexivity|]. split; [reflexivity|].
  split; [reflexivity|]. discriminate.
Qed.


Unset Implicit Arguments.

(* ================================================================== *)
(** ** Combinations *)

Lemma combinations_O (A : Type) (l : list A) : combinations l 0 = [[]].
Proof. destruct l; reflexivity. Qed.

Lemma combinations_length (A : Type) (l c : list A) (r : nat) :
  In c (combinations l r) -> length c = r.
Proof.
  revert c r. induction l as [|x l IH]; intros c [|r] H; simpl in H.
  - destruct H as [<-|[]]. reflexivity.
  - contradiction.
  - destruct H as [<-|[]]. reflexivity.
  - apply in_app_or in H as [H|H].
    + apply in_map_iff in H as (c' & <- & Hc'). simpl. f_equal. auto.
    + auto.
Qed.

Lemma combinations_incl (A : Type) (l c : list A) (r : nat) :
  In c (combinations l r) -> incl c l.
Proof.
  revert c r. induction l as [|x l IH]; intros c [|r] H; simpl in H.
  - destruct H as [<-|[]]. apply incl_nil_l.
  - contradiction.
  - destruct H as [<-|[]]. apply incl_nil_l.
  - apply in_app_or in H as [H|H].
    + apply in_map_iff in H as (c' & <- & Hc').
      apply incl_cons; [left; reflexivity|]. apply incl_tl. eauto.
    + apply incl_tl. eauto.
Qed.

Lemma combinations_NoDup_map (A B : Type) (f : A -> B) (l c : list A) (r : nat) :
  NoDup (map f l) -> In c (combinations l r) -> NoDup (map f c).
Proof.
  revert c r. induction l as [|x l IH]; intros c [|r] Hnd H; simpl in H.
  - destruct H as [<-|[]]. constructor.
  - contradiction.
  - destruct H as [<-|[]]. constructor.
  - simpl in Hnd. apply NoDup_cons_iff in Hnd as [Hx Hnd].
    apply in_app_or in H as [H|H].
    + apply in_map_iff in H as (c' & <- & Hc'). simpl. constructor.
      * intros Hin. apply Hx. apply in_map_iff in Hin as (y & Hy & Hyc).
        apply in_map_iff. exists y. split; [assumption|].
        eapply combinations_incl; eauto.
      * eauto.
    + eauto.
Qed.

Lemma combinations_count (A : Type) (l : list A) (r : nat) :
  length (combinations l r) = binomial (length l) r.
Proof.
  revert r. induction l as [|x l IH]; intros [|r]; simpl; try reflexivity.
  rewrite length_app, length_map, !IH. reflexivity.
Qed.

(** Two combinations with the same keys are the same, in a pool whose keys
    are all different. *)
Lemma combinations_map_inj (A B : Type) (f : A -> B) (l c c' : list A) (r : nat) :
  NoDup (map f l) ->
  In c (combinations l r) -> In c' (combinations l r) ->
  map f c = map f c' -> c = c'.
Proof.
  revert c c' r. induction l as [|x l IH]; intros c c' [|r] Hnd Hc Hc' Heq;
    simpl in Hc, Hc'.
  - destruct Hc as [<-|[]], Hc' as [<-|[]]. reflexivity.
  - contradiction.
  - destruct Hc as [<-|[]], Hc' as [<-|[]]. reflexivity.
  - simpl in Hnd. apply NoDup_cons_iff in Hnd as [Hx Hnd].
    assert (Hnot : forall c0 r0, In c0 (combinations l r0) -> ~ In (f x) (map f c0)).
    { intros c0 r0 Hc0 Hin. apply Hx. apply in_map_iff in Hin as (y & Hy & Hyc).
      apply in_map_iff. exists y. split; [assumption|].
      eapply combinations_incl; eauto. }
    apply in_app_or in Hc as [Hc|Hc]; apply in_app_or in Hc' as [Hc'|Hc'].
    + apply in_map_iff in Hc as (c1 & <- & Hc1).
      apply in_map_iff in Hc' as (c2 & <- & Hc2).
      simpl in Heq. injection Heq as Heq. f_equal. eauto.
    + apply in_map_iff in Hc as (c1 & <- & Hc1). exfalso.
      apply (Hnot c' (S r) Hc'). rewrite <- Heq. simpl. auto.
    + apply in_map_iff in Hc' as (c2 & <- & Hc2). exfalso.
      apply (Hnot c (S r) Hc). rewrite Heq. simpl. auto.
    + eauto.
Qed.

Lemma combinations_NoDup (A B : Type) (f : A -> B) (l : list A) (r : nat) :
  NoDup (map f l) -> NoDup (map (map f) (combinations l r)).
Proof.
  revert r. induction l as [|x l IH]; intros [|r] Hnd; simpl.
  - repeat constructor; auto.
  - constructor.
  - repeat constructor; auto.
  - simpl in Hnd. apply NoDup_cons_iff in Hnd as [Hx Hnd].
    rewrite map_app, map_map. simpl.
    apply NoDup_app.
    + rewrite <- (map_map (map f) (cons (f x))).
      apply Injective_map_NoDup; [|auto].
      intros a b H. injection H. auto.
    + auto.
    + intros c Hc Hc'.
      apply in_map_iff in Hc as (c1 & <- & Hc1).
      apply in_map_iff in Hc' as (c2 & Heq & Hc2).
      apply Hx. apply (f_equal (fun l0 => In (f x) l0)) in Heq.
      assert (Hin : In (f x) (map f c2)) by (rewrite Heq; simpl; auto).
      apply in_map_iff in Hin as (y & Hy & Hyc).
      apply in_map_iff. exists y. split; [assumption|].
      eapply combinations_incl; eauto.
Qed.

Lemma NoDup_map_filter (A B : Type) (f : A -> B) (g : A -> bool) (l : list A) :
  NoDup (map f l) -> NoDup (map f (filter g l)).
Proof.
  induction l as [|x l IH]; simpl; [auto|].
  intros H. apply NoDup_cons_iff in H as [Hx H]. destruct (g x); simpl; [|auto].
  constructor; [|auto]. intros Hin. apply Hx.
  apply in_map_iff in Hin as (y & Hy & Hyf). apply filter_In in Hyf as [Hyl _].
  apply in_map_iff. eauto.
Qed.

(* ================================================================== *)
(** ** Running the board methods *)

Lemma bind_Ok (S A B : Type) (m : M S A) (k : A -> M S B) (s s' : S) (a : A) :
  m s = (Ok a, s') -> bind m k s = k a s'.
Proof. unfold bind. intros ->. reflexivity. Qed.


Lemma dict_get_app_Some (K V : Type) (eqb : K -> K -> bool) (d d' : dict K V)
    (k : K) (v : V) :
  dict_get eqb d k = Some v -> dict_get eqb (d ++ d') k = Some v.
Proof.
  induction d as [|[k0 v0] d IH]; simpl; [discriminate|].
  destruct (eqb k0 k); auto.
Qed.

Lemma place_Ok (pos : Position) (piece : Piece) (b : GameBoard) (c : Z) :
  dict_mem Position_eqb (fields b) pos = false ->
  0 <= playerID piece < Z.of_nat (length (_count b)) ->
  list_getitem (_count b) (playerID piece) = Ok c ->
  place pos piece b
  = (Ok tt, mkGameBoard (design b) (fields b ++ [(pos, piece)])
                        (list_set (_count b) (Z.to_nat (playerID piece)) (c + 1))).
Proof.
  intros Hmem Hp Hc. unfold place. unfold_m. rewrite Hmem. simpl. rewrite Hc.
  rewrite (list_setitem_nonneg _ _ _ _ Hp).
  assert (Hnone : dict_get Position_eqb (fields b) pos = None).
  { unfold dict_mem in Hmem. destruct (dict_get _ _ _); congruence. }
  rewrite (@dict_set_fresh _ _ _ _ _ piece Hnone). reflexivity.
Qed.

Lemma jump_Ok (start end_ : Position) (piece : Piece) (b : GameBoard) :
  dict_mem Position_eqb (fields b) end_ = false ->
  dict_get Position_eqb (fields b) start = Some piece ->
  jump start end_ b
  = (Ok tt, mkGameBoard (design b)
                        (dict_del Position_eqb (fields b) start ++ [(end_, piece)])
                        (_count b)).
Proof.
  intros Hmem Hget. unfold jump. unfold_m. rewrite Hmem. simpl. rewrite Hget.
  assert (Hnone : dict_get Position_eqb (dict_del Position_eqb (fields b) start) end_
                  = None).
  { apply (dict_get_None Position_eqb Position_eqb_eq). intros Hin.
    apply dict_keys_del in Hin.
    apply (dict_mem_false Position_eqb Position_eqb_eq) in Hmem. auto. }
  rewrite (@dict_set_fresh _ _ _ _ _ piece Hnone). reflexivity.
Qed.

Lemma move_Ok (start end_ : Position) (b : GameBoard) :
  is_linked_to (design b) start end_ = true ->
  move start end_ b = jump start end_ b.
Proof.
  intros H. unfold move. unfold bind at 1. unfold get_self at 1.
  unfold bind at 1. unfold assert. rewrite H. reflexivity.
Qed.

Lemma remove_Ok (pos : Position) (piece : Piece) (b : GameBoard) (c : Z) :
  dict_get Position_eqb (fields b) pos = Some piece ->
  0 <= playerID piece < Z.of_nat (length (_count b)) ->
  list_getitem (_count b) (playerID piece) = Ok c ->
  remove pos b
  = (Ok (Some piece),
     mkGameBoard (design b) (dict_del Position_eqb (fields b) pos)
                 (list_set (_count b) (Z.to_nat (playerID piece)) (c - 1))).
Proof.
  intros Hget Hp Hc. unfold remove. unfold_m. rewrite Hget. simpl. rewrite Hc.
  rewrite (list_setitem_nonneg _ _ _ _ Hp). reflexivity.
Qed.

Lemma execute_attack_Ok (pid : PlayerID) (y : Position) (s : GameState) :
  attackable pid (board s) y ->
  exists b', execute_attack pid y s = (Ok tt, set_board b' s)
             /\ design b' = design (board s)
             /\ fields b' = dict_del Position_eqb (fields (board s)) y
             /\ length (_count b') = length (_count (board s)).
Proof.
  intros (piece & Hget & Hne & Hlt).
  destruct (list_getitem_lt _ (_count (board s)) (playerID piece) Hlt) as [c Hc].
  unfold get in Hget.
  eexists. split; [|split; [|split]].
  - unfold execute_attack.
    erewrite bind_Ok.
    2:{ unfold on_board. rewrite (@remove_Ok y piece (board s) c Hget Hlt Hc).
        reflexivity. }
    unfold assert. destruct (Z.eqb_spec (playerID piece) pid); [contradiction|].
    reflexivity.
  - reflexivity.
  - reflexivity.
  - simpl. apply length_list_set.
Qed.

Lemma attack_loop_Ok (pid : PlayerID) (l : list Position) (s : GameState) :
  NoDup l ->
  (forall y, In y l -> attackable pid (board s) y) ->
  exists b', for_each l (execute_attack pid) s = (Ok tt, set_board b' s)
             /\ design b' = design (board s)
             /\ length (_count b') = length (_count (board s))
             /\ (forall e, In e (fields b') -> In e (fields (board s))).
Proof.
  revert s. induction l as [|y l IH]; intros s Hnd Hall.
  - exists (board s). simpl. unfold ret. destruct s as [pl t b mx fr]; simpl.
    destruct b; auto.
  - apply NoDup_cons_iff in Hnd as [Hy Hnd].
    destruct (@execute_attack_Ok pid y s (Hall y (or_introl eq_refl)))
      as (b1 & Hrun & Hd1 & Hf1 & Hl1).
    destruct (IH (set_board b1 s) Hnd) as (b2 & Hrun2 & Hd2 & Hl2 & Hf2).
    + intros y' Hy'. destruct (Hall y' (or_intror Hy')) as (piece & Hget & Hne & Hlt).
      exists piece. simpl. split; [|split; [assumption|congruence]].
      unfold get in *. simpl. rewrite Hf1.
      rewrite (dict_del_other Position_eqb Position_eqb_eq); [assumption|].
      intros ->. contradiction.
    + exists b2. simpl. rewrite (@bind_Ok _ _ _ _ _ _ _ _ Hrun). rewrite Hrun2.
      split; [destruct s; reflexivity|].
      simpl in *. split; [congruence|]. split; [congruence|].
      intros e He. apply Hf2 in He. rewrite Hf1 in He.
      eapply dict_del_In; eauto.
Qed.

(* ================================================================== *)
(** ** The enumerated actions *)

Lemma other_lt (p : PlayerID) : 0 <= other p < 2.
Proof. unfold other. apply Z.mod_pos_bound. lia. Qed.

Lemma other_neq (p : PlayerID) : other p <> p.
Proof.
  pose proof (other_lt p) as Hlt. unfold other in *. intros E.
  assert (p = 0 \/ p = 1) as [-> | ->] by lia; discriminate.
Qed.

(** *** The read of [placed_items] *)

Lemma read_placed_eq (p : PlayerID) (s : GameState) :
  read_placed p s
  = mkGameState (match dict_get Z.eqb (placed_items s) p with
                 | Some _ => placed_items s
                 | None => dict_set Z.eqb (placed_items s) p 0
                 end)
                (player_turn s) (board s) (max_placed_items s) (frozen s).
Proof.
  unfold read_placed, placed_items_getitem, bind, get_self, set_placed_items, ret.
  destruct (dict_get Z.eqb (placed_items s) p); destruct s; reflexivity.
Qed.

Lemma placed_items_getitem_eq (p : PlayerID) (s : GameState) :
  placed_items_getitem p s = (Ok (placed s p), read_placed p s).
Proof.
  unfold read_placed, placed_items_getitem, bind, get_self, set_placed_items, ret,
    placed.
  destruct (dict_get Z.eqb (placed_items s) p); reflexivity.
Qed.

Lemma dict_get_set_Z (d : dict Z Z) (k k' v : Z) :
  dict_get Z.eqb (dict_set Z.eqb d k v) k'
  = if k =? k' then Some v else dict_get Z.eqb d k'.
Proof.
  induction d as [|[k0 v0] d IH]; cbn.
  - reflexivity.
  - destruct (Z.eqb_spec k0 k) as [->|Hne]; cbn.
    + destruct (Z.eqb_spec k k'); reflexivity.
    + rewrite IH. destruct (Z.eqb_spec k0 k') as [->|Hne'].
      * destruct (Z.eqb_spec k k'); [congruence|reflexivity].
      * reflexivity.
Qed.

Lemma placed_read_placed (p q : PlayerID) (s : GameState) :
  placed (read_placed p s) q = placed s q.
Proof.
  rewrite read_placed_eq. unfold placed. cbn [placed_items].
  destruct (dict_get Z.eqb (placed_items s) p) eqn:E; [reflexivity|].
  rewrite dict_get_set_Z. destruct (Z.eqb_spec p q) as [->|Hne]; [|reflexivity].
  rewrite E. reflexivity.
Qed.

Lemma dict_get_read_placed (p : PlayerID) (s : GameState) :
  dict_get Z.eqb (placed_items (read_placed p s)) p = Some (placed s p).
Proof.
  rewrite read_placed_eq. unfold placed. cbn [placed_items].
  destruct (dict_get Z.eqb (placed_items s) p) eqn:E; [exact E|].
  rewrite dict_get_set_Z, Z.eqb_refl. reflexivity.
Qed.

Lemma read_placed_fields (p : PlayerID) (s : GameState) :
  player_turn (read_placed p s) = player_turn s
  /\ board (read_placed p s) = board s
  /\ max_placed_items (read_placed p s) = max_placed_items s
  /\ frozen (read_placed p s) = frozen s.
Proof. rewrite read_placed_eq. repeat split. Qed.

Lemma read_placed_twice (p : PlayerID) (s : GameState) :
  read_placed p (read_placed p s) = read_placed p s.
Proof.
  rewrite (read_placed_eq p (read_placed p s)), dict_get_read_placed.
  destruct (read_placed p s); reflexivity.
Qed.

(** What [calc_available_actions] returns and leaves. *)
Lemma calc_available_actions_eq (p : PlayerID) (s : GameState) :
  calc_available_actions p s
  = match count (board s) p with
    | Raise e => (Raise e, s)
    | Ok c => (Ok (actions_of_phase s p (placed s p) c (calc_available_attacks s p)),
               read_placed p s)
    end.
Proof.
  unfold calc_available_actions. unfold bind at 1. unfold get_self at 1.
  unfold bind at 1. unfold lift.
  destruct (count (board s) p) as [c|e]; [|reflexivity].
  unfold bind at 1. rewrite placed_items_getitem_eq.
  unfold bind, get_self, ret. rewrite read_placed_eq. reflexivity.
Qed.

Lemma calc_available_actions_inv (p : PlayerID) (s s1 : GameState)
    (acts : list Action) :
  calc_available_actions p s = (Ok acts, s1) ->
  exists c, count (board s) p = Ok c
            /\ acts = actions_of_phase s p (placed s p) c (calc_available_attacks s p)
            /\ s1 = read_placed p s.
Proof.
  rewrite calc_available_actions_eq.
  destruct (count (board s) p) as [c|e]; [|discriminate].
  intros H. injection H as <- <-. exists c. auto.
Qed.

Lemma in_iter_pieces (b : GameBoard) (p : PlayerID) (e : Position * Piece) :
  In e (iter_pieces b p) <-> In e (fields b) /\ playerID (snd e) = p.
Proof. unfold iter_pieces. rewrite filter_In, Z.eqb_eq. tauto. Qed.

Lemma in_iter_empty (b : GameBoard) (pos : Position) :
  In pos (iter_empty b) <->
  In pos (iter_fields (design b)) /\ dict_mem Position_eqb (fields b) pos = false.
Proof.
  unfold iter_empty, is_empty. rewrite filter_In, negb_true_iff. tauto.
Qed.

Lemma in_iter_available_moves (b : GameBoard) (start pos : Position) :
  In pos (iter_available_moves b start) <->
  In pos (neighbors_of (design b) start)
  /\ dict_mem Position_eqb (fields b) pos = false.
Proof.
  unfold iter_available_moves, is_empty. rewrite filter_In, negb_true_iff. tauto.
Qed.

Lemma in_calc_available_attacks (s : GameState) (t : PlayerID) (e : Position * Piece) :
  In e (calc_available_attacks s t) ->
  In e (fields (board s)) /\ playerID (snd e) = other t.
Proof.
  unfold calc_available_attacks.
  destruct (iter_pieces_outside_mill (board s) (other t)) as [|x l] eqn:E.
  - unfold iter_pieces_inside_mill. rewrite filter_In, andb_true_iff, Z.eqb_eq.
    tauto.
  - rewrite <- E. unfold iter_pieces_outside_mill.
    rewrite filter_In, andb_true_iff, Z.eqb_eq. tauto.
Qed.

Lemma calc_available_attacks_NoDup (s : GameState) (t : PlayerID) :
  NoDup (dict_keys (fields (board s))) ->
  NoDup (map fst (calc_available_attacks s t)).
Proof.
  intros H. unfold calc_available_attacks.
  destruct (iter_pieces_outside_mill (board s) (other t)) as [|x l] eqn:E.
  - apply NoDup_map_filter. exact H.
  - rewrite <- E. apply NoDup_map_filter. exact H.
Qed.

(** What [enhance_with_attacks] attaches: nothing, or the keys of one
    combination of the capturable pieces. *)
Lemma in_enhance_with_attacks (s : GameState) (t : PlayerID)
    (L : list (Position * Piece)) (pos : Position)
    (mk : option (list Position) -> Action) (a : Action) :
  In a (enhance_with_attacks s t L pos mk) ->
  exists atk, a = mk atk
    /\ match atk with
       | None => iter_ready_mills (board s) t pos = []
       | Some l => exists comb, l = map fst comb
                     /\ In comb (combinations L
                                   (length (iter_ready_mills (board s) t pos)))
                     /\ iter_ready_mills (board s) t pos <> []
       end.
Proof.
  unfold enhance_with_attacks.
  destruct (iter_ready_mills (board s) t pos) as [|m ms] eqn:E.
  - intros [<-|[]]. exists None. auto.
  - intros H. apply in_map_iff in H as (comb & <- & Hc).
    exists (Some (map fst comb)). split; [reflexivity|].
    exists comb. split; [reflexivity|]. split; [assumption|discriminate].
Qed.

Lemma combination_capturable (s : GameState) (comb : list (Position * Piece))
    (r : nat) :
  NoDup (dict_keys (fields (board s))) ->
  In comb (combinations (calc_available_attacks s (player_turn s)) r) ->
  capturable s (map fst comb).
Proof.
  intros Hnd Hc. split.
  - eapply combinations_NoDup_map; [|exact Hc].
    apply calc_available_attacks_NoDup. exact Hnd.
  - intros y Hy. apply in_map_iff in Hy as ([y' piece] & <- & Hin).
    pose proof (@combinations_incl _ _ _ _ Hc) as Hincl. apply Hincl in Hin.
    apply in_calc_available_attacks in Hin as [Hin Hp].
    exists piece. auto.
Qed.


Lemma in_actions_of_phase (s : GameState) (c : Z) (a : Action) :
  In a (actions_of_phase s (player_turn s) (placed s (player_turn s)) c
                         (calc_available_attacks s (player_turn s))) ->
  enumerated s a
  /\ match attacks a with
     | None => iter_ready_mills (board s) (player_turn s) (destination a) = []
     | Some l =>
         exists comb,
           l = map fst comb
           /\ In comb (combinations (calc_available_attacks s (player_turn s))
                         (length (iter_ready_mills (board s) (player_turn s)
                                    (destination a))))
           /\ iter_ready_mills (board s) (player_turn s) (destination a) <> []
     end.
Proof.
  unfold actions_of_phase.
  destruct (Z.ltb_spec (placed s (player_turn s)) (max_placed_items s)) as [Hpl|Hpl].
  - intros Hin.
    apply in_flat_map in Hin as (pos & Hpos & Hin).
    apply in_enhance_with_attacks in Hin as (atk & -> & Hatk).
    split; [constructor; assumption|]. destruct atk; exact Hatk.
  - destruct (c >? 3).
    + intros Hin.
      apply in_flat_map in Hin as ([start piece] & Hst & Hin).
      apply in_flat_map in Hin as (pos & Hpos & Hin).
      apply in_enhance_with_attacks in Hin as (atk & -> & Hatk).
      split; [econstructor; eassumption|]. destruct atk; exact Hatk.
    + destruct (c =? 3).
      * intros Hin.
        apply in_flat_map in Hin as ([start piece] & Hst & Hin).
        apply in_flat_map in Hin as (pos & Hpos & Hin).
        apply in_enhance_with_attacks in Hin as (atk & -> & Hatk).
        split; [econstructor; eassumption|]. destruct atk; exact Hatk.
      * contradiction.
Qed.

Lemma in_calc_available_actions (s s1 : GameState) (acts : list Action) (a : Action) :
  calc_available_actions (player_turn s) s = (Ok acts, s1) -> In a acts ->
  enumerated s a
  /\ match attacks a with
     | None => iter_ready_mills (board s) (player_turn s) (destination a) = []
     | Some l =>
         exists comb,
           l = map fst comb
           /\ In comb (combinations (calc_available_attacks s (player_turn s))
                         (length (iter_ready_mills (board s) (player_turn s)
                                    (destination a))))
           /\ iter_ready_mills (board s) (player_turn s) (destination a) <> []
     end.
Proof.
  intros Hacts Hin.
  apply calc_available_actions_inv in Hacts as (c & _ & -> & _).
  eapply in_actions_of_phase. exact Hin.
Qed.

(** The enumeration reads the state, its read of [placed_items] apart: what
    it offers after the read is what it offered before. *)
Lemma enumerated_read_placed (p : PlayerID) (s : GameState) (a : Action) :
  enumerated s a <-> enumerated (read_placed p s) a.
Proof.
  destruct (read_placed_fields p s) as (Ht & Hb & Hm & Hf).
  split; intros H.
  - destruct H; rewrite <- Ht; econstructor;
      rewrite ?Hb, ?Hm, ?Ht, ?placed_read_placed; eassumption.
  - inversion H; subst; rewrite Ht; econstructor;
      rewrite ?Hb, ?Hm, ?Ht, ?placed_read_placed in *; eassumption.
Qed.

(* ================================================================== *)
(** ** [execute] on an enumerated action *)

Lemma set_board_read_placed (p : PlayerID) (b' : GameBoard) (s : GameState) :
  read_placed p (set_board b' s) = set_board b' (read_placed p s).
Proof. rewrite !read_placed_eq. reflexivity. Qed.

(** The placement of [execute], step by step. *)
Lemma execute_step_place_eq (p : PlayerID) (pos : Position)
    (atk : option (list Position)) (s : GameState) :
  execute_step (PlaceAction p pos atk) s
  = if placed s p <? max_placed_items s then
      match place pos (mkPiece p) (board s) with
      | (Ok _, b') =>
          (Ok tt, mkGameState (dict_set Z.eqb (placed_items (read_placed p s)) p
                                        (placed s p + 1))
                              (player_turn s) b' (max_placed_items s) (frozen s))
      | (Raise e, b') => (Raise e, set_board b' (read_placed p s))
      end
    else (Raise AssertionError, read_placed p s).
Proof.
  unfold execute_step. cbn [action_playerID]. unfold bind at 1.
  unfold get_self at 1. unfold bind at 1. rewrite placed_items_getitem_eq.
  unfold bind at 1. unfold assert.
  destruct (placed s p <? max_placed_items s); [|reflexivity].
  unfold ret at 1. unfold bind at 1. unfold on_board.
  destruct (read_placed_fields p s) as (Ht & Hb & Hm & Hf). rewrite Hb.
  destruct (place pos (mkPiece p) (board s)) as [[[]|e] b'] eqn:Hplace;
    [|reflexivity].
  unfold bind at 1. rewrite placed_items_getitem_eq.
  rewrite set_board_read_placed, read_placed_twice.
  assert (Hpl : placed (set_board b' (read_placed p s)) p = placed s p).
  { rewrite <- (placed_read_placed p p s). reflexivity. }
  rewrite Hpl.
  unfold placed_items_setitem, bind, get_self, set_placed_items.
  f_equal. unfold set_board. cbn [placed_items player_turn board max_placed_items
                                     frozen].
  rewrite Ht, Hm, Hf. reflexivity.
Qed.

Section Execute.
Variable s : GameState.
Hypothesis Hwf : wf_state s.

Let t := player_turn s.
Let b := board s.

Lemma wf_get (y : Position) (piece : Piece) :
  In (y, piece) (fields b) -> dict_get Position_eqb (fields b) y = Some piece.
Proof.
  destruct Hwf as (_ & Hnd & _).
  apply (dict_get_NoDup Position_eqb Position_eqb_eq); assumption.
Qed.

Lemma wf_turn : 0 <= t < Z.of_nat (length (_count b)).
Proof. destruct Hwf as (_ & _ & _ & Ht & Hlen). unfold b, t. lia. Qed.

Lemma wf_count_turn : exists c, list_getitem (_count b) t = Ok c.
Proof. apply list_getitem_lt. exact wf_turn. Qed.

(** The board after the move of an enumerated action keeps every piece of
    the other player where it was. *)
Lemma execute_step_Ok (a : Action) :
  enumerated s a ->
  exists s1, execute_step a s = (Ok tt, s1)
    /\ player_turn s1 = t /\ frozen s1 = frozen s
    /\ max_placed_items s1 = max_placed_items s
    /\ design (board s1) = design b
    /\ length (_count (board s1)) = length (_count b)
    /\ (forall y piece, In (y, piece) (fields b) -> playerID piece <> t ->
          get (board s1) y = Some piece).
Proof.
  pose proof Hwf as (Hsides & Hnd & Hvalid & Ht & Hlen).
  intros Ha. destruct Ha as [pos atk Hpl Hpos | start piece end_ atk Hst Hend
                            | start piece end_ atk Hst Hend].
  - (* place *)
    apply in_iter_empty in Hpos as [_ Hmem].
    destruct wf_count_turn as [c Hc].
    eexists. split.
    + rewrite execute_step_place_eq.
      destruct (Z.ltb_spec (placed s (player_turn s)) (max_placed_items s));
        [|lia].
      rewrite (@place_Ok pos (mkPiece (player_turn s)) (board s) c Hmem
                 wf_turn Hc).
      reflexivity.
    + cbn. repeat split; try reflexivity.
      * apply length_list_set.
      * intros y piece Hin _. unfold get. cbn.
        apply dict_get_app_Some. apply wf_get. exact Hin.
  - (* move *)
    apply in_iter_pieces in Hst as [Hst Hp]. cbn in Hp.
    apply in_iter_available_moves in Hend as [Hnb Hmem].
    pose proof (wf_get _ _ Hst) as Hget.
    assert (Hvs : valid_pos (design b) start).
    { apply Hvalid. apply in_map_iff. exists (start, piece). auto. }
    assert (Hlink : is_linked_to (design b) start end_ = true).
    { apply (@neighbors_of_linked (design b) Hsides); [assumption| |assumption].
      eapply (@neighbors_of_valid (design b) Hsides); eassumption. }
    eexists. split.
    + unfold execute_step. cbn [action_playerID]. unfold bind at 1.
      unfold get_self at 1. cbv beta iota. unfold get. fold b. rewrite Hget.
      erewrite bind_Ok.
      2:{ unfold assert. rewrite Hp. fold t. rewrite Z.eqb_refl. reflexivity. }
      unfold on_board. fold b. rewrite (move_Ok _ _ _ Hlink).
      rewrite (@jump_Ok start end_ piece b Hmem Hget). reflexivity.
    + cbn. repeat split; try reflexivity.
      intros y piece' Hin Hne. unfold get. cbn.
      apply dict_get_app_Some.
      rewrite (dict_del_other Position_eqb Position_eqb_eq).
      * apply wf_get. exact Hin.
      * intros ->. apply wf_get in Hin. unfold t, b in *. congruence.
  - (* jump *)
    apply in_iter_pieces in Hst as [Hst Hp]. cbn in Hp.
    apply in_iter_empty in Hend as [_ Hmem].
    pose proof (wf_get _ _ Hst) as Hget.
    eexists. split.
    + unfold execute_step. cbn [action_playerID]. unfold bind at 1.
      unfold get_self at 1. cbv beta iota. unfold get. fold b. rewrite Hget.
      erewrite bind_Ok.
      2:{ unfold assert. rewrite Hp. fold t. rewrite Z.eqb_refl. reflexivity. }
      unfold on_board. fold b.
      rewrite (@jump_Ok start end_ piece b Hmem Hget). reflexivity.
    + cbn. repeat split; try reflexivity.
      intros y piece' Hin Hne. unfold get. cbn.
      apply dict_get_app_Some.
      rewrite (dict_del_other Position_eqb Position_eqb_eq).
      * apply wf_get. exact Hin.
      * intros ->. apply wf_get in Hin. unfold t, b in *. congruence.
Qed.

(** [execute] succeeds on an enumerated action whose captures are pieces
    of the other player, and hands back [None]. *)
Lemma execute_enumerated (a : Action) :
  frozen s = false ->
  enumerated s a ->
  (forall l, attacks a = Some l -> capturable s l) ->
  exists s', execute a s = (Ok None, s')
             /\ player_turn s' = other t /\ frozen s' = false.
Proof.
  pose proof Hwf as (Hsides & Hnd & Hvalid & Ht & Hlen).
  intros Hfr Ha Hcap.
  assert (Hpid : action_playerID a = t) by (destruct Ha; reflexivity).
  destruct (execute_step_Ok _ Ha)
    as (s1 & Hstep & Ht1 & Hfr1 & Hmx1 & Hd1 & Hl1 & Hkeep).
  assert (Hatt : exists b2, execute_attacks a s1 = (Ok tt, set_board b2 s1)).
  { unfold execute_attacks. destruct (has_attacks a) eqn:Hhas.
    - unfold has_attacks in Hhas. unfold attack_list.
      destruct (attacks a) as [l|] eqn:Hl; [|discriminate].
      destruct (Hcap l eq_refl) as [Hndl Hown].
      destruct (@attack_loop_Ok (action_playerID a) l s1 Hndl) as (b2 & Hrun & _).
      + intros y Hy. destruct (Hown y Hy) as (piece & Hin & Hp).
        exists piece. rewrite Hpid. fold t in Hp.
        assert (Hne : playerID piece <> t) by (rewrite Hp; apply other_neq).
        split; [apply Hkeep; assumption|]. split; [assumption|].
        rewrite Hl1. unfold b. rewrite Hlen, Hp. apply other_lt.
      + exists b2. exact Hrun.
    - exists (board s1). unfold ret. destruct s1; reflexivity. }
  destruct Hatt as (b2 & Hatt).
  eexists. split; [|split].
  - unfold execute. unfold bind at 1. unfold get_self at 1. cbv beta iota.
    erewrite bind_Ok.
    2:{ unfold assert. rewrite Hfr. reflexivity. }
    erewrite bind_Ok.
    2:{ unfold assert. rewrite Hpid. unfold t. rewrite Z.eqb_refl. reflexivity. }
    erewrite bind_Ok by exact Hstep.
    erewrite bind_Ok by exact Hatt.
    reflexivity.
  - cbn. rewrite Ht1. reflexivity.
  - cbn. rewrite Hfr1. exact Hfr.
Qed.
End Execute.

(* ================================================================== *)
(** ** Frozen states and foreign actions *)

(** C6: [execute] on a frozen state raises the assertion error of its first
    line and leaves the state as it was. *)
Theorem execute_frozen (s : GameState) (a : Action) (Hfrozen : frozen s = true) :
  execute a s = (Raise AssertionError, s).
Proof.
  unfold execute, bind, get_self, assert. rewrite Hfrozen. reflexivity.
Qed.


(** [execute] succeeds on every action the state enumerates for the side to
    move, and hands back [None]. *)
Lemma execute_enumerated_action (s s1 : GameState) (acts : list Action)
    (a : Action) :
  wf_state s -> frozen s = false ->
  calc_available_actions (player_turn s) s = (Ok acts, s1) -> In a acts ->
  exists s', execute a s = (Ok None, s')
             /\ player_turn s' = other (player_turn s) /\ frozen s' = false.
Proof.
  intros Hwf Hfr Hacts Hin.
  destruct (in_calc_available_actions s s1 acts a Hacts Hin) as [Henum Hatk].
  apply (execute_enumerated s Hwf a Hfr Henum).
  intros l Hl. rewrite Hl in Hatk. destruct Hatk as (comb & -> & Hc & _).
  eapply combination_capturable; [|exact Hc].
  destruct Hwf as (_ & Hnd & _). exact Hnd.
Qed.

Lemma wf_state_read_placed (p : PlayerID) (s : GameState) :
  wf_state s <-> wf_state (read_placed p s).
Proof.
  destruct (read_placed_fields p s) as (Ht & Hb & Hm & Hf).
  unfold wf_state. rewrite Ht, Hb. tauto.
Qed.

(** The same on the state as the enumeration leaves it, which is the state
    the callers execute on. *)
Lemma execute_listed_action (s s1 : GameState) (acts : list Action)
    (a : Action) :
  wf_state s -> frozen s = false ->
  calc_available_actions (player_turn s) s = (Ok acts, s1) -> In a acts ->
  exists s', execute a s1 = (Ok None, s')
             /\ player_turn s' = other (player_turn s) /\ frozen s' = false.
Proof.
  intros Hwf Hfr Hacts Hin.
  destruct (in_calc_available_actions s s1 acts a Hacts Hin) as [Henum Hatk].
  apply calc_available_actions_inv in Hacts as (c & _ & _ & ->).
  destruct (read_placed_fields (player_turn s) s) as (Ht & Hb & Hm & Hf).
  assert (Hwf' : wf_state (read_placed (player_turn s) s))
    by (apply wf_state_read_placed; exact Hwf).
  assert (Hfr' : frozen (read_placed (player_turn s) s) = false) by congruence.
  assert (Henum' : enumerated (read_placed (player_turn s) s) a)
    by (apply enumerated_read_placed; exact Henum).
  destruct (execute_enumerated (read_placed (player_turn s) s) Hwf' a Hfr' Henum')
    as (s' & Hex & Ht' & Hf').
  - intros l Hl. rewrite Hl in Hatk. destruct Hatk as (comb & -> & Hc & _).
    assert (Hcap : capturable s (map fst comb)).
    { eapply combination_capturable; [|exact Hc].
      destruct Hwf as (_ & Hnd & _). exact Hnd. }
    unfold capturable in *. rewrite Hb, Ht. exact Hcap.
  - exists s'. rewrite Ht in Ht'. auto.
Qed.

(* ================================================================== *)
(** ** Captures of a placement *)

Lemma NoDup_flat_map (A B : Type) (f : A -> list B) (l : list A) :
  NoDup l -> (forall x, In x l -> NoDup (f x)) ->
  (forall x y b, In x l -> In y l -> In b (f x) -> In b (f y) -> x = y) ->
  NoDup (flat_map f l).
Proof.
  induction l as [|x l IH]; simpl; intros Hnd Hf Hdis; [constructor|].
  apply NoDup_cons_iff in Hnd as [Hx Hnd].
  apply NoDup_app.
  - apply Hf. auto.
  - apply IH; auto. intros; eapply Hdis; eauto.
  - intros b Hb Hb'. apply in_flat_map in Hb' as (y & Hy & Hby).
    assert (x = y) by (eapply Hdis; eauto). subst. contradiction.
Qed.

Lemma NoDup_iter_fields (d : DefaultBoardDesign) : NoDup (iter_fields d).
Proof.
  unfold iter_fields. apply NoDup_flat_map.
  - apply NoDup_range.
  - intros r _. apply Injective_map_NoDup; [|apply NoDup_range].
    intros i j H. injection H. auto.
  - intros r r' p _ _ Hp Hp'.
    apply in_map_iff in Hp as (i & <- & _).
    apply in_map_iff in Hp' as (j & Hj & _). injection Hj. auto.
Qed.

Lemma NoDup_iter_empty (b : GameBoard) : NoDup (iter_empty b).
Proof. unfold iter_empty. apply NoDup_filter. apply NoDup_iter_fields. Qed.

Lemma filter_all_false (A : Type) (g : A -> bool) (l : list A) :
  (forall b, In b l -> g b = false) -> filter g l = [].
Proof.
  induction l as [|b l IH]; simpl; intros H; [reflexivity|].
  rewrite (H b (or_introl eq_refl)). apply IH. auto.
Qed.

Lemma filter_all_true (A : Type) (g : A -> bool) (l : list A) :
  (forall b, In b l -> g b = true) -> filter g l = l.
Proof.
  induction l as [|b l IH]; simpl; intros H; [reflexivity|].
  rewrite (H b (or_introl eq_refl)). f_equal. apply IH. auto.
Qed.

Lemma filter_flat_map_none (A B : Type) (f : A -> list B) (g : B -> bool)
    (l : list A) :
  (forall y b, In y l -> In b (f y) -> g b = false) ->
  filter g (flat_map f l) = [].
Proof.
  intros H. apply filter_all_false. intros b Hb.
  apply in_flat_map in Hb as (y & Hy & Hb). eauto.
Qed.

(** The items of one key in a [flat_map] over different keys. *)
Lemma filter_flat_map_one (A B : Type) (f : A -> list B) (g : B -> bool)
    (l : list A) (x : A) :
  NoDup l -> In x l ->
  (forall b, In b (f x) -> g b = true) ->
  (forall y b, In y l -> y <> x -> In b (f y) -> g b = false) ->
  filter g (flat_map f l) = f x.
Proof.
  induction l as [|y l IH]; simpl; intros Hnd Hin Hx Hy; [contradiction|].
  apply NoDup_cons_iff in Hnd as [Hnot Hnd].
  rewrite filter_app. destruct Hin as [->|Hin].
  - rewrite (filter_all_true _ g (f x) Hx).
    rewrite filter_flat_map_none; [apply app_nil_r|].
    intros y b Hyl Hb. apply (Hy y b); auto. intros ->. contradiction.
  - rewrite (filter_all_false _ g (f y)).
    + simpl. apply IH; auto. intros y0 b Hy0 Hne Hb. apply (Hy y0 b); auto.
    + intros b Hb. apply (Hy y b); auto. intros ->. contradiction.
Qed.

Lemma binomial_lt (n k : nat) : (n < k)%nat -> binomial n k = 0%nat.
Proof.
  revert k. induction n as [|n IH]; intros [|k] H; simpl; try lia.
  rewrite !IH by lia. reflexivity.
Qed.

Lemma destination_enhance (s : GameState) (t : PlayerID)
    (L : list (Position * Piece)) (pos : Position)
    (mk : option (list Position) -> Action) (a : Action) :
  (forall atk, destination (mk atk) = pos) ->
  In a (enhance_with_attacks s t L pos mk) -> destination a = pos.
Proof.
  intros Hmk Hin. apply in_enhance_with_attacks in Hin as (atk & -> & _). auto.
Qed.

(** In the placing phase, for an empty position with [k >= 1] ready mills
    of the mover and [m] pieces in [calc_available_attacks], the enumerated
    actions for that position are the placements with the keys of each
    [k]-combination of those pieces: [C(m, k)] actions, all different, and
    none when [m < k]. *)
Lemma placing_actions_of_ready_mills (s s1 : GameState) (acts : list Action)
    (pos : Position) (k m : nat)
    (Hphase : placed s (player_turn s) < max_placed_items s)
    (Hacts : calc_available_actions (player_turn s) s = (Ok acts, s1))
    (Hpos : In pos (iter_empty (board s)))
    (Hk : length (iter_ready_mills (board s) (player_turn s) pos) = k)
    (Hk1 : (1 <= k)%nat)
    (Hnd : NoDup (dict_keys (fields (board s))))
    (Hm : length (calc_available_attacks s (player_turn s)) = m) :
  actions_to pos acts
  = map (fun comb => PlaceAction (player_turn s) pos (Some (map fst comb)))
        (combinations (calc_available_attacks s (player_turn s)) k)
  /\ length (actions_to pos acts) = binomial m k
  /\ NoDup (actions_to pos acts)
  /\ ((m < k)%nat -> actions_to pos acts = []).
Proof.
  assert (Heq : actions_to pos acts
                = map (fun comb => PlaceAction (player_turn s) pos (Some (map fst comb)))
                      (combinations (calc_available_attacks s (player_turn s)) k)).
  { apply calc_available_actions_inv in Hacts as (c & _ & -> & _).
    unfold actions_of_phase.
    destruct (Z.ltb_spec (placed s (player_turn s)) (max_placed_items s)); [|lia].
    unfold actions_to.
    rewrite (filter_flat_map_one _ _ _ _ (iter_empty (board s)) pos).
    - unfold enhance_with_attacks. rewrite Hk.
      destruct (iter_ready_mills (board s) (player_turn s) pos); [simpl in Hk; lia|].
      reflexivity.
    - apply NoDup_iter_empty.
    - exact Hpos.
    - intros a Ha. apply destination_enhance in Ha; [|reflexivity].
      rewrite Ha. apply Position_eqb_refl.
    - intros y a _ Hne Ha. apply destination_enhance in Ha; [|reflexivity].
      rewrite Ha. apply Position_eqb_neq. exact Hne. }
  split; [exact Heq|]. rewrite Heq. split; [|split].
  - rewrite length_map, combinations_count, Hm. reflexivity.
  - rewrite <- (map_map (map fst)
                  (fun l => PlaceAction (player_turn s) pos (Some l))).
    apply Injective_map_NoDup.
    + intros l l' H. injection H. auto.
    + apply combinations_NoDup. apply calc_available_attacks_NoDup. exact Hnd.
  - intros Hlt.
    assert (Hlen : length (combinations (calc_available_attacks s (player_turn s)) k)
                   = 0%nat).
    { rewrite combinations_count, Hm. apply binomial_lt. exact Hlt. }
    destruct (combinations (calc_available_attacks s (player_turn s)) k);
      [reflexivity|discriminate].
Qed.

Lemma execute_frozen_witness :
  execute (PlaceAction 0 (Pos 0 2) (Some [Pos 1 3])) frozen_state
  = (Raise AssertionError, frozen_state).
Proof. apply execute_frozen. reflexivity. Defined.

(** C3 (the value handed back): on the new board of four sides, [execute]
    of the first enumerated action succeeds, moves the turn on, and hands
    back [None], not the state. *)
Theorem execute_returns_None :
  fst (calc_available_actions 0 start_state)
  = Ok (map (fun pos => PlaceAction 0 pos None) (iter_fields (Design 4 false)))
  /\ execute (PlaceAction 0 (Pos 0 0) None) start_state
     = (Ok None,
        mkGameState [(0, 1)] 1
          (mkGameBoard (Design 4 false) [(Pos 0 0, P0)] [1; 0]) 9 false)
  /\ execute (PlaceAction 0 (Pos 0 0) None)
             (snd (calc_available_actions 0 start_state))
     = (Ok None,
        mkGameState [(0, 1)] 1
          (mkGameBoard (Design 4 false) [(Pos 0 0, P0)] [1; 0]) 9 false).
Proof. split; [|split]; reflexivity. Qed.

(** C1 (the counterexample of the code): with four pieces each on the board,
    player 0 moves the piece on [0:0] to the empty [0:1] next to it, on the
    line [0:0, 0:1, 0:2].  The action is enumerated with one capture, and
    after it player 0 has no mill at all. *)
Theorem move_along_line_is_credited :
  let a := MoveAction 0 (Pos 0 0) (Pos 0 1) (Some [Pos 1 0]) in
  (exists acts, calc_available_actions 0 moving_state = (Ok acts, moving_state)
                /\ nth_error acts 1%nat = Some a)
  /\ length (attack_list a) = 1%nat
  /\ iter_mills (board moving_state) 0 = []
  /\ exists s', execute a moving_state = (Ok None, s')
                /\ iter_mills (board s') 0 = []
                /\ new_mills (board moving_state) (board s') 0 = []
                /\ count (board s') 1 = Ok 3.
Proof.
  cbv zeta. split; [|split; [|split]].
  - eexists. split; vm_compute; reflexivity.
  - reflexivity.
  - reflexivity.
  - eexists. split; [vm_compute; reflexivity|]. split; [|split]; reflexivity.
Qed.


Unset Implicit Arguments.

(* ================================================================== *)
(** ** Clones in the heap *)

Lemma nth_error_list_set_eq (A : Type) (l : list A) (i : nat) (x : A) :
  (i < length l)%nat -> nth_error (list_set l i x) i = Some x.
Proof.
  revert i. induction l as [|y l IH]; intros [|i] H; simpl in *; try lia; auto.
  apply IH. lia.
Qed.

Lemma nth_error_list_set_neq (A : Type) (l : list A) (i j : nat) (x : A) :
  i <> j -> nth_error (list_set l i x) j = nth_error l j.
Proof.
  revert i j. induction l as [|y l IH]; intros [|i] [|j] H; simpl;
    try congruence; auto.
Qed.

Lemma nth_error_lt (A : Type) (l : list A) (i : nat) (x : A) :
  nth_error l i = Some x -> (i < length l)%nat.
Proof. intros H. apply nth_error_Some. congruence. Qed.

Lemma GameBoard_clone_eq (b : GameBoard) : GameBoard_clone b = b.
Proof. destruct b; reflexivity. Qed.

Lemma clone_eq (s : GameState) :
  clone s = mkGameState (placed_items s) (player_turn s) (board s)
                        (max_placed_items s) false.
Proof. unfold clone. rewrite GameBoard_clone_eq. reflexivity. Qed.

Lemma agree_refl (n : nat) (h : Heap) : agree n h h.
Proof. intros r _. reflexivity. Qed.

Lemma agree_trans (n : nat) (h1 h2 h3 : Heap) :
  agree n h1 h2 -> agree n h2 h3 -> agree n h1 h3.
Proof. intros H12 H23 r Hr. rewrite (H23 r Hr). apply H12. exact Hr. Qed.

Lemma agree_list_set (n : nat) (h : Heap) (i : nat) (o : Obj) :
  (n <= i)%nat -> agree n h (list_set h i o).
Proof. intros Hi r Hr. apply nth_error_list_set_neq. lia. Qed.

(** A state read from [h] is read from every heap that agrees with [h] on
    its addresses. *)
Lemma load_agree (h h' : Heap) (r : ref) (v : GameState) :
  load h r = Some v -> agree (length h) h h' -> load h' r = Some v.
Proof.
  unfold load. intros H Hag.
  destruct (nth_error h r) as [[| | | |pr turn br mx fz]|] eqn:Er; try discriminate.
  rewrite (Hag r (nth_error_lt _ _ _ _ Er)), Er.
  destruct (nth_error h pr) as [[| |p| |]|] eqn:Ep; try discriminate.
  rewrite (Hag pr (nth_error_lt _ _ _ _ Ep)), Ep.
  destruct (nth_error h br) as [[| | |d fr cr|]|] eqn:Eb; try discriminate.
  rewrite (Hag br (nth_error_lt _ _ _ _ Eb)), Eb.
  destruct (nth_error h fr) as [[f| | | |]|] eqn:Ef; try discriminate.
  rewrite (Hag fr (nth_error_lt _ _ _ _ Ef)), Ef.
  destruct (nth_error h cr) as [[|c| | |]|] eqn:Ec; try discriminate.
  rewrite (Hag cr (nth_error_lt _ _ _ _ Ec)), Ec.
  exact H.
Qed.

Lemma length_store (h : Heap) (r : ref) (v : GameState) :
  length (store h r v) = length h.
Proof.
  unfold store.
  destruct (nth_error h r) as [[| | | |pr turn br mx fz]|]; try reflexivity.
  destruct (nth_error h br) as [[| | |d fr cr|]|]; try reflexivity.
  rewrite !length_list_set. reflexivity.
Qed.

Section Store.
Variables (n : nat) (h : Heap) (r : ref) (v : GameState).
Hypothesis Hown : owns_above n h r.

Lemma store_agree : agree n h (store h r v).
Proof.
  destruct Hown as (pr & turn & br & mx & fz & d & fr & cr & Er & Eb & _ & _ & _
                    & Hr & Hpr & Hbr & Hfr & Hcr & _).
  unfold store. rewrite Er, Eb. intros x Hx.
  rewrite !nth_error_list_set_neq by lia. reflexivity.
Qed.

Lemma store_cells :
  exists pr br fr cr,
    nth_error (store h r v) r
    = Some (OState pr (player_turn v) br (max_placed_items v) (frozen v))
    /\ nth_error (store h r v) br = Some (OBoard (design (board v)) fr cr)
    /\ nth_error (store h r v) pr = Some (OPlaced (placed_items v))
    /\ nth_error (store h r v) fr = Some (OFields (fields (board v)))
    /\ nth_error (store h r v) cr = Some (OCount (_count (board v)))
    /\ (n <= r)%nat /\ (n <= pr)%nat /\ (n <= br)%nat /\ (n <= fr)%nat
    /\ (n <= cr)%nat /\ NoDup [r; pr; br; fr; cr].
Proof.
  destruct Hown as (pr & turn & br & mx & fz & d & fr & cr & Er & Eb & [p Ep]
                    & [f Ef] & [c Ec] & Hr & Hpr & Hbr & Hfr & Hcr & Hnd).
  exists pr, br, fr, cr. unfold store. rewrite Er, Eb.
  assert (Hd : r <> pr /\ r <> br /\ r <> fr /\ r <> cr /\ pr <> br /\ pr <> fr
               /\ pr <> cr /\ br <> fr /\ br <> cr /\ fr <> cr).
  { repeat match goal with
           | H : NoDup (_ :: _) |- _ => apply NoDup_cons_iff in H as [? H]
           end.
    simpl in *. intuition congruence. }
  destruct Hd as (? & ? & ? & ? & ? & ? & ? & ? & ? & ?).
  apply nth_error_lt in Er, Eb, Ep, Ef, Ec.
  repeat split; try assumption.
  - apply nth_error_list_set_eq. rewrite !length_list_set. assumption.
  - rewrite nth_error_list_set_neq by congruence.
    apply nth_error_list_set_eq. rewrite !length_list_set. assumption.
  - rewrite !(nth_error_list_set_neq _ _ _ pr) by congruence.
    apply nth_error_list_set_eq. assumption.
  - rewrite !(nth_error_list_set_neq _ _ _ fr) by congruence.
    apply nth_error_list_set_eq. rewrite !length_list_set. assumption.
  - rewrite !(nth_error_list_set_neq _ _ _ cr) by congruence.
    apply nth_error_list_set_eq. rewrite !length_list_set. assumption.
Qed.

Lemma store_owns : owns_above n (store h r v) r.
Proof.
  destruct store_cells as (pr & br & fr & cr & Er & Eb & Ep & Ef & Ec & Hb).
  exists pr, (player_turn v), br, (max_placed_items v), (frozen v),
         (design (board v)), fr, cr.
  split; [exact Er|]. split; [exact Eb|]. split; [eauto|]. split; [eauto|].
  split; [eauto|]. exact Hb.
Qed.

Lemma load_store : load (store h r v) r = Some v.
Proof.
  destruct store_cells as (pr & br & fr & cr & Er & Eb & Ep & Ef & Ec & _).
  unfold load. rewrite Er, Ep, Eb, Ef, Ec.
  destruct v as [p t b mx fz]. destruct b. reflexivity.
Qed.
End Store.

Lemma h_execute_owns (n : nat) (h : Heap) (r : ref) (a : Action) :
  owns_above n h r ->
  agree n h (snd (h_execute r a h)) /\ owns_above n (snd (h_execute r a h)) r.
Proof.
  intros Hown. unfold h_execute, h_method.
  destruct (load h r) as [v|]; [|split; [apply agree_refl|exact Hown]].
  destruct (execute a v) as [res v']. simpl.
  split; [apply store_agree|apply store_owns]; assumption.
Qed.

Lemma h_run_cons (r : ref) (a : Action) (acts : list Action) (h : Heap) :
  h_run r (a :: acts) h
  = match h_execute r a h with
    | (Ok _, h1) => h_run r acts h1
    | (Raise e, h1) => (Raise e, h1)
    end.
Proof.
  unfold h_run. cbn [for_each]. unfold bind at 1. unfold bind at 1.
  destruct (h_execute r a h) as [[res|e] h1]; reflexivity.
Qed.

Lemma h_run_owns (n : nat) (r : ref) (acts : list Action) (h : Heap) :
  owns_above n h r ->
  agree n h (snd (h_run r acts h)) /\ owns_above n (snd (h_run r acts h)) r.
Proof.
  revert h. induction acts as [|a acts IH]; intros h Hown.
  - split; [apply agree_refl|exact Hown].
  - destruct (h_execute_owns n h r a Hown) as [Hag1 Hown1].
    rewrite h_run_cons.
    destruct (h_execute r a h) as [[res|e] h1]; cbn [snd] in Hag1, Hown1.
    + destruct (IH h1 Hown1) as [Hag2 Hown2].
      split; [exact (agree_trans n h h1 _ Hag1 Hag2)|exact Hown2].
    + cbn [snd]. split; assumption.
Qed.

Section Clone.
Variables (h : Heap) (r : ref) (s : GameState).
Hypothesis Hload : load h r = Some s.

Let n := length h.
Let h' := snd (h_clone r h).
Let r' := (n + 4)%nat.

Lemma h_clone_Ok : h_clone r h = (Ok r', h').
Proof. unfold h', r', n, h_clone. rewrite Hload. reflexivity. Qed.

Lemma h_clone_cells (k : nat) :
  (k < 5)%nat ->
  nth_error h' (n + k)
  = nth_error [OPlaced (placed_items s); OFields (fields (board s));
               OCount (_count (board s));
               OBoard (design (board s)) (n + 1)%nat (n + 2)%nat;
               OState n (player_turn s) (n + 3)%nat (max_placed_items s) false] k.
Proof.
  intros Hk. unfold h', h_clone. rewrite Hload. cbn [snd].
  rewrite nth_error_app2 by (unfold n; lia).
  replace (n + k - length h)%nat with k by (unfold n; lia). reflexivity.
Qed.

Lemma h_clone_agree : agree n h h'.
Proof.
  intros x Hx. unfold h', h_clone. rewrite Hload. cbn [snd].
  apply nth_error_app1. exact Hx.
Qed.

Lemma h_clone_owns : owns_above n h' r'.
Proof.
  exists n, (player_turn s), (n + 3)%nat, (max_placed_items s), false,
         (design (board s)), (n + 1)%nat, (n + 2)%nat.
  split; [apply (h_clone_cells 4); lia|].
  split; [apply (h_clone_cells 3); lia|].
  split; [exists (placed_items s); rewrite <- (Nat.add_0_r n) at 1;
          apply (h_clone_cells 0); lia|].
  split; [exists (fields (board s)); apply (h_clone_cells 1); lia|].
  split; [exists (_count (board s)); apply (h_clone_cells 2); lia|].
  unfold r'. repeat split; try lia.
  repeat constructor; simpl; lia.
Qed.

Lemma h_clone_load : load h' r' = Some (clone s).
Proof.
  unfold load, r'.
  rewrite (h_clone_cells 4) by lia. cbn [nth_error].
  rewrite <- (Nat.add_0_r n) at 1.
  rewrite (h_clone_cells 0), (h_clone_cells 3) by lia. cbn [nth_error].
  rewrite (h_clone_cells 1), (h_clone_cells 2) by lia. cbn [nth_error].
  rewrite clone_eq. destruct s as [p t b mx fz]. destruct b. reflexivity.
Qed.

Lemma h_clone_keeps : load h' r = Some s.
Proof. apply (load_agree h h' r s Hload). apply h_clone_agree. Qed.
End Clone.

Lemma calc_available_actions_clone (s : GameState) (p : PlayerID) :
  fst (calc_available_actions p (clone s)) = fst (calc_available_actions p s).
Proof.
  rewrite !calc_available_actions_eq, clone_eq. destruct s as [pl t b mx fz].
  cbn [board]. destruct (count b p); reflexivity.
Qed.

Lemma wf_state_clone (s : GameState) : wf_state s -> wf_state (clone s).
Proof. rewrite clone_eq. destruct s; auto. Qed.

(** C10: [clone] of a state, frozen or not, makes a state that is not frozen
    and has the occupancy, the piece counters, the placed-item counts, the
    turn owner and the maximum of placed pieces of the original; whatever is
    executed on the clone afterwards leaves the original as it was, and
    every action the original enumerates succeeds on the clone. *)
Theorem clone_is_independent (h : Heap) (r : ref) (s : GameState)
    (Hload : load h r = Some s) :
  exists r' h',
    h_clone r h = (Ok r', h')
    /\ load h' r' = Some (clone s)
    /\ (frozen (clone s) = false
        /\ fields (board (clone s)) = fields (board s)
        /\ _count (board (clone s)) = _count (board s)
        /\ placed_items (clone s) = placed_items s
        /\ player_turn (clone s) = player_turn s
        /\ max_placed_items (clone s) = max_placed_items s)
    /\ load h' r = Some s
    /\ (forall acts, load (snd (h_run r' acts h')) r = Some s)
    /\ (wf_state s ->
        forall acts a,
          fst (calc_available_actions (player_turn s) s) = Ok acts -> In a acts ->
          exists h'' s',
            h_execute r' a h' = (Ok None, h'')
            /\ execute a (clone s) = (Ok None, s')
            /\ load h'' r' = Some s'
            /\ load h'' r = Some s).
Proof.
  exists (length h + 4)%nat, (snd (h_clone r h)).
  pose proof (h_clone_owns h r s Hload) as Hown.
  pose proof (h_clone_agree h r s Hload) as Hag.
  pose proof (h_clone_load h r s Hload) as Hl'.
  split; [exact (h_clone_Ok h r s Hload)|].
  split; [exact Hl'|].
  split; [repeat split|].
  split; [exact (h_clone_keeps h r s Hload)|].
  split.
  - intros acts. apply (load_agree h _ r s Hload).
    eapply agree_trans; [exact Hag|].
    apply h_run_owns. exact Hown.
  - intros Hwf acts a Hacts Hin.
    rewrite <- calc_available_actions_clone in Hacts.
    destruct (calc_available_actions (player_turn s) (clone s)) as [res s1] eqn:Hc.
    cbn [fst] in Hacts. subst res.
    destruct (execute_enumerated_action (clone s) s1 acts a (wf_state_clone s Hwf)
                eq_refl Hc Hin) as (s' & Hex & _).
    exists (store (snd (h_clone r h)) (length h + 4)%nat s'), s'.
    split; [|split; [exact Hex|split]].
    + unfold h_execute, h_method. rewrite Hl', Hex. reflexivity.
    + apply (load_store (length h)). exact Hown.
    + apply (load_agree h _ r s Hload).
      eapply agree_trans; [exact Hag|].
      apply store_agree. exact Hown.
Qed.

Lemma clone_is_independent_witness :
  exists r' h',
    h_clone 4%nat frozen_heap = (Ok r', h')
    /\ load h' r' = Some (clone frozen_state)
    /\ load h' 4%nat = Some frozen_state
    /\ forall acts, load (snd (h_run r' acts h')) 4%nat = Some frozen_state.
Proof.
  destruct (clone_is_independent frozen_heap 4%nat frozen_state eq_refl)
    as (r' & h' & H1 & H2 & _ & H4 & H5 & _).
  exists r', h'. auto.
Defined.


Unset Implicit Arguments.

(* ================================================================== *)
(** ** The reward of a simulation *)

Section Reward.
Context {F : Type} {PF : PyFloat F}.
Variable player : PlayerID.
Hypothesis Hplayer : 0 <= player < 2.





End Reward.

(* ================================================================== *)
(** ** Nodes of the tree *)

Section Nodes.
Context {F : Type} {PF : PyFloat F}.

Lemma dict_get_set_same (K V : Type) (eqb : K -> K -> bool) (d : dict K V)
    (k : K) (v v' : V) :
  dict_get eqb d k = Some v -> dict_get eqb (dict_set eqb d k v') k = Some v'.
Proof.
  induction d as [|[k0 v0] d IH]; simpl; [discriminate|].
  destruct (eqb k0 k) eqn:E; simpl; rewrite E; auto.
Qed.

Lemma get_set_node (path : Path) (root0 n n' : @MCTS_Node F) :
  get_node root0 path = Some n -> get_node (set_node root0 path n') path = Some n'.
Proof.
  revert root0. induction path as [|a path IH]; intros root0; simpl.
  - reflexivity.
  - destruct (dict_get Action_eqb (children root0) a) as [child|] eqn:E;
      [|discriminate].
    intros H. simpl. rewrite (dict_get_set_same _ _ _ _ _ _ _ E). apply IH. exact H.
Qed.
End Nodes.

(* ================================================================== *)
(** ** [simulate] *)

Section Simulate.
Context {F : Type} {PF : PyFloat F}.
Variables (player : PlayerID) (max_depth branching branching_depth : Z).

End Simulate.



Unset Implicit Arguments.

(* ================================================================== *)
(** ** Rules for methods *)

Section Hoare.
Variables (S : Type).

Lemma hoare_bind (A B : Type) (P : S -> Prop) (m : M S A) (Q : A -> S -> Prop)
    (k : A -> M S B) (R : B -> S -> Prop) :
  hoare P m Q -> (forall a, hoare (Q a) (k a) R) -> hoare P (bind m k) R.
Proof.
  intros Hm Hk s HP b s' Hrun. unfold bind in Hrun.
  destruct (m s) as [[a|e] s1] eqn:E; [|discriminate].
  exact (Hk a s1 (Hm s HP a s1 E) b s' Hrun).
Qed.

Lemma hoare_ret (A : Type) (P : S -> Prop) (a : A) (Q : A -> S -> Prop) :
  (forall s, P s -> Q a s) -> hoare P (ret a) Q.
Proof. intros H s HP a' s' Hrun. injection Hrun as <- <-. auto. Qed.

Lemma hoare_weaken (A : Type) (P P' : S -> Prop) (m : M S A)
    (Q Q' : A -> S -> Prop) :
  hoare P' m Q' -> (forall s, P s -> P' s) -> (forall a s, Q' a s -> Q a s) ->
  hoare P m Q.
Proof. intros Hm HP HQ s Hs a s' Hrun. eauto. Qed.

Lemma hoare_pre (A : Type) (P P' : S -> Prop) (m : M S A) (Q : A -> S -> Prop) :
  hoare P' m Q -> (forall s, P s -> P' s) -> hoare P m Q.
Proof. intros Hm HP s Hs a s' Hrun. eauto. Qed.

Lemma hoare_get_self (P : S -> Prop) :
  hoare P get_self (fun a s => a = s /\ P s).
Proof. intros s HP a s' Hrun. injection Hrun as <- <-. auto. Qed.

Lemma hoare_lift (A : Type) (P : S -> Prop) (o : outcome A) :
  hoare P (lift o) (fun a s => o = Ok a /\ P s).
Proof. intros s HP a s' Hrun. unfold lift in Hrun. injection Hrun as -> <-. auto. Qed.

Lemma hoare_assert (P : S -> Prop) (b : bool) :
  hoare P (assert b) (fun _ s => b = true /\ P s).
Proof.
  intros s HP a s' Hrun. unfold assert in Hrun. destruct b; [|discriminate].
  injection Hrun as _ <-. auto.
Qed.

(** A loop keeps what every turn keeps. *)
Lemma hoare_for_each (A : Type) (P : S -> Prop) (l : list A)
    (body : A -> M S unit) :
  (forall x, hoare P (body x) (fun _ => P)) ->
  hoare P (for_each l body) (fun _ => P).
Proof.
  intros Hbody. induction l as [|x l IH]; cbn [for_each].
  - apply hoare_ret. auto.
  - eapply hoare_bind; [apply Hbody|]. intros u. exact IH.
Qed.
End Hoare.

Lemma positions_eqb_refl (l : list Position) : positions_eqb l l = true.
Proof.
  induction l as [|p l IH]; simpl; [reflexivity|].
  rewrite Position_eqb_refl, IH. reflexivity.
Qed.

Lemma Action_eqb_refl (a : Action) : Action_eqb a a = true.
Proof.
  destruct a as [p pos atk|p s e atk|p s e atk]; simpl;
    rewrite Z.eqb_refl, ?Position_eqb_refl;
    destruct atk as [l|]; simpl; rewrite ?positions_eqb_refl; reflexivity.
Qed.

(* ================================================================== *)
(** ** A root with one child *)

Section OneChildFacts.
Context {F : Type} {PF : PyFloat F}.
Variable a : Action.

Lemma one_child_set_node (r n' : @MCTS_Node F) (path : Path) :
  has_one_child a r -> path <> [] -> has_one_child a (set_node r path n').
Proof.
  intros [Hrem [c Hch]] Hpath. destruct path as [|b path]; [congruence|].
  cbn [set_node]. rewrite Hch. cbn [dict_get].
  destruct (Action_eqb a b) eqn:E.
  - split; [exact Hrem|]. cbn [set_children children dict_set]. rewrite E. eauto.
  - split; [exact Hrem|eauto].
Qed.

Lemma one_child_set_stats (r : @MCTS_Node F) (v s : Z) (x : F) :
  has_one_child a r -> has_one_child a (set_stats v s x r).
Proof. intros H. exact H. Qed.

Lemma one_child_update (r parent : @MCTS_Node F) (path : Path) (v s : Z) (x : F) :
  has_one_child a r -> get_node r path = Some parent ->
  has_one_child a (set_node r path (set_stats v s x parent)).
Proof.
  intros H Hget. destruct path as [|b path].
  - cbn in Hget. injection Hget as <-. apply one_child_set_stats. exact H.
  - apply one_child_set_node; [exact H|discriminate].
Qed.

Lemma one_child_simulated_update (r : @MCTS_Node F) (k v s : Z) (x : F) :
  one_child_simulated a k r -> one_child_simulated a k (set_stats v s x r).
Proof. intros H. exact H. Qed.

Lemma one_child_simulated_one (r : @MCTS_Node F) (k : Z) :
  one_child_simulated a k r -> has_one_child a r.
Proof. intros [Hrem [c [Hch _]]]. split; eauto. Qed.

(** The selection below a fully expanded root with one child goes into
    the child. *)
Lemma one_child_select (r : @MCTS_Node F) (path : Path) :
  has_one_child a r -> select_from r = Ok (Some path) -> path <> [].
Proof.
  intros [Hrem [c Hch]]. destruct r as [st rem ch v s x].
  cbn [remaining_actions children] in Hrem, Hch. subst rem ch.
  cbn [select_from remaining_actions children simulations map score_all fst snd].
  destruct (math_log s) as [ln|e]; [|discriminate].
  destruct (UCB1 c ln) as [u|e]; [|discriminate].
  cbn [first_max snd].
  destruct (select_from c) as [[p|]|e]; try discriminate.
  intros H. injection H as <-. discriminate.
Qed.
End OneChildFacts.

(* ================================================================== *)
(** ** The policies on a root with one child *)

Section Policies.
Context {F : Type} {PF : PyFloat F}.
Variables (player : PlayerID) (max_depth branching branching_depth : Z).
Variable expansion_branching : Z.
Variable a : Action.

Lemma hoare_node_at (P : @World F -> Prop) (path : Path) :
  hoare P (node_at path) (fun n w => get_node (root w) path = Some n /\ P w).
Proof.
  intros w HP n w' Hrun. unfold node_at in Hrun.
  destruct (get_node (root w) path) as [n0|] eqn:E; [|discriminate].
  injection Hrun as <- <-. auto.
Qed.

Lemma hoare_with_rng (A : Type) (R : @MCTS_Node F -> Prop) (m : M Rng A) :
  hoare (on_root R) (with_rng m) (fun _ => on_root R).
Proof.
  intros w HP x w' Hrun. unfold with_rng in Hrun.
  destruct (m (rng w)) as [r rng']. injection Hrun as _ <-. exact HP.
Qed.

Lemma hoare_with_rng_result (A : Type) (R : @MCTS_Node F -> Prop) (m : M Rng A) :
  hoare (on_root R) (with_rng m)
        (fun x w => on_root R w /\ exists rng0 rng1, m rng0 = (Ok x, rng1)).
Proof.
  intros w HP x w' Hrun. unfold with_rng in Hrun.
  destruct (m (rng w)) as [r rng'] eqn:E. injection Hrun as -> <-.
  split; [exact HP|eauto].
Qed.

Lemma hoare_set_node_at (R : @MCTS_Node F -> Prop) (path : Path)
    (n' : @MCTS_Node F) :
  hoare (fun w => R (set_node (root w) path n')) (set_node_at path n')
        (fun _ => on_root R).
Proof. intros w HP x w' Hrun. injection Hrun as _ <-. exact HP. Qed.

Lemma hoare_executed (P : @World F -> Prop) (st : GameState) (act : Action) :
  hoare P (executed st act) (fun _ => P).
Proof.
  intros w HP x w' Hrun. unfold executed in Hrun.
  destruct (execute act st) as [[r|e] st']; [|discriminate].
  injection Hrun as _ <-. exact HP.
Qed.

Lemma hoare_list_actions (P : @World F -> Prop) (st : GameState) :
  hoare P (list_actions st) (fun _ => P).
Proof.
  intros w HP x w' Hrun. unfold list_actions in Hrun.
  destruct (calc_available_actions (player_turn st) st) as [[acts|e] st'];
    [|discriminate].
  injection Hrun as _ <-. exact HP.
Qed.

Lemma hoare_lift_keep (A : Type) (P : @World F -> Prop) (o : outcome A) :
  hoare P (lift o) (fun _ => P).
Proof. intros w HP x w' Hrun. injection Hrun as _ <-. exact HP. Qed.

(** *** Every policy keeps the one child of the root *)

Lemma simulate_keeps (path : Path) :
  path <> [] ->
  hoare (on_root (has_one_child a))
        (simulate player max_depth branching branching_depth path)
        (fun _ => on_root (has_one_child a)).
Proof.
  intros Hpath. unfold simulate.
  eapply hoare_bind; [apply hoare_node_at|]. intros node.
  eapply hoare_bind; [apply hoare_list_actions|]. intros [actions st].
  eapply hoare_pre with (P' := on_root (has_one_child a));
    [|intros w [_ H]; exact H].
  eapply hoare_bind; [apply hoare_with_rng|]. intros results.
  eapply hoare_bind; [apply hoare_lift_keep|]. intros reward.
  eapply hoare_pre; [apply (hoare_set_node_at (has_one_child a))|].
  intros w H. apply one_child_set_node; assumption.
Qed.

Lemma backpropagate_rev_keeps (rev_path : Path) :
  hoare (on_root (has_one_child a)) (backpropagate_rev rev_path)
        (fun _ => on_root (has_one_child a)).
Proof.
  induction rev_path as [|b rev_parent IH]; cbn [backpropagate_rev].
  - apply hoare_ret. auto.
  - eapply hoare_bind; [apply hoare_node_at|]. intros node.
    eapply hoare_pre with (P' := on_root (has_one_child a));
      [|intros w [_ H]; exact H].
    eapply hoare_bind; [apply hoare_node_at|]. intros parent.
    eapply hoare_bind; [|intros u; exact IH].
    eapply hoare_pre; [apply (hoare_set_node_at (has_one_child a))|].
    intros w [Hget H]. apply one_child_update; assumption.
Qed.

Lemma backpropagate_keeps (path : Path) :
  hoare (on_root (has_one_child a)) (backpropagate path)
        (fun _ => on_root (has_one_child a)).
Proof. apply backpropagate_rev_keeps. Qed.

Lemma expand_one_keeps (path : Path) :
  path <> [] ->
  hoare (on_root (has_one_child a)) (expand_one path)
        (fun child w => on_root (has_one_child a) w /\ child <> []).
Proof.
  intros Hpath. unfold expand_one.
  eapply hoare_bind; [apply hoare_node_at|]. intros node.
  eapply hoare_pre with (P' := on_root (has_one_child a));
    [|intros w [_ H]; exact H].
  eapply hoare_bind; [apply hoare_with_rng|]. intros [action remaining].
  eapply hoare_bind.
  { eapply hoare_pre; [apply (hoare_set_node_at (has_one_child a))|].
    intros w H. apply one_child_set_node; assumption. }
  intros u.
  eapply hoare_bind; [apply hoare_executed|]. intros newstate.
  eapply hoare_bind; [apply hoare_lift_keep|]. intros child.
  eapply hoare_bind; [apply hoare_node_at|]. intros node2.
  eapply hoare_bind.
  { eapply hoare_pre; [apply (hoare_set_node_at (has_one_child a))|].
    intros w [_ H]. apply one_child_set_node; assumption. }
  intros u2. apply hoare_ret. intros w H. split; [exact H|].
  destruct path; discriminate.
Qed.

(** The loop of [run_one_iteration] over the new children. *)
Lemma expansion_loop_keeps (path : Path) (l : list nat) :
  path <> [] ->
  hoare (on_root (has_one_child a))
        (for_each l
           (fun _ => bind (expand_one path)
                       (fun child =>
                          bind (simulate player max_depth branching
                                         branching_depth child)
                               (fun _ => backpropagate child))))
        (fun _ => on_root (has_one_child a)).
Proof.
  intros Hpath. apply hoare_for_each. intros _.
  eapply hoare_bind; [apply expand_one_keeps; exact Hpath|]. intros child.
  intros w [H Hchild]. revert w H.
  change (hoare (on_root (has_one_child a))
            (bind (simulate player max_depth branching branching_depth child)
                  (fun _ => backpropagate child))
            (fun _ => on_root (has_one_child a))).
  eapply hoare_bind; [apply simulate_keeps; exact Hchild|].
  intros u. apply backpropagate_keeps.
Qed.

(** An iteration on a fully expanded root with one child keeps it so. *)
Lemma run_one_iteration_keeps :
  hoare (on_root (has_one_child a))
        (run_one_iteration player max_depth branching branching_depth
                           expansion_branching)
        (fun _ => on_root (has_one_child a)).
Proof.
  intros w HP b w' Hrun. unfold run_one_iteration in Hrun.
  unfold bind at 1 in Hrun. unfold get_self at 1 in Hrun.
  unfold bind at 1 in Hrun. unfold lift at 1 in Hrun.
  destruct (select_from (root w)) as [[path|]|e] eqn:Esel; [| |discriminate].
  - pose proof (one_child_select a (root w) path HP Esel) as Hpath.
    unfold bind at 1 in Hrun. unfold node_at at 1 in Hrun.
    destruct (get_node (root w) path) as [node|]; [|discriminate].
    unfold bind at 1 in Hrun. unfold assert at 1 in Hrun.
    destruct (negb (length (remaining_actions node) =? 0)%nat); [|discriminate].
    unfold ret at 1 in Hrun.
    unfold bind at 1 in Hrun.
    match type of Hrun with
    | context [for_each ?l ?body w] =>
        destruct (for_each l body w) as [[u|e] w1] eqn:Eloop; [|discriminate];
        pose proof (expansion_loop_keeps path l Hpath w HP u w1 Eloop) as H1
    end.
    injection Hrun as _ <-. exact H1.
  - injection Hrun as _ <-. exact HP.
Qed.
End Policies.

(* ================================================================== *)
(** ** The first iteration on a root with one action *)

Lemma pop_single (A : Type) (x : A) (rng0 rng1 : Rng) (r : A * list A) :
  pop_random_from_list [x] rng0 = (Ok r, rng1) -> r = (x, []).
Proof.
  unfold pop_random_from_list, bind, randint, ret.
  destruct rng0 as [|d rng0]; intros H.
  - injection H as <- _. reflexivity.
  - change (length [x]) with 1%nat in H. rewrite Nat.mod_1_r in H.
    injection H as <- _. reflexivity.
Qed.

Section FirstIteration.
Context {F : Type} {PF : PyFloat F}.
Variables (player : PlayerID) (max_depth branching branching_depth : Z).
Variable expansion_branching : Z.
Variable a : Action.

Lemma select_from_unexpanded (r : @MCTS_Node F) (x : Action) (l : list Action) :
  remaining_actions r = x :: l -> select_from r = Ok (Some []).
Proof.
  destruct r as [st rem ch v s rw]. cbn [remaining_actions]. intros ->.
  reflexivity.
Qed.

Lemma MCTS_Node_init_fresh (st : GameState) (n : @MCTS_Node F) :
  MCTS_Node_init st = Ok n ->
  children n = [] /\ simulations n = 0 /\ visited n = 0
  /\ fst (calc_available_actions (player_turn st) st) = Ok (remaining_actions n).
Proof.
  unfold MCTS_Node_init.
  assert (E : fst (calc_available_actions (player_turn (snd (freeze st)))
                                          (snd (freeze st)))
              = fst (calc_available_actions (player_turn st) st)).
  { rewrite !calc_available_actions_eq. destruct st as [pl t b mx fz].
    cbn [freeze snd player_turn board]. destruct (count b t); reflexivity. }
  destruct (calc_available_actions (player_turn (snd (freeze st)))
                                   (snd (freeze st))) as [[acts|e] st'];
    [|discriminate].
  cbn [fst] in E. intros H. injection H as <-. cbn [remaining_actions].
  auto.
Qed.

Lemma expand_one_first :
  hoare (fun w : @World F =>
           remaining_actions (root w) = [a] /\ children (root w) = [])
        (expand_one [])
        (fun child w => child = [a] /\ on_root (one_child_simulated a 0) w).
Proof.
  intros w [Hrem Hch] child w' Hrun. unfold expand_one in Hrun.
  unfold bind at 1 in Hrun. unfold node_at at 1 in Hrun.
  cbn [get_node] in Hrun.
  unfold bind at 1 in Hrun. unfold with_rng at 1 in Hrun.
  destruct (pop_random_from_list (remaining_actions (root w)) (rng w))
    as [[r|e] rng1] eqn:Epop; [|discriminate].
  rewrite Hrem in Epop. apply pop_single in Epop. subst r.
  unfold bind at 1 in Hrun. unfold set_node_at at 1 in Hrun.
  cbn [set_node root rng] in Hrun.
  unfold bind at 1 in Hrun. unfold executed at 1 in Hrun.
  destruct (execute a (clone (state (root w)))) as [[res|e] newstate];
    [|discriminate].
  unfold ret at 1 in Hrun.
  unfold bind at 1 in Hrun. unfold lift at 1 in Hrun.
  destruct (MCTS_Node_init newstate) as [c|e] eqn:Einit; [|discriminate].
  apply MCTS_Node_init_fresh in Einit as (_ & Hsims & _).
  unfold bind at 1 in Hrun. unfold node_at at 1 in Hrun.
  cbn [get_node root] in Hrun.
  unfold bind at 1 in Hrun. unfold set_node_at at 1 in Hrun.
  cbn [set_node root rng] in Hrun.
  unfold ret in Hrun. injection Hrun as <- <-.
  split; [reflexivity|]. unfold on_root, one_child_simulated.
  cbn [root remaining_actions children set_children set_remaining_actions].
  rewrite Hch. split; [reflexivity|]. exists c. split; [reflexivity|exact Hsims].
Qed.

Lemma simulate_first (k : Z) :
  hoare (on_root (F := F) (one_child_simulated a k))
        (simulate player max_depth branching branching_depth [a])
        (fun _ => on_root (one_child_simulated a (k + 1))).
Proof.
  intros w [Hrem [c [Hch Hs]]] u w' Hrun.
  unfold simulate in Hrun. unfold bind at 1 in Hrun. unfold node_at at 1 in Hrun.
  cbn [get_node] in Hrun. rewrite Hch in Hrun. cbn [dict_get] in Hrun.
  rewrite Action_eqb_refl in Hrun.
  unfold bind at 1 in Hrun.
  unfold list_actions at 1 in Hrun.
  destruct (calc_available_actions (player_turn (clone (state c)))
                                   (clone (state c))) as [[actions0|e] st0];
    [|discriminate].
  unfold ret at 1 in Hrun.
  unfold bind at 1 in Hrun. unfold with_rng at 1 in Hrun.
  destruct (_iter_simulate max_depth branching branching_depth st0
              actions0 (rng w)) as [[results0|e] rng1]; [|discriminate].
  unfold bind at 1 in Hrun. unfold lift at 1 in Hrun.
  destruct (reward_of player results0) as [reward|e]; [|discriminate].
  unfold set_node_at in Hrun. injection Hrun as _ Hw. subst w'.
  unfold on_root, one_child_simulated. cbn [root set_node].
  rewrite Hch. cbn [dict_get]. rewrite Action_eqb_refl.
  cbn [set_children remaining_actions children dict_set].
  rewrite Action_eqb_refl.
  split; [exact Hrem|]. eexists. split; [reflexivity|].
  cbn [set_stats simulations]. lia.
Qed.

Lemma backpropagate_first (k : Z) :
  hoare (on_root (F := F) (one_child_simulated a k))
        (backpropagate [a])
        (fun _ => on_root (one_child_simulated a k)).
Proof.
  unfold backpropagate. cbn [rev app backpropagate_rev].
  eapply hoare_bind; [apply hoare_node_at|]. intros node.
  eapply hoare_pre with (P' := on_root (one_child_simulated a k));
    [|intros w [_ H]; exact H].
  eapply hoare_bind; [apply hoare_node_at|]. intros parent.
  eapply hoare_bind.
  { eapply hoare_pre;
      [apply (hoare_set_node_at (one_child_simulated a k))|].
    intros w [Hget H]. cbn [get_node] in Hget. injection Hget as <-.
    cbn [set_node]. apply one_child_simulated_update. exact H. }
  intros u. apply hoare_ret. auto.
Qed.

(** The first iteration expands the one action of the root, simulates
    the child once and leaves its counter at [1]. *)
Lemma run_one_iteration_first :
  0 < expansion_branching ->
  hoare (fun w : @World F =>
           remaining_actions (root w) = [a] /\ children (root w) = [])
        (run_one_iteration player max_depth branching branching_depth
                           expansion_branching)
        (fun _ => on_root (one_child_simulated a 1)).
Proof.
  intros Heb w [Hrem Hch] b w' Hrun. unfold run_one_iteration in Hrun.
  unfold bind at 1 in Hrun. unfold get_self at 1 in Hrun.
  unfold bind at 1 in Hrun. unfold lift at 1 in Hrun.
  rewrite (select_from_unexpanded (root w) a [] Hrem) in Hrun.
  unfold bind at 1 in Hrun. unfold node_at at 1 in Hrun.
  cbn [get_node] in Hrun. rewrite Hrem in Hrun. cbn [length Nat.eqb negb] in Hrun.
  unfold bind at 1 in Hrun. unfold assert at 1 in Hrun. unfold ret at 1 in Hrun.
  replace (Nat.min (Z.to_nat expansion_branching) 1) with 1%nat in Hrun by lia.
  cbn [seq for_each] in Hrun.
  unfold bind at 1 in Hrun. unfold bind at 1 in Hrun. unfold bind at 1 in Hrun.
  destruct (expand_one [] w) as [[child|e] w1] eqn:Eexp; [|discriminate].
  destruct (expand_one_first w (conj Hrem Hch) child w1 Eexp) as [-> H1].
  unfold bind at 1 in Hrun.
  destruct (simulate player max_depth branching branching_depth [a] w1)
    as [[u|e] w2] eqn:Esim; [|discriminate].
  pose proof (simulate_first 0 w1 H1 u w2 Esim) as H2.
  destruct (backpropagate [a] w2) as [[u2|e] w3] eqn:Ebp; [|discriminate].
  pose proof (backpropagate_first (0 + 1) w2 H2 u2 w3 Ebp) as H3.
  unfold ret in Hrun. injection Hrun as _ <-. exact H3.
Qed.
End FirstIteration.

(* ================================================================== *)
(** ** Iterations on a root with one action *)

Section Iterations.
Context {F : Type} {PF : PyFloat F}.
Variables (player : PlayerID) (max_depth branching branching_depth : Z).
Variable expansion_branching : Z.

Lemma run_iterations_keeps (a : Action) (k n : nat) :
  hoare (on_root (F := F) (has_one_child a))
        (for_each (seq k n)
           (fun _ => bind (run_one_iteration player max_depth branching
                                             branching_depth expansion_branching)
                          (fun _ => ret tt)))
        (fun _ => on_root (has_one_child a)).
Proof.
  apply hoare_for_each. intros _.
  eapply hoare_bind; [apply run_one_iteration_keeps|].
  intros b. apply hoare_ret. auto.
Qed.

(** C2, as the code has it: from a root whose state has exactly one legal
    action, [N >= 1] iterations that return leave the root fully expanded
    with exactly one child, the one of that action; after the first
    iteration the [simulations] counter of that child is [1]. *)
Theorem single_action_iterations (game : GameState) (a : Action) (rng0 : Rng)
    (N : nat) (w0 w : @World F)
    (Hbranching : 0 < expansion_branching)
    (Hone : fst (calc_available_actions (player_turn game) game) = Ok [a])
    (Hinit : MCTS_init game rng0 = Ok w0)
    (HN : (1 <= N)%nat)
    (Hrun : run_iterations player max_depth branching branching_depth
                           expansion_branching N w0 = (Ok tt, w)) :
  has_one_child a (root w)
  /\ (N = 1%nat -> one_child_simulated a 1 (root w)).
Proof.
  assert (Hfresh : remaining_actions (root w0) = [a] /\ children (root w0) = []).
  { unfold MCTS_init in Hinit.
    destruct (MCTS_Node_init game) as [n|e] eqn:En; [|discriminate].
    injection Hinit as <-. cbn [root].
    apply MCTS_Node_init_fresh in En as (Hch & _ & _ & Hacts).
    rewrite Hone in Hacts. injection Hacts as <-. auto. }
  destruct N as [|n]; [lia|].
  unfold run_iterations in Hrun. cbn [seq for_each] in Hrun.
  unfold bind at 1 in Hrun. unfold bind at 1 in Hrun.
  destruct (run_one_iteration player max_depth branching branching_depth
              expansion_branching w0) as [[b|e] w1] eqn:E1; [|discriminate].
  pose proof (run_one_iteration_first player max_depth branching branching_depth
                expansion_branching a Hbranching w0 Hfresh b w1 E1) as H1.
  unfold ret at 1 in Hrun.
  split.
  - apply (run_iterations_keeps a 1 n w1
             (one_child_simulated_one a (root w1) 1 H1) tt w Hrun).
  - intros Hn. injection Hn as ->. cbn [seq for_each] in Hrun.
    unfold ret in Hrun. injection Hrun as <-. exact H1.
Qed.
End Iterations.

Lemma single_action_iterations_witness :
  has_one_child single_action (root (snd (example_search 3))).
Proof.
  apply (single_action_iterations (F := Q) 0 50 5 1 3 single_action_state
           single_action [] 3
           (mkWorld (mkNode (snd (freeze single_action_state)) [single_action] []
                            0 0 0%Q) [])
           (snd (example_search 3))).
  - lia.
  - vm_compute. reflexivity.
  - vm_compute. reflexivity.
  - lia.
  - vm_compute. reflexivity.
Defined.

(** C2, as it is stated, fails at [N = 2]: the one move of
    [single_action_state] leads to a state with seven actions; the second
    iteration expands three of them, and each backpropagation adds one to
    the counter of the root's child, which ends at [4]. *)
Lemma two_iterations_counterexample :
  fst (calc_available_actions (player_turn single_action_state)
                              single_action_state)
  = Ok [single_action]
  /\ fst (example_search 2) = Ok tt
  /\ exists c, children (root (snd (example_search 2))) = [(single_action, c)]
               /\ simulations c = 4
               /\ simulations c <> 2.
Proof.
  split; [vm_compute; reflexivity|].
  split; [vm_compute; reflexivity|].
  eexists. split; [vm_compute; reflexivity|].
  split; [reflexivity|discriminate].
Qed.


Unset Implicit Arguments.

(* ================================================================== *)
(** * Part III: further properties of the board design *)

Lemma length_range (n : Z) : length (range n) = Z.to_nat n.
Proof. unfold range. rewrite length_map, length_seq. reflexivity. Qed.

Lemma range_succ (n : Z) : 0 <= n -> range (n + 1) = range n ++ [n].
Proof.
  intros Hn. unfold range.
  replace (Z.to_nat (n + 1)) with (S (Z.to_nat n)) by lia.
  rewrite seq_S, map_app. cbn. rewrite Z2Nat.id by lia. reflexivity.
Qed.

Lemma length_flat_map_const (A B : Type) (f : A -> list B) (l : list A) (k : nat) :
  (forall x, In x l -> length (f x) = k) ->
  length (flat_map f l) = (length l * k)%nat.
Proof.
  induction l as [|x l IH]; intros H; [reflexivity|].
  cbn. rewrite length_app, (H x) by (cbn; auto).
  rewrite IH by (intros y Hy; apply H; cbn; auto). reflexivity.
Qed.

(** The odd indices of a ring of [2 * s] positions are [s] many. *)
Lemma odd_indices (s : nat) :
  length (flat_map (fun i => if i mod 2 =? 1 then [cross_line i] else [])
                   (range (2 * Z.of_nat s))) = s.
Proof.
  induction s as [|s IH]; [reflexivity|].
  replace (2 * Z.of_nat (S s)) with (2 * Z.of_nat s + 1 + 1) by lia.
  rewrite (range_succ (2 * Z.of_nat s + 1)) by lia.
  rewrite (range_succ (2 * Z.of_nat s)) by lia.
  rewrite !flat_map_app, !length_app, IH. cbn [flat_map app].
  replace ((2 * Z.of_nat s) mod 2) with 0 by zlia.
  replace ((2 * Z.of_nat s + 1) mod 2) with 1 by zlia.
  cbn. lia.
Qed.

(** [iter_fields] yields every position of the board once: the positions
    with a ring in [0..2] and an index in [0..ring_size-1], three rings of
    [ring_size] positions. *)
Theorem iter_fields_enumerates (d : DefaultBoardDesign) :
  NoDup (iter_fields d)
  /\ (forall p, In p (iter_fields d) <-> valid_pos d p)
  /\ length (iter_fields d) = (3 * Z.to_nat (ring_size d))%nat.
Proof.
  split; [apply NoDup_iter_fields|].
  split; [apply in_iter_fields|].
  unfold iter_fields.
  rewrite (length_flat_map_const _ _ _ _ (Z.to_nat (ring_size d))).
  - rewrite length_range. reflexivity.
  - intros r _. rewrite length_map. apply length_range.
Qed.

(** A board of [n] sides has [3 * n] lines along its rings and one line
    across the rings at every odd index, at every index when [extended]:
    [4 * n] lines, or [5 * n]. *)
Theorem iter_lines_count (d : DefaultBoardDesign) (Hsides : 0 <= sides d) :
  length (iter_lines d)
  = Z.to_nat (if extended d then 5 * sides d else 4 * sides d).
Proof.
  unfold iter_lines. rewrite length_app.
  rewrite (length_flat_map_const _ _ _ _ (Z.to_nat (sides d)))
    by (intros r _; rewrite length_map; apply length_range).
  rewrite length_range.
  destruct (extended d) eqn:E; cbn [orb].
  - rewrite (length_flat_map_const _ _ _ _ 1%nat) by reflexivity.
    rewrite length_range. unfold ring_size. lia.
  - unfold ring_size.
    rewrite <- (Z2Nat.id (sides d)) at 2 by lia.
    change (fun i : Z => if i mod 2 =? 1 then [(Pos 0 i, Pos 1 i, Pos 2 i)] else [])
      with (fun i : Z => if i mod 2 =? 1 then [cross_line i] else []).
    rewrite odd_indices. lia.
Qed.

Lemma iter_lines_count_witness :
  length (iter_lines (Design 4 false)) = 16%nat.
Proof. apply (iter_lines_count (Design 4 false)). cbn. lia. Defined.

(** Two board positions are linked exactly when they are one step apart:
    at distance [(0, 1)] on a ring, or at distance [(1, 0)] across the
    rings where the index carries a link (odd, or any on an extended
    board). *)
Theorem is_linked_to_distance_between (d : DefaultBoardDesign) (p q : Position)
    (Hsides : 3 <= sides d) (Hp : valid_pos d p) (Hq : valid_pos d q) :
  is_linked_to d p q = true
  <-> (distance_between d p q = (0, 1)
       \/ (distance_between d p q = (1, 0)
           /\ (extended d || (index p mod 2 =? 1)) = true)).
Proof.
  pose proof (ring_size_ge d Hsides) as Hn.
  destruct Hp as [Hpr Hpi], Hq as [Hqr Hqi].
  unfold is_linked_to, distance_between.
  destruct (Z.eqb_spec (ring p) (ring q)) as [Er|Er].
  - rewrite (linked_mod Hn Hpi Hqi). split.
    + intros H. left. f_equal; lia.
    + intros [H|[H _]]; injection H as H1 H2; lia.
  - destruct (Z.eqb_spec (index p) (index q)) as [Ei|Ei].
    + destruct (extended d || (index p mod 2 =? 1)) eqn:Ex.
      * rewrite Z.eqb_eq. split.
        -- intros H. right. split; [|reflexivity]. f_equal; lia.
        -- intros [H|[H _]]; injection H as H1 H2; lia.
      * split; [discriminate|].
        intros [H|[H Hx]]; [injection H as H1 H2; lia|discriminate].
    + split; [discriminate|].
      intros [H|[H _]]; injection H as H1 H2; lia.
Qed.

Lemma is_linked_to_distance_between_witness :
  is_linked_to (Design 4 false) (Pos 0 7) (Pos 0 0) = true
  <-> (distance_between (Design 4 false) (Pos 0 7) (Pos 0 0) = (0, 1)
       \/ (distance_between (Design 4 false) (Pos 0 7) (Pos 0 0) = (1, 0)
           /\ (extended (Design 4 false) || (index (Pos 0 7) mod 2 =? 1)) = true)).
Proof.
  apply (is_linked_to_distance_between (Design 4 false) (Pos 0 7) (Pos 0 0)).
  - cbn. lia.
  - unfold valid_pos. cbn. lia.
  - unfold valid_pos. cbn. lia.
Defined.

(** The position [get_third_in_line] returns for two board positions is a
    board position different from both, and the call on any two of the
    three returns the remaining one. *)
Theorem get_third_in_line_round_trip (d : DefaultBoardDesign) (a b c : Position)
    (Hsides : 3 <= sides d) (Ha : valid_pos d a) (Hb : valid_pos d b)
    (Hc : get_third_in_line d a b = Ok c) :
  valid_pos d c /\ c <> a /\ c <> b /\ a <> b
  /\ get_third_in_line d a c = Ok b
  /\ get_third_in_line d b c = Ok a.
Proof.
  destruct (@third_ok_line d Hsides a b c Ha Hb Hc) as (t & Ht & Hperm).
  pose proof (@iter_lines_NoDup d Hsides t Ht) as Hnd.
  assert (Hnd3 : NoDup [a; b; c]) by (eapply Permutation_NoDup; eauto).
  assert (Hin : forall x, In x [a; b; c] -> In x (line_members t)).
  { intros x Hx. eapply Permutation_in; [apply Permutation_sym; exact Hperm|exact Hx]. }
  assert (Hac : a <> c).
  { inversion Hnd3 as [|? ? Hna _]. intros ->. apply Hna. cbn; auto. }
  assert (Hbc : b <> c).
  { inversion Hnd3 as [|? ? _ Hnd2]. inversion Hnd2 as [|? ? Hnb _].
    intros ->. apply Hnb. cbn; auto. }
  assert (Hab : a <> b).
  { inversion Hnd3 as [|? ? Hna _]. intros ->. apply Hna. cbn; auto. }
  assert (Hthird : forall x y z, Permutation [a; b; c] [x; y; z] ->
                                 get_third_in_line d x y = Ok z).
  { intros x y z Hxyz.
    assert (Hnd' : NoDup [x; y; z]) by (eapply Permutation_NoDup; eauto).
    assert (Hxy : x <> y).
    { inversion Hnd' as [|? ? Hnx _]. intros ->. apply Hnx. cbn; auto. }
    assert (Hperm' : Permutation (line_members t) [x; y; z])
      by (eapply Permutation_trans; eauto).
    assert (Hx : In x (line_members t))
      by (eapply Permutation_in; [apply Permutation_sym; exact Hperm'|cbn; auto]).
    assert (Hy : In y (line_members t))
      by (eapply Permutation_in; [apply Permutation_sym; exact Hperm'|cbn; auto]).
    destruct (@third_of_line d Hsides t x y Ht Hx Hy Hxy) as (z' & Hz' & Hp').
    rewrite Hz'. f_equal.
    assert (Hpz : Permutation [x; y; z'] [x; y; z])
      by (eapply Permutation_trans; [apply Permutation_sym; exact Hp'|exact Hperm']).
    apply Permutation_cons_inv in Hpz. apply Permutation_cons_inv in Hpz.
    apply Permutation_length_1 in Hpz. exact Hpz. }
  split; [apply (@iter_lines_valid d Hsides t c Ht); apply Hin; cbn; auto|].
  split; [congruence|]. split; [congruence|]. split; [exact Hab|].
  split.
  - apply Hthird. apply perm_skip. apply perm_swap.
  - apply Hthird.
    eapply Permutation_trans; [apply perm_swap|]. apply perm_skip. apply perm_swap.
Qed.

Lemma get_third_in_line_round_trip_witness :
  get_third_in_line (Design 4 false) (Pos 0 7) (Pos 0 6) = Ok (Pos 0 0)
  /\ get_third_in_line (Design 4 false) (Pos 0 6) (Pos 0 0) = Ok (Pos 0 7).
Proof.
  destruct (get_third_in_line_round_trip (Design 4 false) (Pos 0 7) (Pos 0 0) (Pos 0 6))
    as (_ & _ & _ & _ & H1 & H2).
  - cbn. lia.
  - unfold valid_pos. cbn. lia.
  - unfold valid_pos. cbn. lia.
  - reflexivity.
  - split; [exact H1|exact H2].
Defined.

Ltac not_in_tac :=
  cbn [In]; let X := fresh "X" in
  intros X; repeat (destruct X as [X|X]; [injection X; intros; lia|]); exact X.

(** A board position has between two and four neighbours, all different,
    and is not its own neighbour. *)
Theorem neighbors_of_distinct (d : DefaultBoardDesign) (p : Position)
    (Hsides : 3 <= sides d) (Hp : valid_pos d p) :
  NoDup (neighbors_of d p)
  /\ ~ In p (neighbors_of d p)
  /\ (2 <= length (neighbors_of d p) <= 4)%nat.
Proof.
  pose proof (ring_size_ge d Hsides) as Hn.
  destruct Hp as [Hr Hi]. destruct p as [r i]. cbn [ring index] in *.
  unfold neighbors_of. cbn [ring index].
  rewrite (@mod_wrap (ring_size d) (i - 1)) by lia.
  rewrite (@mod_wrap (ring_size d) (i + 1)) by lia.
  destruct (extended d || (i mod 2 =? 1));
    destruct (Z.gtb_spec r 0); destruct (Z.ltb_spec r 2);
    destruct (Z.ltb_spec (i - 1) 0); destruct (Z.ltb_spec (i - 1) (ring_size d));
    destruct (Z.ltb_spec (i + 1) 0); destruct (Z.ltb_spec (i + 1) (ring_size d));
    try lia; cbn [app length];
    (split; [repeat constructor; not_in_tac|split; [not_in_tac|lia]]).
Qed.

Lemma neighbors_of_distinct_witness :
  NoDup (neighbors_of (Design 4 false) (Pos 1 1))
  /\ length (neighbors_of (Design 4 false) (Pos 1 1)) = 4%nat.
Proof.
  destruct (neighbors_of_distinct (Design 4 false) (Pos 1 1)) as (H & _ & _).
  - cbn. lia.
  - unfold valid_pos. cbn. lia.
  - split; [exact H|reflexivity].
Defined.


Unset Implicit Arguments.

(* ================================================================== *)
(** * Part IV: the calls of the board *)

Section DictMore.
Variables (K V : Type) (eqb : K -> K -> bool).
Hypothesis eqb_eq : forall a b, eqb a b = true <-> a = b.

Lemma dict_eqb_refl (k : K) : eqb k k = true.
Proof. apply eqb_eq. reflexivity. Qed.

Lemma dict_eqb_neq (k k' : K) : k <> k' -> eqb k k' = false.
Proof.
  intros H. destruct (eqb k k') eqn:E; [|reflexivity].
  apply eqb_eq in E. contradiction.
Qed.

Lemma dict_get_set_eq (d : dict K V) (k : K) (v : V) :
  dict_get eqb (dict_set eqb d k v) k = Some v.
Proof.
  induction d as [|[k' v'] d IH]; cbn.
  - rewrite dict_eqb_refl. reflexivity.
  - destruct (eqb k' k) eqn:E; cbn; rewrite E; auto.
Qed.

Lemma dict_get_set_neq (d : dict K V) (k k' : K) (v : V) :
  k <> k' -> dict_get eqb (dict_set eqb d k v) k' = dict_get eqb d k'.
Proof.
  intros Hne. induction d as [|[k0 v0] d IH]; cbn.
  - rewrite dict_eqb_neq by assumption. reflexivity.
  - destruct (eqb k0 k) eqn:E; cbn.
    + apply eqb_eq in E. subst k0. rewrite dict_eqb_neq by assumption.
      reflexivity.
    + destruct (eqb k0 k'); auto.
Qed.

Lemma dict_del_app_fresh (d : dict K V) (k : K) (v : V) :
  dict_get eqb d k = None -> dict_del eqb (d ++ [(k, v)]) k = d.
Proof.
  induction d as [|[k0 v0] d IH]; cbn.
  - rewrite dict_eqb_refl. reflexivity.
  - destruct (eqb k0 k) eqn:E; [discriminate|]. intros H. f_equal. auto.
Qed.

Lemma dict_set_NoDup (d : dict K V) (k : K) (v : V) :
  NoDup (dict_keys d) -> NoDup (dict_keys (dict_set eqb d k v)).
Proof.
  unfold dict_keys. induction d as [|[k0 v0] d IH]; cbn; intros H.
  - constructor; [intros []|constructor].
  - destruct (eqb k0 k) eqn:E; cbn; [exact H|].
    inversion H as [|? ? Hn Hd]; subst. constructor; [|auto].
    intros Hin. apply Hn. clear IH H Hn Hd.
    induction d as [|[k1 v1] d IH]; cbn in *.
    + destruct Hin as [Hin|[]]. subst k0. rewrite dict_eqb_refl in E. discriminate.
    + destruct (eqb k1 k) eqn:E1; cbn in Hin; [exact Hin|].
      destruct Hin as [Hin|Hin]; auto.
Qed.
End DictMore.

Lemma list_set_restore (A : Type) (l : list A) (i : nat) (c x : A) :
  nth_error l i = Some c -> list_set (list_set l i x) i c = l.
Proof.
  revert i. induction l as [|y l IH]; intros [|i]; cbn; intros H;
    try discriminate.
  - injection H as ->. reflexivity.
  - f_equal. auto.
Qed.

Lemma list_get_nth_error (A : Type) (l : list A) (i : nat) (x : A) :
  list_get l i = Ok x <-> nth_error l i = Some x.
Proof.
  unfold list_get. destruct (nth_error l i); split; intros H;
    try discriminate; congruence.
Qed.

Lemma dict_mem_get (d : Fields) (pos : Position) :
  dict_mem Position_eqb d pos = false <-> dict_get Position_eqb d pos = None.
Proof.
  unfold dict_mem. destruct (dict_get Position_eqb d pos); split; intros H;
    try discriminate; reflexivity.
Qed.

(** ** Counters read and written through a Python index *)

Lemma list_getitem_set_same (A : Type) (l : list A) (k : nat) (x : A) (p : Z) :
  py_index (length l) p = Some k ->
  list_getitem (list_set l k x) p = Ok x.
Proof.
  intros Hk. unfold list_getitem. rewrite length_list_set, Hk.
  apply list_get_set_eq. eapply py_index_lt. exact Hk.
Qed.

Lemma list_getitem_set_other (A : Type) (l : list A) (k : nat) (x : A) (p : Z) :
  py_index (length l) p <> Some k ->
  list_getitem (list_set l k x) p = list_getitem l p.
Proof.
  intros Hk. unfold list_getitem. rewrite length_list_set.
  destruct (py_index (length l) p) as [j|]; [|reflexivity].
  apply list_get_set_neq. congruence.
Qed.

Lemma list_getitem_index (A : Type) (l : list A) (p : Z) (k : nat) :
  py_index (length l) p = Some k -> list_getitem l p = list_get l k.
Proof. intros Hk. unfold list_getitem. rewrite Hk. reflexivity. Qed.

Lemma remove_Ok_index (pos : Position) (piece : Piece) (b : GameBoard)
    (k : nat) (c : Z) :
  dict_get Position_eqb (fields b) pos = Some piece ->
  py_index (length (_count b)) (playerID piece) = Some k ->
  list_get (_count b) k = Ok c ->
  remove pos b
  = (Ok (Some piece),
     mkGameBoard (design b) (dict_del Position_eqb (fields b) pos)
                 (list_set (_count b) k (c - 1))).
Proof.
  intros Hget Hk Hc. unfold remove. unfold_m. rewrite Hget. cbn.
  unfold list_getitem, list_setitem. rewrite Hk, Hc. reflexivity.
Qed.

(* ================================================================== *)
(** ** place *)

(** A [place] that returns has put the piece on a position that was empty:
    the position now holds the piece and every other position holds what it
    held.  The counter the piece's [playerID] indexes has gone up by one,
    for every id that indexes it (a negative id counts from the end of
    [_count], so [-1] indexes the counter of player [1]), and the other
    counters stay. *)
Theorem place_get (pos : Position) (piece : Piece) (b b' : GameBoard)
    (Hplace : place pos piece b = (Ok tt, b')) :
  get b pos = None
  /\ get b' pos = Some piece
  /\ (forall q, q <> pos -> get b' q = get b q)
  /\ design b' = design b
  /\ length (_count b') = length (_count b)
  /\ exists c,
       count b (playerID piece) = Ok c
       /\ count b' (playerID piece) = Ok (c + 1)
       /\ (forall p, py_index (length (_count b)) p
                     = py_index (length (_count b)) (playerID piece) ->
                     count b' p = Ok (c + 1))
       /\ (forall p, py_index (length (_count b)) p
                     <> py_index (length (_count b)) (playerID piece) ->
                     count b' p = count b p).
Proof.
  destruct (place_inv pos piece b b' Hplace) as (k & c & Hnone & Hk & Hc & ->).
  unfold get, count. cbn [fields _count design].
  rewrite <- (@dict_set_fresh _ _ Position_eqb (fields b) pos piece Hnone).
  split; [exact Hnone|].
  split; [apply (dict_get_set_eq _ _ Position_eqb Position_eqb_eq)|].
  split; [intros q Hq; apply (dict_get_set_neq _ _ Position_eqb Position_eqb_eq);
          congruence|].
  split; [reflexivity|].
  split; [apply length_list_set|].
  exists c.
  split; [rewrite (list_getitem_index _ _ _ _ Hk); exact Hc|].
  split; [apply list_getitem_set_same; exact Hk|].
  split.
  - intros p Hp. apply list_getitem_set_same. congruence.
  - intros p Hp. apply list_getitem_set_other. congruence.
Qed.

Lemma place_get_witness :
  get (snd (place (Pos 0 2) (mkPiece (-1)) (board placing_state))) (Pos 0 2)
  = Some (mkPiece (-1))
  /\ count (snd (place (Pos 0 2) (mkPiece (-1)) (board placing_state))) 1 = Ok 3.
Proof.
  destruct (place_get (Pos 0 2) (mkPiece (-1)) (board placing_state)
              (snd (place (Pos 0 2) (mkPiece (-1)) (board placing_state))))
    as (_ & H & _ & _ & _ & c & Hc & _ & Hsame & _).
  - reflexivity.
  - split; [exact H|]. injection Hc as <-. apply (Hsame 1). reflexivity.
Defined.

(** [remove] undoes [place]: removing the position just placed on returns
    the piece and leaves the board as it was before the [place]. *)
Theorem place_remove_round_trip (pos : Position) (piece : Piece) (b b' : GameBoard)
    (Hplace : place pos piece b = (Ok tt, b')) :
  remove pos b' = (Ok (Some piece), b).
Proof.
  destruct (place_inv pos piece b b' Hplace) as (k & c & Hnone & Hk & Hc & ->).
  assert (Hlt : (k < length (_count b))%nat)
    by (eapply list_get_Ok; exact Hc).
  rewrite (remove_Ok_index pos piece _ k (c + 1)); cbn [fields _count design].
  - rewrite (dict_del_app_fresh _ _ Position_eqb Position_eqb_eq _ _ _ Hnone).
    replace (c + 1 - 1) with c by lia.
    rewrite list_set_restore by (apply list_get_nth_error; exact Hc).
    destruct b; reflexivity.
  - rewrite <- (@dict_set_fresh _ _ Position_eqb (fields b) pos piece Hnone).
    apply (dict_get_set_eq _ _ Position_eqb Position_eqb_eq).
  - rewrite length_list_set. exact Hk.
  - apply list_get_set_eq. exact Hlt.
Qed.

Lemma place_remove_round_trip_witness :
  remove (Pos 0 2) (snd (place (Pos 0 2) P0 (board placing_state)))
  = (Ok (Some P0), board placing_state).
Proof.
  apply (place_remove_round_trip (Pos 0 2) P0 (board placing_state)).
  reflexivity.
Defined.

(** A piece whose [playerID] indexes no counter: [place] raises
    [IndexError] on the counter after it has put the piece on the board, so
    the piece stays there uncounted. *)
Theorem place_unknown_player (pos : Position) (piece : Piece) (b : GameBoard)
    (Hempty : is_empty b pos = true)
    (Hplayer : Z.of_nat (length (_count b)) <= playerID piece
               \/ playerID piece < - Z.of_nat (length (_count b))) :
  exists b', place pos piece b = (Raise IndexError, b')
             /\ get b' pos = Some piece
             /\ _count b' = _count b.
Proof.
  unfold is_empty in Hempty. apply negb_true_iff in Hempty.
  unfold place. unfold_m. rewrite Hempty. cbn.
  unfold list_getitem.
  destruct (py_index (length (_count b)) (playerID piece)) as [k|] eqn:Hk.
  - exfalso. revert Hk. unfold py_index.
    destruct (playerID piece <? 0) eqn:E.
    + destruct ((0 <=? playerID piece + Z.of_nat (length (_count b)))
                && (playerID piece + Z.of_nat (length (_count b))
                    <? Z.of_nat (length (_count b)))) eqn:E'; [|discriminate].
      apply andb_prop in E'. lia.
    + destruct ((0 <=? playerID piece)
                && (playerID piece <? Z.of_nat (length (_count b)))) eqn:E';
        [|discriminate].
      apply andb_prop in E'. lia.
  - eexists. split; [reflexivity|]. split; [|reflexivity].
    unfold get. cbn. apply (dict_get_set_eq _ _ Position_eqb Position_eqb_eq).
Qed.

Lemma place_unknown_player_witness :
  exists b', place (Pos 0 2) (mkPiece 2) (board placing_state)
             = (Raise IndexError, b')
             /\ get b' (Pos 0 2) = Some (mkPiece 2)
             /\ _count b' = _count (board placing_state).
Proof.
  apply (place_unknown_player (Pos 0 2) (mkPiece 2) (board placing_state)).
  - reflexivity.
  - cbn. lia.
Defined.

(** A call of the board that raises anything but [IndexError] has left the
    board as it was, and what it raises then is [AssertionError], or
    [KeyError] for a [jump] or [move] from an empty position. *)
Theorem failed_call_keeps_board (op : BoardOp) (b b' : GameBoard) (e : Exn)
    (Hfail : run_op op b = (Raise e, b'))
    (He : e <> IndexError) :
  b' = b /\ (e = AssertionError \/ e = KeyError).
Proof.
  assert (Hjump : forall s t, jump s t b = (Raise e, b') ->
                              b' = b /\ (e = AssertionError \/ e = KeyError)).
  { intros s t. unfold jump. unfold_m.
    destruct (dict_mem Position_eqb (fields b) t); cbn.
    - intros H. injection H as <- <-. auto.
    - destruct (dict_get Position_eqb (fields b) s); [discriminate|].
      intros H. injection H as <- <-. auto. }
  destruct op as [pos piece|s t|s t|pos]; unfold run_op in Hfail.
  - revert Hfail. unfold place. unfold_m.
    destruct (dict_mem Position_eqb (fields b) pos); cbn.
    + intros H. injection H as <- <-. auto.
    + unfold list_getitem, list_setitem.
      destruct (py_index (length (_count b)) (playerID piece)) as [k|].
      * unfold list_get. destruct (nth_error (_count b) k); [discriminate|].
        intros H. injection H as <- _. contradiction.
      * intros H. injection H as <- _. contradiction.
  - revert Hfail. unfold move. unfold bind at 1. unfold get_self at 1.
    unfold bind at 1. unfold assert.
    destruct (is_linked_to (design b) s t); cbn.
    + apply Hjump.
    + intros H. injection H as <- <-. auto.
  - apply (Hjump s t Hfail).
  - revert Hfail. unfold bind at 1.
    destruct (remove pos b) as [[r|e'] b1] eqn:Hr; [discriminate|].
    intros H. injection H as <- <-. revert Hr. unfold remove. unfold_m.
    destruct (dict_get Position_eqb (fields b) pos) as [piece|]; cbn;
      [|discriminate].
    unfold list_getitem, list_setitem.
    destruct (py_index (length (_count b)) (playerID piece)) as [k|].
    + unfold list_get. destruct (nth_error (_count b) k); [discriminate|].
      intros H. injection H as <- _. contradiction.
    + intros H. injection H as <- _. contradiction.
Qed.

Lemma failed_call_keeps_board_witness :
  snd (run_op (OpJump (Pos 2 2) (Pos 0 2)) (board placing_state))
  = board placing_state.
Proof.
  destruct (failed_call_keeps_board (OpJump (Pos 2 2) (Pos 0 2))
              (board placing_state)
              (snd (run_op (OpJump (Pos 2 2) (Pos 0 2)) (board placing_state)))
              KeyError) as [H _].
  - reflexivity.
  - discriminate.
  - exact H.
Defined.

(* ================================================================== *)
(** ** jump, move and remove *)

(** A [jump] that returns has taken the piece of the start position to the
    end position, which was empty: the start is empty now, no other
    position has changed and no counter has. *)
Theorem jump_get (start end_ : Position) (b b' : GameBoard)
    (Hkeys : NoDup (dict_keys (fields b)))
    (Hjump : jump start end_ b = (Ok tt, b')) :
  exists piece,
    get b start = Some piece
    /\ get b end_ = None
    /\ get b' end_ = Some piece
    /\ get b' start = None
    /\ (forall q, q <> start -> q <> end_ -> get b' q = get b q)
    /\ _count b' = _count b
    /\ design b' = design b
    /\ NoDup (dict_keys (fields b')).
Proof.
  destruct (jump_inv start end_ b b' Hjump) as (piece & Hnone & Hget & ->).
  exists piece. unfold get. cbn [fields _count design].
  assert (Hne : end_ <> start) by (intros ->; congruence).
  split; [exact Hget|]. split; [exact Hnone|].
  split; [apply (dict_get_set_eq _ _ Position_eqb Position_eqb_eq)|].
  split.
  { rewrite (dict_get_set_neq _ _ Position_eqb Position_eqb_eq) by exact Hne.
    apply (@dict_del_same _ _ Position_eqb Position_eqb_eq (fields b) start Hkeys). }
  split.
  { intros q Hqs Hqe.
    rewrite (dict_get_set_neq _ _ Position_eqb Position_eqb_eq) by congruence.
    apply (@dict_del_other _ _ Position_eqb Position_eqb_eq (fields b) start q).
    congruence. }
  split; [reflexivity|]. split; [reflexivity|].
  apply dict_set_NoDup; [exact Position_eqb_eq|].
  apply (@dict_del_NoDup _ _ Position_eqb (fields b) start Hkeys).
Qed.

Lemma jump_get_witness :
  exists piece,
    get (board placing_state) (Pos 0 1) = Some piece
    /\ get (snd (jump (Pos 0 1) (Pos 2 2) (board placing_state))) (Pos 2 2)
       = Some piece
    /\ get (snd (jump (Pos 0 1) (Pos 2 2) (board placing_state))) (Pos 0 1) = None.
Proof.
  destruct (jump_get (Pos 0 1) (Pos 2 2) (board placing_state)
              (snd (jump (Pos 0 1) (Pos 2 2) (board placing_state))))
    as (piece & H1 & _ & H2 & H3 & _).
  - cbn. repeat constructor; cbn; intros H;
      repeat (destruct H as [H|H]; [discriminate|]); exact H.
  - reflexivity.
  - exists piece. auto.
Defined.

(** [iter_available_moves] yields the targets [move] accepts: from an
    occupied board position, [move] to a board position returns exactly
    when [iter_available_moves] of the start yields that position, and it
    then does what [jump] does. *)
Theorem move_iter_available_moves (start end_ : Position) (b : GameBoard)
    (Hsides : 3 <= sides (design b))
    (Hstart : valid_pos (design b) start) (Hend : valid_pos (design b) end_)
    (Hpiece : get b start <> None) :
  (In end_ (iter_available_moves b start)
   <-> exists b', move start end_ b = (Ok tt, b'))
  /\ (forall b', move start end_ b = (Ok tt, b') -> jump start end_ b = (Ok tt, b')).
Proof.
  assert (Hmove : forall b', move start end_ b = (Ok tt, b') ->
                             is_linked_to (design b) start end_ = true
                             /\ jump start end_ b = (Ok tt, b')).
  { intros b'. unfold move. unfold bind at 1. unfold get_self at 1.
    unfold bind at 1. unfold assert.
    destruct (is_linked_to (design b) start end_); cbn; [auto|discriminate]. }
  split; [|intros b' H; apply (Hmove b' H)].
  rewrite in_iter_available_moves.
  rewrite (@neighbors_of_linked (design b) Hsides start end_ Hstart Hend).
  split.
  - intros [Hl Hmem].
    destruct (get b start) as [piece|] eqn:Hget; [|contradiction].
    rewrite (move_Ok start end_ b Hl).
    rewrite (jump_Ok start end_ piece b Hmem Hget). eexists. reflexivity.
  - intros [b' H]. destruct (Hmove b' H) as [Hl Hj]. split; [exact Hl|].
    destruct (jump_inv start end_ b b' Hj) as (piece & Hnone & _).
    apply dict_mem_get. exact Hnone.
Qed.

Lemma move_iter_available_moves_witness :
  In (Pos 0 2) (iter_available_moves (board placing_state) (Pos 0 1))
  <-> exists b', move (Pos 0 1) (Pos 0 2) (board placing_state) = (Ok tt, b').
Proof.
  apply (move_iter_available_moves (Pos 0 1) (Pos 0 2) (board placing_state)).
  - cbn. lia.
  - unfold valid_pos. cbn. lia.
  - unfold valid_pos. cbn. lia.
  - discriminate.
Defined.

(** [remove] returns the piece of the position, or [None] for an empty
    position, which it leaves alone; afterwards the position is empty and
    every other position holds what it held. *)
Theorem remove_get (pos : Position) (r : option Piece) (b b' : GameBoard)
    (Hkeys : NoDup (dict_keys (fields b)))
    (Hremove : remove pos b = (Ok r, b')) :
  r = get b pos
  /\ get b' pos = None
  /\ (forall q, q <> pos -> get b' q = get b q)
  /\ (r = None -> b' = b)
  /\ (forall piece, r = Some piece ->
        exists c, count b (playerID piece) = Ok c
                  /\ count b' (playerID piece) = Ok (c - 1)).
Proof.
  destruct (remove_inv pos r b b' Hremove) as [Hr Hb].
  split; [exact Hr|]. destruct r as [piece|].
  - destruct Hb as (k & c & Hk & Hc & ->). unfold get, count. cbn [fields _count].
    split; [apply (@dict_del_same _ _ Position_eqb Position_eqb_eq _ _ Hkeys)|].
    split; [intros q Hq;
            apply (@dict_del_other _ _ Position_eqb Position_eqb_eq _ pos q);
            congruence|].
    split; [discriminate|].
    intros piece' H. injection H as <-. exists c.
    split; [rewrite (list_getitem_index _ _ _ _ Hk); exact Hc|].
    apply list_getitem_set_same. exact Hk.
  - subst b'. split; [unfold get; congruence|].
    split; [reflexivity|]. split; [reflexivity|discriminate].
Qed.

Lemma remove_get_witness :
  get (snd (remove (Pos 1 3) (board placing_state))) (Pos 1 3) = None
  /\ fst (remove (Pos 1 3) (board placing_state)) = Ok (Some P1).
Proof.
  destruct (remove_get (Pos 1 3) (Some P1) (board placing_state)
              (snd (remove (Pos 1 3) (board placing_state))))
    as (_ & H & _).
  - cbn. repeat constructor; cbn; intros H;
      repeat (destruct H as [H|H]; [discriminate|]); exact H.
  - reflexivity.
  - split; [exact H|reflexivity].
Defined.



(* ================================================================== *)
(** ** Mills *)

Lemma forallb_Permutation (A : Type) (f : A -> bool) (l l' : list A) :
  Permutation l l' -> forallb f l = forallb f l'.
Proof.
  induction 1; cbn; try congruence.
  destruct (f x), (f y); reflexivity.
Qed.

Lemma filter_partition (A : Type) (f g : A -> bool) (l : list A) :
  Permutation (filter (fun e => f e && g e) l
               ++ filter (fun e => f e && negb (g e)) l)
              (filter f l).
Proof.
  induction l as [|x l IH]; cbn; [constructor|].
  destruct (f x), (g x); cbn.
  - constructor. exact IH.
  - apply Permutation_sym. apply Permutation_cons_app. apply Permutation_sym.
    exact IH.
  - exact IH.
  - exact IH.
Qed.

Lemma mill_pieces_Permutation (b : GameBoard) (p : PlayerID) :
  Permutation (iter_pieces_inside_mill b p ++ iter_pieces_outside_mill b p)
              (iter_pieces b p).
Proof.
  unfold iter_pieces_inside_mill, iter_pieces_outside_mill, iter_pieces.
  apply (filter_partition _ (fun e => (playerID (snd e) =? p))
           (fun e => existsb (Position_eqb (fst e)) (all_mills_pos b p))).
Qed.

(** The pieces of a player inside a mill and those outside are together
    the pieces of the player, and no piece is both. *)
Theorem mill_pieces_partition (b : GameBoard) (p : PlayerID) :
  Permutation (iter_pieces_inside_mill b p ++ iter_pieces_outside_mill b p)
              (iter_pieces b p)
  /\ (forall e, In e (iter_pieces_inside_mill b p) ->
                ~ In e (iter_pieces_outside_mill b p)).
Proof.
  split.
  - apply mill_pieces_Permutation.
  - intros e Hin Hout.
    unfold iter_pieces_inside_mill in Hin. unfold iter_pieces_outside_mill in Hout.
    apply filter_In in Hin as [_ Hin]. apply filter_In in Hout as [_ Hout].
    destruct (existsb (Position_eqb (fst e)) (all_mills_pos b p));
      destruct (playerID (snd e) =? p); discriminate.
Qed.

(** [is_inside_a_mill], which looks at the lines through the position, and
    [iter_mills], which looks at all lines, agree: a board position is
    inside a mill of the player exactly when it is on a line that
    [iter_mills] yields. *)
Theorem is_inside_a_mill_iter_mills (b : GameBoard) (p : PlayerID) (pos : Position)
    (Hsides : 3 <= sides (design b)) (Hpos : valid_pos (design b) pos) :
  is_inside_a_mill b p pos = true
  <-> exists line, In line (iter_mills b p) /\ In pos (line_members line).
Proof.
  unfold is_inside_a_mill, iter_mills. split.
  - intros H. apply andb_true_iff in H as [Hown H].
    apply existsb_exists in H as ([q r] & Hqr & H).
    apply andb_true_iff in H as [Hq Hr]. cbn [fst snd] in *.
    destruct (@iter_lines_of_line (design b) Hsides pos q r Hpos Hqr)
      as (t & Ht & Hperm).
    exists t. split.
    + apply filter_In. split; [exact Ht|].
      rewrite (forallb_Permutation _ _ _ _ Hperm). cbn.
      rewrite Hown, Hq, Hr. reflexivity.
    + eapply Permutation_in; [apply Permutation_sym; exact Hperm|cbn; auto].
  - intros (t & Ht & Hin). apply filter_In in Ht as [Ht Hall].
    destruct (@line_iter_lines_of (design b) Hsides t pos Ht Hin)
      as (q & r & Hqr & Hperm).
    rewrite (forallb_Permutation _ _ _ _ Hperm) in Hall. cbn in Hall.
    apply andb_true_iff in Hall as [Hown Hall].
    apply andb_true_iff in Hall as [Hq Hall].
    apply andb_true_iff in Hall as [Hr _].
    rewrite Hown. cbn. apply existsb_exists. exists (q, r).
    split; [exact Hqr|]. cbn. rewrite Hq, Hr. reflexivity.
Qed.

Lemma is_inside_a_mill_iter_mills_witness :
  is_inside_a_mill (board moving_state) 0 (Pos 0 0) = true
  <-> exists line, In line (iter_mills (board moving_state) 0)
                   /\ In (Pos 0 0) (line_members line).
Proof.
  apply (is_inside_a_mill_iter_mills (board moving_state) 0 (Pos 0 0)).
  - cbn. lia.
  - unfold valid_pos. cbn. lia.
Defined.


Unset Implicit Arguments.

(* ================================================================== *)
(** * Part V: the rules of the game *)

(** ** The pieces a mill may capture *)

Lemma filter_none_outside (A : Type) (f g : A -> bool) (l : list A) :
  filter (fun e => f e && negb (g e)) l = [] ->
  filter (fun e => f e && g e) l = filter f l.
Proof.
  induction l as [|x l IH]; cbn; [reflexivity|].
  destruct (f x), (g x); cbn; intros H; try discriminate; rewrite IH by exact H;
    reflexivity.
Qed.

(** [calc_available_attacks] offers pieces of the other player only: the
    pieces outside the mills of that player if there is one, all the pieces
    otherwise; it is empty exactly when the other player has no piece on
    the board. *)
Theorem calc_available_attacks_protects_mills (s : GameState) (player : PlayerID) :
  (forall e, In e (calc_available_attacks s player) ->
             In e (fields (board s)) /\ playerID (snd e) = other player)
  /\ (calc_available_attacks s player = [] <->
      iter_pieces (board s) (other player) = [])
  /\ ((iter_pieces_outside_mill (board s) (other player) <> []
       /\ calc_available_attacks s player
          = iter_pieces_outside_mill (board s) (other player))
      \/ (iter_pieces_outside_mill (board s) (other player) = []
          /\ calc_available_attacks s player = iter_pieces (board s) (other player))).
Proof.
  assert (H3 : (iter_pieces_outside_mill (board s) (other player) <> []
       /\ calc_available_attacks s player
          = iter_pieces_outside_mill (board s) (other player))
      \/ (iter_pieces_outside_mill (board s) (other player) = []
          /\ calc_available_attacks s player = iter_pieces (board s) (other player))).
  { unfold calc_available_attacks.
    destruct (iter_pieces_outside_mill (board s) (other player)) as [|e l] eqn:E.
    - right. split; [reflexivity|].
      unfold iter_pieces_inside_mill, iter_pieces.
      apply (filter_none_outside _ (fun e => (playerID (snd e) =? other player))
               (fun e => existsb (Position_eqb (fst e))
                                 (all_mills_pos (board s) (other player)))).
      exact E.
    - left. split; [discriminate|reflexivity]. }
  split; [apply in_calc_available_attacks|]. split; [|exact H3].
  destruct H3 as [[Hne ->]|[_ ->]]; [|reflexivity].
  split; [contradiction|]. intros Hno. exfalso.
  destruct (iter_pieces_outside_mill (board s) (other player)) as [|e l] eqn:E;
    [contradiction|].
  pose proof (mill_pieces_Permutation (board s) (other player)) as Hperm.
  rewrite Hno in Hperm. apply Permutation_sym, Permutation_nil in Hperm.
  apply app_eq_nil in Hperm as [_ Hperm]. congruence.
Qed.

(* ================================================================== *)
(** ** The actions of a turn *)

Lemma fst_calc_available_actions (p : PlayerID) (s : GameState)
    (acts : list Action) :
  fst (calc_available_actions p s) = Ok acts ->
  calc_available_actions p s = (Ok acts, read_placed p s).
Proof.
  rewrite calc_available_actions_eq.
  destruct (count (board s) p); cbn [fst]; [|discriminate].
  intros H. injection H as <-. reflexivity.
Qed.

(** The three phases of the game: a player who has not placed all pieces
    is offered placements only; afterwards moves along links with more
    than three pieces on the board, jumps with exactly three, and nothing
    with fewer.  Every action offered names the player asked for. *)
Theorem calc_available_actions_phases (s : GameState) (player : PlayerID)
    (acts : list Action)
    (Hacts : fst (calc_available_actions player s) = Ok acts) :
  exists n,
    count (board s) player = Ok n
    /\ (forall a, In a acts ->
          action_playerID a = player
          /\ match a with
             | PlaceAction _ _ _ => placed s player < max_placed_items s
             | MoveAction _ _ _ _ =>
                 max_placed_items s <= placed s player /\ 3 < n
             | JumpAction _ _ _ _ =>
                 max_placed_items s <= placed s player /\ n = 3
             end)
    /\ (max_placed_items s <= placed s player -> n < 3 -> acts = []).
Proof.
  rewrite calc_available_actions_eq in Hacts.
  destruct (count (board s) player) as [n|e] eqn:Hn; [|discriminate].
  cbn [fst] in Hacts. unfold actions_of_phase in Hacts.
  exists n. split; [reflexivity|].
  destruct (Z.ltb_spec (placed s player) (max_placed_items s)) as [Hp|Hp].
  - injection Hacts as <-. split; [|lia].
    intros a Hin. apply in_flat_map in Hin as (pos & _ & Hin).
    apply in_enhance_with_attacks in Hin as (atk & -> & _). cbn. auto.
  - destruct (Z.gtb_spec n 3) as [H3|H3].
    + injection Hacts as <-. split; [|lia].
      intros a Hin. apply in_flat_map in Hin as (e & _ & Hin).
      apply in_flat_map in Hin as (pos & _ & Hin).
      apply in_enhance_with_attacks in Hin as (atk & -> & _). cbn.
      split; [reflexivity|lia].
    + destruct (Z.eqb_spec n 3) as [E3|E3].
      * injection Hacts as <-. split; [|lia].
        intros a Hin. apply in_flat_map in Hin as (e & _ & Hin).
        apply in_flat_map in Hin as (pos & _ & Hin).
        apply in_enhance_with_attacks in Hin as (atk & -> & _). cbn.
        split; [reflexivity|lia].
      * injection Hacts as <-. split; [intros a []|reflexivity].
Qed.

Lemma calc_available_actions_phases_witness :
  exists n acts,
    fst (calc_available_actions 0 moving_state) = Ok acts
    /\ count (board moving_state) 0 = Ok n
    /\ forall a, In a acts -> action_playerID a = 0.
Proof.
  destruct (fst (calc_available_actions 0 moving_state)) as [acts|e] eqn:E;
    [|vm_compute in E; discriminate].
  destruct (calc_available_actions_phases moving_state 0 acts E)
    as (n & Hn & Hall & _).
  exists n, acts. split; [reflexivity|]. split; [exact Hn|].
  intros a Ha. apply (Hall a Ha).
Defined.

(** Every action offered to the player to move can be played: its
    destination is an empty position of the board, a moved or jumping
    piece is a piece of the player, and a move follows a link. *)
Theorem enumerated_actions_sound (s : GameState) (acts : list Action) (a : Action)
    (Hwf : wf_state s)
    (Hacts : fst (calc_available_actions (player_turn s) s) = Ok acts)
    (Hin : In a acts) :
  valid_pos (design (board s)) (destination a)
  /\ is_empty (board s) (destination a) = true
  /\ match a with
     | PlaceAction _ _ _ => True
     | MoveAction _ start end_ _ =>
         valid_pos (design (board s)) start
         /\ owned_by (board s) (player_turn s) start = true
         /\ is_linked_to (design (board s)) start end_ = true
     | JumpAction _ start _ _ =>
         valid_pos (design (board s)) start
         /\ owned_by (board s) (player_turn s) start = true
     end.
Proof.
  apply fst_calc_available_actions in Hacts.
  destruct (in_calc_available_actions s _ acts a Hacts Hin) as [Henum _].
  pose proof Hwf as (Hsides & Hnd & Hvalid & _ & _).
  assert (Hown : forall start piece,
             In (start, piece) (iter_pieces (board s) (player_turn s)) ->
             valid_pos (design (board s)) start
             /\ owned_by (board s) (player_turn s) start = true).
  { intros start piece H. apply in_iter_pieces in H as [H Hp]. cbn in Hp.
    split.
    - apply Hvalid. unfold dict_keys. apply in_map_iff. exists (start, piece). auto.
    - unfold owned_by, get. rewrite (wf_get s Hwf start piece H).
      apply Z.eqb_eq. exact Hp. }
  assert (Hempty : forall pos, In pos (iter_empty (board s)) ->
             valid_pos (design (board s)) pos /\ is_empty (board s) pos = true).
  { intros pos H. apply in_iter_empty in H as [H Hm]. split.
    - apply in_iter_fields. exact H.
    - unfold is_empty. rewrite Hm. reflexivity. }
  inversion Henum as [pos atk Hph Hpos|start piece end_ atk Hst Hend
                     |start piece end_ atk Hst Hend]; subst; cbn [destination].
  - destruct (Hempty pos Hpos). auto.
  - destruct (Hown start piece Hst) as [Hv Ho].
    apply in_iter_available_moves in Hend as [Hnb Hm].
    pose proof (@neighbors_of_valid (design (board s)) Hsides start end_ Hv Hnb)
      as Hve.
    split; [exact Hve|]. split; [unfold is_empty; rewrite Hm; reflexivity|].
    split; [exact Hv|]. split; [exact Ho|].
    apply (@neighbors_of_linked (design (board s)) Hsides start end_ Hv Hve).
    exact Hnb.
  - destruct (Hown start piece Hst) as [Hv Ho]. destruct (Hempty end_ Hend).
    auto.
Qed.

Ltac wf_example :=
  unfold wf_state; cbn;
  split; [lia|];
  split; [repeat constructor; cbn; intros H;
          repeat (destruct H as [H|H]; [discriminate|]); exact H|];
  split; [intros pos H;
          repeat (destruct H as [H|H]; [subst pos; unfold valid_pos; cbn; lia|]);
          destruct H|];
  split; [lia|reflexivity].

Lemma wf_start_state : wf_state start_state.
Proof. wf_example. Qed.

Lemma wf_placing_state : wf_state placing_state.
Proof. wf_example. Qed.

Lemma wf_moving_state : wf_state moving_state.
Proof. wf_example. Qed.

Lemma enumerated_actions_sound_witness :
  is_empty (board moving_state) (Pos 0 1) = true
  /\ is_linked_to (design (board moving_state)) (Pos 0 0) (Pos 0 1) = true.
Proof.
  destruct (fst (calc_available_actions (player_turn moving_state) moving_state))
    as [acts|e] eqn:E; [|vm_compute in E; discriminate].
  destruct (enumerated_actions_sound moving_state acts
              (MoveAction 0 (Pos 0 0) (Pos 0 1) (Some [Pos 1 0]))
              wf_moving_state E)
    as (_ & H1 & _ & _ & H2).
  - vm_compute in E. injection E as <-. cbn. auto.
  - split; [exact H1|exact H2].
Defined.

(** An action offered to the player to move carries no capture when no
    line through its destination is ready, and otherwise one position for
    each ready line: different positions, each among the pieces that
    [calc_available_attacks] offers. *)
Theorem enumerated_attacks (s : GameState) (acts : list Action) (a : Action)
    (Hkeys : NoDup (dict_keys (fields (board s))))
    (Hacts : fst (calc_available_actions (player_turn s) s) = Ok acts)
    (Hin : In a acts) :
  match attacks a with
  | None => iter_ready_mills (board s) (player_turn s) (destination a) = []
  | Some l =>
      length l = length (iter_ready_mills (board s) (player_turn s) (destination a))
      /\ (1 <= length l)%nat
      /\ NoDup l
      /\ (forall y, In y l ->
            In y (map fst (calc_available_attacks s (player_turn s))))
  end.
Proof.
  apply fst_calc_available_actions in Hacts.
  destruct (in_calc_available_actions s _ acts a Hacts Hin) as [_ H].
  destruct (attacks a) as [l|]; [|exact H].
  destruct H as (comb & -> & Hcomb & Hne).
  pose proof (combinations_length _ _ _ _ Hcomb) as Hlen.
  rewrite length_map, Hlen.
  split; [reflexivity|].
  split.
  { destruct (iter_ready_mills (board s) (player_turn s) (destination a));
      [contradiction|cbn; lia]. }
  split.
  { apply (combinations_NoDup_map _ _ fst _ _ _
             (calc_available_attacks_NoDup s (player_turn s) Hkeys) Hcomb). }
  intros y Hy. apply in_map_iff in Hy as (e & <- & He).
  apply in_map. apply (combinations_incl _ _ _ _ Hcomb). exact He.
Qed.

Lemma enumerated_attacks_witness :
  length [Pos 1 0]
  = length (iter_ready_mills (board moving_state) 0 (Pos 0 1)).
Proof.
  destruct (fst (calc_available_actions (player_turn moving_state) moving_state))
    as [acts|e] eqn:E; [|vm_compute in E; discriminate].
  pose proof (enumerated_attacks moving_state acts
                (MoveAction 0 (Pos 0 0) (Pos 0 1) (Some [Pos 1 0]))) as H.
  cbn [attacks destination] in H.
  destruct H as (H & _).
  - destruct wf_moving_state as (_ & Hnd & _). exact Hnd.
  - exact E.
  - vm_compute in E. injection E as <-. cbn. auto.
  - exact H.
Defined.

(* ================================================================== *)
(** ** [execute] *)





Lemma placed_items_read_placed (p : PlayerID) (s : GameState) :
  placed_items (read_placed p s)
  = if negb (dict_mem Z.eqb (placed_items s) p)
    then placed_items s ++ [(p, 0)] else placed_items s.
Proof.
  rewrite read_placed_eq. cbn [placed_items]. unfold dict_mem.
  destruct (dict_get Z.eqb (placed_items s) p) eqn:E; cbn [negb]; [reflexivity|].
  apply dict_set_fresh. exact E.
Qed.








(** *** What an [execute] that returned has done *)

Lemma bind_inv (S A B : Type) (m : M S A) (k : A -> M S B) (s s' : S) (b : B) :
  bind m k s = (Ok b, s') ->
  exists a s1, m s = (Ok a, s1) /\ k a s1 = (Ok b, s').
Proof.
  unfold bind. destruct (m s) as [[a|e] s1]; [|discriminate].
  intros H. exists a, s1. auto.
Qed.

Lemma assert_inv (S : Type) (c : bool) (s s' : S) (u : unit) :
  assert c s = (Ok u, s') -> c = true /\ s' = s.
Proof.
  unfold assert. destruct c; [|discriminate].
  unfold ret. intros H. injection H as _ <-. auto.
Qed.

Lemma on_board_inv (A : Type) (m : M GameBoard A) (s s' : GameState) (a : A) :
  on_board m s = (Ok a, s') ->
  exists b', m (board s) = (Ok a, b') /\ s' = set_board b' s.
Proof.
  unfold on_board. destruct (m (board s)) as [[x|e] b']; [|discriminate].
  intros H. injection H as <- <-. exists b'. auto.
Qed.

Lemma execute_inv (a : Action) (s s' : GameState) (r : option GameState) :
  execute a s = (Ok r, s') ->
  exists s1 s2,
    r = None /\ frozen s = false /\ action_playerID a = player_turn s
    /\ execute_step a s = (Ok tt, s1)
    /\ execute_attacks a s1 = (Ok tt, s2)
    /\ s' = mkGameState (placed_items s2) (other (player_turn s2)) (board s2)
                        (max_placed_items s2) (frozen s2).
Proof.
  unfold execute. intros H.
  apply bind_inv in H as (self & s0 & Hself & H).
  unfold get_self in Hself. injection Hself as <- <-.
  apply bind_inv in H as (u1 & s0 & Hfr & H).
  apply assert_inv in Hfr as [Hfr ->]. apply negb_true_iff in Hfr.
  apply bind_inv in H as (u2 & s0 & Hturn & H).
  apply assert_inv in Hturn as [Hturn ->]. apply Z.eqb_eq in Hturn.
  apply bind_inv in H as ([] & s1 & Hstep & H).
  apply bind_inv in H as ([] & s2 & Hatk & H).
  apply bind_inv in H as (self2 & s0 & Hself & H).
  unfold get_self in Hself. injection Hself as <- <-.
  apply bind_inv in H as (u3 & s3 & Hset & H).
  unfold set_player_turn in Hset. injection Hset as _ <-.
  unfold ret in H. injection H as <- <-.
  exists s1, s2. auto 10.
Qed.

Lemma execute_step_inv (a : Action) (s s1 : GameState) :
  execute_step a s = (Ok tt, s1) ->
  player_turn s1 = player_turn s /\ frozen s1 = frozen s
  /\ max_placed_items s1 = max_placed_items s
  /\ match a with
     | PlaceAction p pos _ =>
         placed s p < max_placed_items s
         /\ place pos (mkPiece p) (board s) = (Ok tt, board s1)
         /\ placed_items s1
            = dict_set Z.eqb (placed_items (read_placed p s)) p (placed s p + 1)
     | MoveAction p start end_ _ =>
         owned_by (board s) p start = true
         /\ move start end_ (board s) = (Ok tt, board s1)
         /\ placed_items s1 = placed_items s
     | JumpAction p start end_ _ =>
         owned_by (board s) p start = true
         /\ jump start end_ (board s) = (Ok tt, board s1)
         /\ placed_items s1 = placed_items s
     end.
Proof.
  intros H.
  destruct a as [p pos atk|p start end_ atk|p start end_ atk].
  { rewrite execute_step_place_eq in H.
    destruct (Z.ltb_spec (placed s p) (max_placed_items s)) as [Hph|Hph];
      [|discriminate].
    destruct (place pos (mkPiece p) (board s)) as [[[]|e] b'] eqn:Hpl;
      [|discriminate].
    injection H as <-. cbn. auto 10. }
  all: unfold execute_step in H;
    apply bind_inv in H as (self & s0 & Hself & H);
    unfold get_self in Hself; injection Hself as <- <-;
    cbn [action_playerID] in H.
  - unfold owned_by.
    destruct (get (board s) start) as [piece|]; [|discriminate].
    apply bind_inv in H as (u1 & s0 & Hp & H).
    apply assert_inv in Hp as [Hp ->].
    apply on_board_inv in H as (b' & Hmv & ->). cbn. auto 10.
  - unfold owned_by.
    destruct (get (board s) start) as [piece|]; [|discriminate].
    apply bind_inv in H as (u1 & s0 & Hp & H).
    apply assert_inv in Hp as [Hp ->].
    apply on_board_inv in H as (b' & Hmv & ->). cbn. auto 10.
Qed.

Lemma execute_attack_inv (pid : PlayerID) (y : Position) (s s1 : GameState) :
  execute_attack pid y s = (Ok tt, s1) ->
  exists piece, remove y (board s) = (Ok (Some piece), board s1)
                /\ playerID piece <> pid
                /\ s1 = set_board (board s1) s.
Proof.
  unfold execute_attack. intros H.
  apply bind_inv in H as (attacked & s0 & Hrm & H).
  apply on_board_inv in Hrm as (b' & Hrm & ->).
  destruct attacked as [piece|]; [|discriminate].
  apply assert_inv in H as [Hp ->]. apply negb_true_iff in Hp.
  apply Z.eqb_neq in Hp. exists piece. cbn. auto.
Qed.

Lemma move_inv (start end_ : Position) (b b' : GameBoard) :
  move start end_ b = (Ok tt, b') ->
  is_linked_to (design b) start end_ = true /\ jump start end_ b = (Ok tt, b').
Proof.
  unfold move. unfold bind at 1. unfold get_self at 1. unfold bind at 1.
  unfold assert. destruct (is_linked_to (design b) start end_); cbn;
    [auto|discriminate].
Qed.

(** The loop over the captures changes the board only. *)
Lemma attack_loop_frame (pid : PlayerID) (l : list Position) (s s2 : GameState) :
  for_each l (execute_attack pid) s = (Ok tt, s2) ->
  player_turn s2 = player_turn s /\ frozen s2 = frozen s
  /\ max_placed_items s2 = max_placed_items s
  /\ placed_items s2 = placed_items s
  /\ design (board s2) = design (board s).
Proof.
  revert s. induction l as [|y l IH]; intros s H; cbn [for_each] in H.
  - unfold ret in H. injection H as <-. auto.
  - apply bind_inv in H as ([] & s1 & Hy & H).
    apply execute_attack_inv in Hy as (piece & Hrm & _ & Hs1).
    destruct (IH s1 H) as (H1 & H2 & H3 & H4 & H5).
    apply remove_inv in Hrm as [_ (k & c & _ & _ & Hb)].
    rewrite H1, H2, H3, H4, H5, Hs1, Hb. cbn. auto.
Qed.



(** An [execute] that returns hands back [None] and passes the turn; the
    state was not frozen and the action was one of the player to move; the
    board design and [max_placed_items] stay, and [placed_items] goes up by
    one for the player of a placement and stays otherwise. *)
Theorem execute_passes_turn (s s' : GameState) (a : Action) (r : option GameState)
    (Hexec : execute a s = (Ok r, s')) :
  r = None
  /\ frozen s = false /\ frozen s' = false
  /\ action_playerID a = player_turn s
  /\ player_turn s' = other (player_turn s)
  /\ max_placed_items s' = max_placed_items s
  /\ design (board s') = design (board s)
  /\ (forall q, placed s' q
                = placed s q
                  + match a with
                    | PlaceAction p _ _ => if p =? q then 1 else 0
                    | _ => 0
                    end).
Proof.
  apply execute_inv in Hexec as (s1 & s2 & -> & Hfr & Hturn & Hstep & Hatk & ->).
  apply execute_step_inv in Hstep as (Ht1 & Hf1 & Hm1 & Hstep).
  assert (Hloop : player_turn s2 = player_turn s1 /\ frozen s2 = frozen s1
                  /\ max_placed_items s2 = max_placed_items s1
                  /\ placed_items s2 = placed_items s1
                  /\ design (board s2) = design (board s1)).
  { unfold execute_attacks in Hatk. destruct (has_attacks a).
    - apply (attack_loop_frame _ _ _ _ Hatk).
    - unfold ret in Hatk. injection Hatk as <-. auto. }
  destruct Hloop as (Ht2 & Hf2 & Hm2 & Hp2 & Hd2).
  cbn [frozen player_turn max_placed_items board].
  split; [reflexivity|]. split; [exact Hfr|]. split; [congruence|].
  split; [exact Hturn|]. split; [congruence|]. split; [congruence|].
  unfold placed at 1. cbn [placed_items]. rewrite Hp2.
  destruct a as [p pos atk|p start end_ atk|p start end_ atk].
  - destruct Hstep as (_ & Hpl & Hpi).
    apply place_inv in Hpl as (k & c & _ & _ & _ & Hb). rewrite Hb in Hd2.
    split; [exact Hd2|]. intros q. rewrite Hpi, dict_get_set_Z.
    destruct (Z.eqb_spec p q) as [->|Hne]; [reflexivity|].
    fold (placed (read_placed p s) q). rewrite placed_read_placed. lia.
  - destruct Hstep as (_ & Hmv & Hpi).
    apply move_inv in Hmv as [_ Hj].
    apply jump_inv in Hj as (piece & _ & _ & Hb). rewrite Hb in Hd2.
    split; [exact Hd2|]. intros q. rewrite Hpi. unfold placed. lia.
  - destruct Hstep as (_ & Hj & Hpi).
    apply jump_inv in Hj as (piece & _ & _ & Hb). rewrite Hb in Hd2.
    split; [exact Hd2|]. intros q. rewrite Hpi. unfold placed. lia.
Qed.

Lemma execute_passes_turn_witness :
  player_turn (snd (execute (PlaceAction 0 (Pos 0 2) (Some [Pos 1 3]))
                            placing_state)) = 1.
Proof.
  destruct (execute_passes_turn placing_state
              (snd (execute (PlaceAction 0 (Pos 0 2) (Some [Pos 1 3]))
                            placing_state))
              (PlaceAction 0 (Pos 0 2) (Some [Pos 1 3])) None)
    as (_ & _ & _ & _ & H & _).
  - reflexivity.
  - exact H.
Defined.


(** The pieces of the board have to be pieces of the two players for this:
    a piece with [playerID = -1] is counted by the counter of player [1],
    and when player [1] captures it the capture lowers the counter of
    player [1], not that of player [0]. *)
Lemma capture_of_piece_with_negative_id :
  let s := mkGameState [(0, 1); (1, 2)] 1
             (mkGameBoard (Design 4 false)
                [(Pos 0 1, P1); (Pos 1 1, P1); (Pos 0 0, mkPiece (-1))] [0; 3])
             9 false in
  let a := PlaceAction 1 (Pos 2 1) (Some [Pos 0 0]) in
  fst (execute a s) = Ok None
  /\ count (board s) 1 = Ok 3 /\ count (board s) 0 = Ok 0
  /\ count (board (snd (execute a s))) 1 = Ok 3
  /\ count (board (snd (execute a s))) 0 = Ok 0.
Proof. vm_compute. repeat split. Qed.



Unset Implicit Arguments.

(* ================================================================== *)
(** * Part VI: the policies of the search *)

(** ** Random choices *)

Lemma list_del_Permutation (A : Type) (l : list A) (i : nat) (x : A) :
  nth_error l i = Some x -> Permutation l (x :: list_del l i).
Proof.
  revert i. induction l as [|y l IH]; intros [|i]; cbn; intros H;
    try discriminate.
  - injection H as ->. apply Permutation_refl.
  - eapply Permutation_trans; [apply perm_skip; apply (IH i H)|apply perm_swap].
Qed.

Lemma nth_nth_error (A : Type) (l : list A) (i : nat) (d : A) :
  (i < length l)%nat -> nth_error l i = Some (nth i l d).
Proof.
  revert i. induction l as [|y l IH]; intros [|i]; cbn; intros H;
    try lia; [reflexivity|].
  apply IH. lia.
Qed.

Lemma pop_random_from_list_cons (A : Type) (x0 : A) (data' : list A) (rng0 : Rng) :
  exists index x,
    pop_random_from_list (x0 :: data') rng0
    = (Ok (x, list_del (x0 :: data') index), tl rng0)
    /\ nth_error (x0 :: data') index = Some x
    /\ Permutation (x0 :: data') (x :: list_del (x0 :: data') index)
    /\ S (length (list_del (x0 :: data') index)) = length (x0 :: data').
Proof.
  set (data := x0 :: data').
  assert (Hpos : (0 < length data)%nat) by (cbn; lia).
  set (index := match rng0 with [] => 0%nat | d :: _ => (d mod length data)%nat end).
  assert (Hindex : (index < length data)%nat).
  { unfold index. destruct rng0 as [|d rng1]; [exact Hpos|].
    apply Nat.mod_upper_bound. discriminate. }
  exists index, (nth index data x0).
  pose proof (nth_nth_error _ data index x0 Hindex) as Hnth.
  pose proof (list_del_Permutation _ data index _ Hnth) as Hperm.
  split.
  - unfold pop_random_from_list, data at 1. unfold bind, randint, ret.
    fold data. unfold index. destruct rng0; reflexivity.
  - split; [exact Hnth|]. split; [exact Hperm|].
    apply Permutation_length in Hperm. symmetry. exact Hperm.
Qed.

(** [pop_random_from_list] on an empty list raises the [ValueError] of
    [random.randint(0, -1)] and draws nothing; on any other list it takes
    one item out: the item it returns and the items it leaves are together
    the items of the list, and one draw is used up. *)
Theorem pop_random_from_list_pops (A : Type) (data : list A) (rng0 : Rng) :
  match data with
  | [] => pop_random_from_list data rng0 = (Raise ValueError, rng0)
  | _ :: _ =>
      exists index x,
        pop_random_from_list data rng0 = (Ok (x, list_del data index), tl rng0)
        /\ nth_error data index = Some x
        /\ Permutation data (x :: list_del data index)
        /\ S (length (list_del data index)) = length data
  end.
Proof.
  destruct data as [|x0 data']; [reflexivity|].
  apply pop_random_from_list_cons.
Qed.

Lemma in_enumerate_from (A : Type) (l : list A) (k i : nat) (a : A) :
  In (i, a) (combine (seq k (length l)) l)
  <-> (k <= i)%nat /\ nth_error l (i - k) = Some a.
Proof.
  revert k. induction l as [|y l IH]; intros k; cbn.
  - split; [intros []|]. intros [_ H]. destruct (i - k)%nat; discriminate.
  - rewrite IH. split.
    + intros [H|[Hk H]].
      * injection H as <- <-. rewrite Nat.sub_diag. cbn. split; [lia|reflexivity].
      * split; [lia|]. replace (i - k)%nat with (S (i - S k)) by lia. exact H.
    + intros [Hk H]. destruct (i - k)%nat as [|j] eqn:E.
      * left. cbn in H. injection H as ->. f_equal. lia.
      * right. split; [lia|]. cbn in H. replace (i - S k)%nat with j by lia.
        exact H.
Qed.

Lemma in_enumerate (A : Type) (l : list A) (i : nat) (a : A) :
  In (i, a) (enumerate l) <-> nth_error l i = Some a.
Proof.
  unfold enumerate. rewrite in_enumerate_from. rewrite Nat.sub_0_r.
  split; [intros [_ H]; exact H|intros H; split; [lia|exact H]].
Qed.

Lemma take_action_cons (a0 : Action) (actions' : list Action) (rng0 : Rng) :
  exists index action,
    take_action (a0 :: actions') rng0
    = (Ok (action, list_del (a0 :: actions') index), tl rng0)
    /\ nth_error (a0 :: actions') index = Some action
    /\ Permutation (a0 :: actions') (action :: list_del (a0 :: actions') index)
    /\ (existsb has_attacks (a0 :: actions') = true -> has_attacks action = true).
Proof.
  set (actions := a0 :: actions').
  unfold take_action. unfold bind at 1. unfold assert. fold actions.
  change (negb (length actions =? 0)%nat) with true. unfold ret at 1.
  cbv beta iota.
  destruct (filter (fun na => has_attacks (snd na)) (enumerate actions))
    as [|na0 with_attack'] eqn:Ef.
  - destruct (pop_random_from_list_cons _ a0 actions' rng0)
      as (index & x & Hpop & Hnth & Hperm & _).
    fold actions in Hpop, Hnth, Hperm.
    exists index, x. split; [exact Hpop|]. split; [exact Hnth|].
    split; [exact Hperm|].
    intros Hex. exfalso. apply existsb_exists in Hex as (a & Ha & Hatk).
    apply In_nth_error in Ha as [i Hi].
    assert (Hin : In (i, a) (filter (fun na => has_attacks (snd na))
                               (enumerate actions))).
    { apply filter_In. split; [apply in_enumerate; exact Hi|exact Hatk]. }
    rewrite Ef in Hin. destruct Hin.
  - destruct (pop_random_from_list_cons _ na0 with_attack' rng0)
      as (j & [index action] & Hpop & Hnth & _).
    exists index, action.
    assert (Hin : In (index, action)
                     (filter (fun na => has_attacks (snd na)) (enumerate actions))).
    { rewrite Ef. eapply nth_error_In. exact Hnth. }
    apply filter_In in Hin as [Hin Hatk]. apply in_enumerate in Hin.
    split.
    + unfold bind. rewrite Hpop. reflexivity.
    + split; [exact Hin|].
      split; [apply list_del_Permutation; exact Hin|].
      intros _. exact Hatk.
Qed.

(** [take_action] refuses an empty list with an [AssertionError].  From any
    other list it takes one action out, the action it returns, and it
    returns an action with captures whenever the list has one. *)
Theorem take_action_prefers_captures (actions : list Action) (rng0 : Rng) :
  match actions with
  | [] => take_action actions rng0 = (Raise AssertionError, rng0)
  | _ :: _ =>
      exists index action,
        take_action actions rng0 = (Ok (action, list_del actions index), tl rng0)
        /\ nth_error actions index = Some action
        /\ Permutation actions (action :: list_del actions index)
        /\ (existsb has_attacks actions = true -> has_attacks action = true)
  end.
Proof.
  destruct actions as [|a0 actions']; [reflexivity|].
  apply take_action_cons.
Qed.

(* ================================================================== *)
(** ** The playouts of a simulation *)

Section Playouts.
Variables (branching branching_depth : Z).

Lemma result_of_inv (state : GameState) (k : Z) (w : option PlayerID)
    (rng0 rng1 : Rng) (results : list SimulationResult) :
  result_of state k w rng0 = (Ok results, rng1) ->
  exists pieces, results = [mkSimulationResult k w pieces].
Proof.
  unfold result_of. intros H. apply bind_inv in H as (pieces & r & _ & H).
  unfold ret in H. injection H as <- _. exists pieces. reflexivity.
Qed.

Lemma iter_simulate_from_results (d : nat) :
  forall (state : GameState) (actions : list Action) (k : Z) (rng0 rng1 : Rng)
         (results : list SimulationResult),
    iter_simulate_from branching branching_depth d state actions k rng0
    = (Ok results, rng1) ->
    results <> []
    /\ forall r, In r results ->
                 k <= steps r <= k + Z.of_nat d
                 /\ (winner r = None <-> steps r = k + Z.of_nat d).
Proof.
  induction d as [|d IH]; intros state actions k rng0 rng1 results H.
  - cbn [iter_simulate_from] in H.
    apply result_of_inv in H as (pieces & ->). split; [discriminate|].
    intros r [<-|[]]. cbn. split; [lia|]. split; [lia|reflexivity].
  - cbn [iter_simulate_from] in H. destruct actions as [|a acts].
    + apply result_of_inv in H as (pieces & ->). split; [discriminate|].
      intros r [<-|[]]. cbn. split; [lia|]. split; [discriminate|lia].
    + assert (Hshift : forall r : SimulationResult,
                 k + 1 <= steps r <= k + 1 + Z.of_nat d
                 /\ (winner r = None <-> steps r = k + 1 + Z.of_nat d) ->
                 k <= steps r <= k + Z.of_nat (S d)
                 /\ (winner r = None <-> steps r = k + Z.of_nat (S d))).
      { intros r [Hr Hw]. rewrite Nat2Z.inj_succ. split; [lia|].
        rewrite Hw. lia. }
      destruct ((branching >? 1) && (k <? branching_depth)) eqn:Eb.
      * match type of H with (?loop _ _ _ = _) => set (loop0 := loop) in H end.
        assert (Hloop : forall n acts0 r0 rs r1,
                   loop0 n acts0 r0 = (Ok rs, r1) ->
                   (n <> 0%nat -> rs <> [])
                   /\ forall r, In r rs ->
                        k + 1 <= steps r <= k + 1 + Z.of_nat d
                        /\ (winner r = None <-> steps r = k + 1 + Z.of_nat d)).
        { induction n as [|n IHn]; intros acts0 r0 rs r1 Hl.
          - cbn in Hl. unfold ret in Hl. injection Hl as <- _.
            split; [congruence|intros r []].
          - assert (Hunf : loop0 (S n) acts0
                     = (r <- take_action acts0 ;;
                        let '(action, actions') := r in
                        newstate <- executed (clone state) action ;;
                        listed <- list_actions newstate ;;
                        let '(next, newstate) := listed in
                        rs <- iter_simulate_from branching branching_depth d
                                newstate next (k + 1) ;;
                        rest <- loop0 n actions' ;;
                        ret (rs ++ rest))%py) by reflexivity.
            rewrite Hunf in Hl. clear Hunf.
            apply bind_inv in Hl as ([action actions'] & r2 & Htake & Hl).
            apply bind_inv in Hl as (newstate & r3 & Hex & Hl).
            apply bind_inv in Hl as ([next newstate'] & r4 & Hnext & Hl).
            apply bind_inv in Hl as (rs1 & r5 & Hsim & Hl).
            apply bind_inv in Hl as (rest & r6 & Hrest & Hl).
            unfold ret in Hl. injection Hl as <- _.
            destruct (IH _ _ _ _ _ _ Hsim) as [Hne Hall].
            destruct (IHn _ _ _ _ Hrest) as [_ Hall'].
            split.
            + intros _. destruct rs1; [contradiction|discriminate].
            + intros r Hr. apply in_app_iff in Hr as [Hr|Hr]; auto. }
        destruct (Hloop _ _ _ _ _ H) as [Hne Hall]. split.
        -- apply Hne. apply andb_true_iff in Eb as [Eb _].
           apply Z.gtb_lt in Eb. cbn [length]. lia.
        -- intros r Hr. apply Hshift. apply Hall. exact Hr.
      * apply bind_inv in H as ([action actions'] & r2 & Htake & H).
        apply bind_inv in H as (state' & r3 & Hex & H).
        apply bind_inv in H as ([next state''] & r4 & Hnext & H).
        destruct (IH _ _ _ _ _ _ H) as [Hne Hall]. split; [exact Hne|].
        intros r Hr. apply Hshift. apply Hall. exact Hr.
Qed.

(** Without branching a simulation is one playout. *)
Lemma iter_simulate_from_single (d : nat) :
  forall (state : GameState) (actions : list Action) (k : Z) (rng0 rng1 : Rng)
         (results : list SimulationResult),
    branching <= 1 \/ branching_depth <= k ->
    iter_simulate_from branching branching_depth d state actions k rng0
    = (Ok results, rng1) ->
    length results = 1%nat.
Proof.
  induction d as [|d IH]; intros state actions k rng0 rng1 results Hb H.
  - cbn [iter_simulate_from] in H.
    apply result_of_inv in H as (pieces & ->). reflexivity.
  - cbn [iter_simulate_from] in H. destruct actions as [|a acts].
    + apply result_of_inv in H as (pieces & ->). reflexivity.
    + assert (Eb : (branching >? 1) && (k <? branching_depth) = false).
      { apply andb_false_iff. destruct Hb as [Hb|Hb].
        - left. destruct (Z.gtb_spec branching 1); [lia|reflexivity].
        - right. apply Z.ltb_ge. exact Hb. }
      rewrite Eb in H.
      apply bind_inv in H as ([action actions'] & r2 & Htake & H).
      apply bind_inv in H as (state' & r3 & Hex & H).
      apply bind_inv in H as ([next state''] & r4 & Hnext & H).
      eapply IH; [|exact H]. lia.
Qed.
End Playouts.

(** A simulation that returns has at least one playout, so that the mean
    over the playouts divides by a positive number.  A playout ends with a
    winner before [max_depth] plies, or with no winner after exactly
    [max_depth] plies; without branching there is exactly one playout. *)
Theorem iter_simulate_results (max_depth branching branching_depth : Z)
    (state : GameState) (actions : list Action) (rng0 rng1 : Rng)
    (results : list SimulationResult)
    (Hrun : _iter_simulate max_depth branching branching_depth state actions rng0
            = (Ok results, rng1)) :
  results <> []
  /\ (forall r, In r results ->
        0 <= steps r <= Z.max 0 max_depth
        /\ (winner r = None <-> steps r = Z.max 0 max_depth))
  /\ (branching <= 1 \/ branching_depth <= 0 -> length results = 1%nat).
Proof.
  unfold _iter_simulate in Hrun.
  destruct (iter_simulate_from_results _ _ _ _ _ _ _ _ _ Hrun) as [Hne Hall].
  split; [exact Hne|]. split.
  - intros r Hr. destruct (Hall r Hr) as [H1 H2].
    replace (Z.max 0 max_depth) with (0 + Z.of_nat (Z.to_nat max_depth)) by lia.
    auto.
  - intros Hb. apply (iter_simulate_from_single _ _ _ _ _ _ _ _ _ Hb Hrun).
Qed.

Lemma iter_simulate_results_witness :
  fst (_iter_simulate 2 5 1 placing_state
         [PlaceAction 0 (Pos 0 2) (Some [Pos 1 3]);
          PlaceAction 0 (Pos 0 3) None] [])
  <> Ok [].
Proof.
  destruct (_iter_simulate 2 5 1 placing_state
              [PlaceAction 0 (Pos 0 2) (Some [Pos 1 3]);
               PlaceAction 0 (Pos 0 3) None] [])
    as [[results|e] rng1] eqn:E; [|discriminate].
  destruct (iter_simulate_results 2 5 1 placing_state _ [] rng1 results E)
    as [Hne _].
  cbn. congruence.
Defined.

(* ================================================================== *)
(** ** Nodes and paths *)

Section Paths.
Context {F : Type} {PF : PyFloat F}.

Lemma get_node_app (r : @MCTS_Node F) (q p : Path) :
  get_node r (q ++ p)
  = match get_node r q with
    | Some n => get_node n p
    | None => None
    end.
Proof.
  revert r. induction q as [|a q IH]; intros r; cbn; [reflexivity|].
  destruct (dict_get Action_eqb (children r) a); [apply IH|reflexivity].
Qed.

Lemma dict_get_set_refl (K V : Type) (eqb : K -> K -> bool) (d : dict K V)
    (k : K) (v : V) :
  eqb k k = true -> dict_get eqb (dict_set eqb d k v) k = Some v.
Proof.
  intros Hk. induction d as [|[k' v'] d IH]; cbn.
  - rewrite Hk. reflexivity.
  - destruct (eqb k' k) eqn:E; cbn; rewrite E; auto.
Qed.

(** Replacing a node below the root leaves the counters of the root. *)
Lemma set_node_below (r n' : @MCTS_Node F) (path : Path) :
  path <> [] ->
  simulations (set_node r path n') = simulations r
  /\ visited (set_node r path n') = visited r
  /\ remaining_actions (set_node r path n') = remaining_actions r.
Proof.
  destruct path as [|a path]; [congruence|]. intros _. cbn.
  destruct (dict_get Action_eqb (children r) a); cbn; auto.
Qed.

Lemma path_simulations_app (r parent : @MCTS_Node F) (q : Path) (a : Action) :
  get_node r q = Some parent ->
  path_simulations r (q ++ [a])
  = path_simulations r q
    + match dict_get Action_eqb (children parent) a with
      | Some c => simulations c
      | None => 0
      end.
Proof.
  revert r. induction q as [|b q IH]; intros r; cbn.
  - intros H. injection H as ->.
    destruct (dict_get Action_eqb (children parent) a); lia.
  - destruct (dict_get Action_eqb (children r) b) as [ch|]; [|discriminate].
    intros H. rewrite (IH ch H). lia.
Qed.

Lemma path_simulations_set (r parent : @MCTS_Node F) (q : Path) (v x : Z) (rw : F) :
  q <> [] -> get_node r q = Some parent ->
  path_simulations
    (set_node r q (set_stats v (simulations parent + x) rw parent)) q
  = path_simulations r q + x.
Proof.
  revert r. induction q as [|b q IH]; intros r Hq; [congruence|]. cbn.
  destruct (dict_get Action_eqb (children r) b) as [ch|] eqn:Eb; [|discriminate].
  intros H. cbn. rewrite (dict_get_set_same _ _ _ _ _ _ _ Eb).
  destruct q as [|c q].
  - cbn in H. injection H as ->. cbn. lia.
  - destruct (set_node_below ch (set_stats v (simulations parent + x) rw parent)
                (c :: q)) as [Hs _]; [discriminate|].
    rewrite Hs. rewrite (IH ch); [lia|discriminate|exact H].
Qed.
End Paths.

(* ================================================================== *)
(** ** Backpropagation *)

Section Backpropagation.
Context {F : Type} {PF : PyFloat F}.

Lemma backpropagate_rev_adds (rp : Path) :
  forall (r : @MCTS_Node F) (g : Rng) (a : Action) (node : @MCTS_Node F),
    get_node r (rev rp ++ [a]) = Some node ->
    exists r',
      backpropagate_rev (a :: rp) (mkWorld r g) = (Ok tt, mkWorld r' g)
      /\ simulations r' = simulations r + path_simulations r (rev rp ++ [a])
      /\ visited r' = visited r + 1
      /\ get_node r' (rev rp ++ [a]) = Some node.
Proof.
  induction rp as [|b rp IH]; intros r g a node Hnode.
  - cbn in Hnode.
    destruct (dict_get Action_eqb (children r) a) as [ch|] eqn:Ea;
      [|discriminate].
    injection Hnode as ->.
    eexists. split.
    + cbn [backpropagate_rev rev app]. unfold bind, node_at, set_node_at, ret.
      cbn [root rng get_node]. rewrite Ea. cbn [set_node]. reflexivity.
    + cbn. rewrite Ea. split; [lia|]. split; reflexivity.
  - set (q := rev (b :: rp)) in *.
    assert (Hq : q <> []).
    { unfold q. cbn. intros H. apply app_eq_nil in H as [_ H]. discriminate. }
    rewrite get_node_app in Hnode.
    destruct (get_node r q) as [parent|] eqn:Eq; [|discriminate].
    set (parent' := set_stats (visited parent + 1)
                              (simulations parent + simulations node)
                              (fadd (reward_total parent) (reward_total node))
                              parent).
    destruct (IH (set_node r q parent') g b parent') as (r' & Hrun & Hs & Hv & Hg).
    { apply (get_set_node q r parent parent' Eq). }
    exists r'. split.
    + change (backpropagate_rev (a :: b :: rp))
        with (node0 <- node_at (q ++ [a]) ;;
              parent0 <- node_at q ;;
              set_node_at q
                (set_stats (visited parent0 + 1)
                           (simulations parent0 + simulations node0)
                           (fadd (reward_total parent0) (reward_total node0))
                           parent0) ;;;
              backpropagate_rev (b :: rp))%py.
      unfold bind at 1. unfold node_at at 1. cbn [root].
      rewrite get_node_app, Eq, Hnode.
      unfold bind at 1. unfold node_at at 1. cbn [root]. rewrite Eq.
      unfold bind at 1. unfold set_node_at at 1. cbn [root rng].
      exact Hrun.
    + destruct (set_node_below r parent' q Hq) as (Hs1 & Hv1 & _).
      rewrite Hs, Hv, Hs1, Hv1.
      change (rev rp ++ [b]) with q in *.
      unfold parent' at 1.
      rewrite (path_simulations_set r parent q _ _ _ Hq Eq).
      rewrite (path_simulations_app r parent q a Eq).
      cbn in Hnode.
      destruct (dict_get Action_eqb (children parent) a) as [ch|] eqn:Ea;
        [|discriminate].
      injection Hnode as ->.
      split; [lia|]. split; [reflexivity|].
      rewrite get_node_app, Hg. cbn. rewrite Ea. reflexivity.
Qed.

(** [backpropagate] from the node at a path adds to the [simulations] of
    the root the counters of all the nodes of the path below the root,
    not only that of the node it starts from, and one to [visited]; the
    node it starts from and the random draws stay as they are. *)
Theorem backpropagate_adds_path (path : Path) (w : @World F) (node : @MCTS_Node F)
    (Hnode : get_node (root w) path = Some node) :
  exists w',
    backpropagate path w = (Ok tt, w')
    /\ rng w' = rng w
    /\ simulations (root w')
       = simulations (root w) + path_simulations (root w) path
    /\ visited (root w')
       = visited (root w) + match path with [] => 0 | _ :: _ => 1 end
    /\ get_node (root w') path = Some node.
Proof.
  unfold backpropagate. destruct (rev path) as [|a rp] eqn:E.
  - apply (f_equal (@rev Action)) in E. rewrite rev_involutive in E. cbn in E.
    subst path. exists w. cbn. split; [reflexivity|]. split; [reflexivity|].
    split; [lia|]. split; [lia|exact Hnode].
  - apply (f_equal (@rev Action)) in E. rewrite rev_involutive in E. cbn in E.
    subst path. destruct w as [r g]. cbn [root rng] in *.
    destruct (backpropagate_rev_adds rp r g a node Hnode)
      as (r' & Hrun & Hs & Hv & Hg).
    exists (mkWorld r' g). cbn [root rng].
    split; [exact Hrun|]. split; [reflexivity|]. split; [exact Hs|].
    split; [|exact Hg].
    rewrite Hv. destruct (rev rp ++ [a]) eqn:E'; [|reflexivity].
    apply app_eq_nil in E' as [_ E']. discriminate.
Qed.
End Backpropagation.

Lemma backpropagate_adds_path_witness :
  exists w',
    backpropagate [single_action] two_children = (Ok tt, w')
    /\ simulations (root w') = 4 + 2.
Proof.
  destruct (backpropagate_adds_path [single_action] two_children
              (mkNode single_action_state [] [] 1 2 (1 # 1)%Q))
    as (w' & H & _ & Hs & _).
  - reflexivity.
  - exists w'. split; [exact H|exact Hs].
Defined.

(* ================================================================== *)
(** ** Expansion *)

Section Expansion.
Context {F : Type} {PF : PyFloat F}.

Lemma node_at_inv (path : Path) (w w' : @World F) (n : @MCTS_Node F) :
  node_at path w = (Ok n, w') -> get_node (root w) path = Some n /\ w' = w.
Proof.
  unfold node_at. destruct (get_node (root w) path); [|discriminate].
  intros H. injection H as <- <-. auto.
Qed.

Lemma with_rng_inv (A : Type) (m : M Rng A) (w w' : @World F) (x : A) :
  with_rng m w = (Ok x, w') ->
  m (rng w) = (Ok x, rng w') /\ root w' = root w.
Proof.
  unfold with_rng. destruct (m (rng w)) as [r g] eqn:E.
  intros H. injection H as -> <-. auto.
Qed.

Lemma executed_inv (S : Type) (st st' : GameState) (a : Action) (w w' : S) :
  executed st a w = (Ok st', w') ->
  execute a st = (Ok None, st') /\ w' = w.
Proof.
  unfold executed. destruct (execute a st) as [[r|e] st1] eqn:E; [|discriminate].
  unfold ret. intros H. injection H as <- <-.
  destruct (execute_inv _ _ _ _ E) as (_ & _ & -> & _). auto.
Qed.

(** One turn of [expand] takes an action out of [remaining_actions] of
    the node and gives the node a child under that action: a new node
    without children and with all counters at zero.  Its state is the
    result of the action on a clone of the state of the node, frozen, and
    with the key of the player to move in [placed_items], which the
    enumeration of the child's actions has read; these actions are the
    child's [remaining_actions]. *)
Theorem expand_one_moves_action (path child_path : Path) (w w' : @World F)
    (Hrun : expand_one path w = (Ok child_path, w')) :
  exists node action child node' st,
    get_node (root w) path = Some node
    /\ child_path = path ++ [action]
    /\ Permutation (remaining_actions node) (action :: remaining_actions node')
    /\ get_node (root w') path = Some node'
    /\ get_node (root w') child_path = Some child
    /\ execute action (clone (state node)) = (Ok None, st)
    /\ frozen (state child) = true
    /\ board (state child) = board st
    /\ player_turn (state child) = player_turn st
    /\ max_placed_items (state child) = max_placed_items st
    /\ (forall q, placed (state child) q = placed st q)
    /\ placed_items (state child)
       = (if dict_mem Z.eqb (placed_items st) (player_turn st)
          then placed_items st
          else placed_items st ++ [(player_turn st, 0)])
    /\ fst (calc_available_actions (player_turn st) st)
       = Ok (remaining_actions child)
    /\ children child = [] /\ simulations child = 0 /\ visited child = 0
    /\ rng w' = tl (rng w).
Proof.
  unfold expand_one in Hrun.
  apply bind_inv in Hrun as (node & w0 & Hnode & Hrun).
  apply node_at_inv in Hnode as [Hnode ->].
  apply bind_inv in Hrun as ([action remaining] & w1 & Hpop & Hrun).
  apply with_rng_inv in Hpop as [Hpop Hroot1].
  apply bind_inv in Hrun as (u & w2 & Hset & Hrun).
  unfold set_node_at in Hset. injection Hset as _ <-.
  apply bind_inv in Hrun as (newstate & w3 & Hex & Hrun).
  apply executed_inv in Hex as [Hex ->].
  apply bind_inv in Hrun as (child & w3 & Hinit & Hrun).
  unfold lift in Hinit. injection Hinit as Hinit <-.
  apply bind_inv in Hrun as (node1 & w3 & Hnode1 & Hrun).
  apply node_at_inv in Hnode1 as [Hnode1 ->]. cbn [root] in Hnode1.
  apply bind_inv in Hrun as (u2 & w3 & Hset & Hrun).
  unfold set_node_at in Hset. injection Hset as _ <-. cbn [root rng] in Hrun.
  unfold ret in Hrun. injection Hrun as <- <-. cbn [root rng].
  rewrite Hroot1 in *.
  pose proof (get_set_node path (root w) node
                (set_remaining_actions remaining node) Hnode) as Hget1.
  rewrite Hget1 in Hnode1. injection Hnode1 as <-.
  set (node' := set_children
                  (dict_set Action_eqb
                     (children (set_remaining_actions remaining node))
                     action child)
                  (set_remaining_actions remaining node)).
  pose proof (get_set_node path _ _ node' Hget1) as Hget2.
  destruct (remaining_actions node) as [|a0 rem0] eqn:Erem.
  { discriminate. }
  destruct (pop_random_from_list_cons _ a0 rem0 (rng w))
    as (index & x & Hpops & Hnth & Hperm & _).
  rewrite Hpops in Hpop. injection Hpop as -> <- Hrng.
  unfold MCTS_Node_init in Hinit.
  rewrite calc_available_actions_eq in Hinit.
  assert (Hfst : fst (calc_available_actions (player_turn newstate) newstate)
                 = match count (board newstate) (player_turn newstate) with
                   | Ok c =>
                       Ok (actions_of_phase (snd (freeze newstate))
                             (player_turn newstate)
                             (placed newstate (player_turn newstate)) c
                             (calc_available_attacks newstate
                                (player_turn newstate)))
                   | Raise e => Raise e
                   end).
  { rewrite calc_available_actions_eq.
    destruct (count (board newstate) (player_turn newstate)); reflexivity. }
  cbn [freeze snd player_turn board] in Hinit.
  destruct (count (board newstate) (player_turn newstate)) as [c|e];
    [|discriminate].
  injection Hinit as <-.
  destruct (read_placed_fields (player_turn newstate) (snd (freeze newstate)))
    as (Ht & Hb & Hm & Hf).
  eexists node, action, _, node', newstate.
  split; [exact Hnode|]. split; [reflexivity|].
  split; [rewrite Erem; exact Hperm|]. split; [exact Hget2|].
  split.
  { rewrite get_node_app, Hget2. cbn.
    rewrite (dict_get_set_refl _ _ Action_eqb _ _ _ (Action_eqb_refl action)).
    reflexivity. }
  split; [exact Hex|]. cbn [state remaining_actions children simulations visited].
  split; [exact Hf|]. split; [exact Hb|]. split; [exact Ht|]. split; [exact Hm|].
  split.
  { intros q. rewrite placed_read_placed. reflexivity. }
  split.
  { rewrite placed_items_read_placed. cbn [freeze snd placed_items].
    destruct (dict_mem Z.eqb (placed_items newstate) (player_turn newstate));
      reflexivity. }
  split; [exact Hfst|]. auto.
Qed.
End Expansion.

Lemma expand_one_moves_action_witness :
  exists child,
    get_node (root (snd (expand_one (F := Q) []
                           (mkWorld (mkNode single_action_state [single_action]
                                            [] 0 0 0%Q) [])))) [single_action]
    = Some child
    /\ simulations child = 0.
Proof.
  destruct (expand_one_moves_action (F := Q) [] [single_action]
              (mkWorld (mkNode single_action_state [single_action] [] 0 0 0%Q) [])
              (snd (expand_one (F := Q) []
                      (mkWorld (mkNode single_action_state [single_action]
                                       [] 0 0 0%Q) []))))
    as (node & action & child & node' & st & _ & Hp & _ & _ & Hc & _ & _ & _ & _
        & _ & _ & _ & _ & _ & Hs & _).
  - vm_compute. reflexivity.
  - cbn in Hp. injection Hp as <-. exists child. split; [exact Hc|exact Hs].
Defined.

(* ================================================================== *)
(** ** The move the search chooses *)

Section BestAction.
Context {F : Type} {PF : PyFloat F}.
(** [<] on the rewards is a strict order. *)
Hypothesis fltb_irrefl : forall x : F, fltb x x = false.
Hypothesis fltb_trans :
  forall x y z : F, fltb x y = true -> fltb y z = true -> fltb x z = true.



End BestAction.






Unset Implicit Arguments.

(* ================================================================== *)
(** * Part VII: the mills a placement closes *)

(** ** Lines and the lines through a position *)

Section Lines.
Variable d : DefaultBoardDesign.
Hypothesis Hsides : 3 <= sides d.

Lemma ring_line_inj (r s r' s' : Z) :
  ring_line d r s = ring_line d r' s' -> r = r' /\ s = s'.
Proof. unfold ring_line. intros H. injection H as H1 H2 _ _ _. lia. Qed.

(** No line is yielded twice. *)
Lemma NoDup_iter_lines : NoDup (iter_lines d).
Proof.
  unfold iter_lines. apply NoDup_app.
  - apply NoDup_flat_map.
    + apply NoDup_range.
    + intros r _.
      change (NoDup (map (ring_line d r) (range (sides d)))).
      apply Injective_map_NoDup; [|apply NoDup_range].
      intros s s' H. apply ring_line_inj in H. tauto.
    + intros r r' t _ _ Ht Ht'.
      change (In t (map (ring_line d r) (range (sides d)))) in Ht.
      change (In t (map (ring_line d r') (range (sides d)))) in Ht'.
      apply in_map_iff in Ht as (s & <- & _).
      apply in_map_iff in Ht' as (s' & H & _).
      apply ring_line_inj in H. symmetry. tauto.
  - apply NoDup_flat_map.
    + apply NoDup_range.
    + intros i _. destruct (extended d || (i mod 2 =? 1));
        repeat constructor; intros [].
    + intros i i' t _ _ Ht Ht'.
      destruct (extended d || (i mod 2 =? 1)); [|destruct Ht].
      destruct (extended d || (i' mod 2 =? 1)); [|destruct Ht'].
      destruct Ht as [<-|[]]. destruct Ht' as [H|[]]. congruence.
  - intros t Ht Ht'.
    apply in_flat_map in Ht as (r & _ & Ht).
    change (In t (map (ring_line d r) (range (sides d)))) in Ht.
    apply in_map_iff in Ht as (s & <- & _).
    apply in_flat_map in Ht' as (i & _ & Ht').
    destruct (extended d || (i mod 2 =? 1)); [|destruct Ht'].
    destruct Ht' as [H|[]]. unfold ring_line in H.
    injection H as H1 _ H2 _ _ _. lia.
Qed.

(** Two lines with the same three positions are one line. *)
Lemma lines_same_members (t t' : Position * Position * Position) :
  In t (iter_lines d) -> In t' (iter_lines d) ->
  Permutation (line_members t) (line_members t') -> t = t'.
Proof.
  pose proof (ring_size_ge d Hsides) as Hn.
  assert (Hrs : ring_size d = 2 * sides d) by reflexivity.
  intros Ht Ht' Hperm.
  apply in_iter_lines in Ht as [(r & s & Hr & Hs & ->)|(i & Hi & Hf & ->)];
    apply in_iter_lines in Ht' as [(r' & s' & Hr' & Hs' & ->)|(i' & Hi' & Hf' & ->)].
  - assert (Hin : In (Pos r (s * 2 + 1)) (line_members (ring_line d r' s')))
      by (eapply Permutation_in; [exact Hperm|cbn; auto]).
    unfold ring_line in Hin. cbn [line_members] in Hin.
    rewrite (@mod_wrap (ring_size d) (s' * 2 + 2)) in Hin by lia.
    destruct (Z.ltb_spec (s' * 2 + 2) 0) as [Hlt0|Hge0]; [lia|].
    destruct (Z.ltb_spec (s' * 2 + 2) (ring_size d)) as [Hltn|Hgen];
      destruct Hin as [H|[H|[H|[]]]]; injection H as H1 H2;
      try lia; assert (s = s') by lia; subst; reflexivity.
  - exfalso.
    assert (H0 : In (Pos 0 i') (line_members (ring_line d r s)))
      by (eapply Permutation_in; [apply Permutation_sym; exact Hperm|cbn; auto]).
    assert (H1 : In (Pos 1 i') (line_members (ring_line d r s)))
      by (eapply Permutation_in; [apply Permutation_sym; exact Hperm|cbn; auto]).
    unfold ring_line in H0, H1. cbn [line_members In] in H0, H1.
    assert (E0 : r = 0)
      by (destruct H0 as [H|[H|[H|[]]]]; injection H as E _; lia).
    assert (E1 : r = 1)
      by (destruct H1 as [H|[H|[H|[]]]]; injection H as E _; lia).
    lia.
  - exfalso.
    assert (H0 : In (Pos 0 i) (line_members (ring_line d r' s')))
      by (eapply Permutation_in; [exact Hperm|cbn; auto]).
    assert (H1 : In (Pos 1 i) (line_members (ring_line d r' s')))
      by (eapply Permutation_in; [exact Hperm|cbn; auto]).
    unfold ring_line in H0, H1. cbn [line_members In] in H0, H1.
    assert (E0 : r' = 0)
      by (destruct H0 as [H|[H|[H|[]]]]; injection H as E _; lia).
    assert (E1 : r' = 1)
      by (destruct H1 as [H|[H|[H|[]]]]; injection H as E _; lia).
    lia.
  - assert (H0 : In (Pos 0 i) (line_members (cross_line i')))
      by (eapply Permutation_in; [exact Hperm|cbn; auto]).
    cbn in H0. destruct H0 as [H|[H|[H|[]]]]; try discriminate.
    injection H as ->. reflexivity.
Qed.

(** The positions of the pairs that [iter_lines_of] yields for a board
    position are all different. *)
Lemma iter_lines_of_positions (pos : Position) :
  valid_pos d pos ->
  NoDup (flat_map (fun e => [fst e; snd e]) (iter_lines_of d pos)).
Proof.
  pose proof (ring_size_ge d Hsides) as Hn.
  destruct pos as [r i]. unfold valid_pos. cbn [ring index]. intros [Hr Hi].
  unfold iter_lines_of. cbn [ring index].
  rewrite (@mod_wrap (ring_size d) (i - 1)) by lia.
  rewrite (@mod_wrap (ring_size d) (i + 1)) by lia.
  rewrite (@mod_wrap (ring_size d) (i - 2)) by lia.
  rewrite (@mod_wrap (ring_size d) (i + 2)) by lia.
  rewrite (@mod_wrap 3 (r + 1)) by lia.
  rewrite (@mod_wrap 3 (r + 2)) by lia.
  destruct (extended d || (i mod 2 =? 1)); destruct (i mod 2 =? 1);
    destruct (Z.ltb_spec (r + 1) 0); destruct (Z.ltb_spec (r + 1) 3);
    destruct (Z.ltb_spec (r + 2) 0); destruct (Z.ltb_spec (r + 2) 3);
    try lia;
    destruct (Z.ltb_spec (i - 1) 0); destruct (Z.ltb_spec (i - 1) (ring_size d));
    try lia;
    destruct (Z.ltb_spec (i + 1) 0); destruct (Z.ltb_spec (i + 1) (ring_size d));
    try lia;
    destruct (Z.ltb_spec (i - 2) 0); destruct (Z.ltb_spec (i - 2) (ring_size d));
    try lia;
    destruct (Z.ltb_spec (i + 2) 0); destruct (Z.ltb_spec (i + 2) (ring_size d));
    try lia;
    cbn [app flat_map fst snd]; repeat constructor; not_in_tac.
Qed.
End Lines.

Lemma pairs_of_distinct_positions (A : Type) (l : list (A * A)) :
  NoDup (flat_map (fun e => [fst e; snd e]) l) ->
  NoDup l
  /\ forall e e', In e l -> In e' l ->
                  fst e = fst e' \/ fst e = snd e' -> e = e'.
Proof.
  induction l as [|[q r] l IH]; cbn [flat_map app fst snd]; intros Hnd.
  - split; [constructor|intros e e' []].
  - inversion Hnd as [|? ? Hq Hnd1]; subst.
    inversion Hnd1 as [|? ? Hr Hnd2]; subst.
    destruct (IH Hnd2) as [Hl Hinj].
    assert (Hfst : forall e, In e l ->
              In (fst e) (flat_map (fun e => [fst e; snd e]) l)
              /\ In (snd e) (flat_map (fun e => [fst e; snd e]) l)).
    { intros e He. split; apply in_flat_map; exists e; cbn; auto. }
    split.
    + constructor; [|exact Hl]. intros Hin. apply Hq. right.
      apply (Hfst _ Hin).
    + intros e e' [<-|He] [<-|He'] H; cbn [fst snd] in *.
      * reflexivity.
      * exfalso. apply Hq. right. destruct (Hfst _ He') as [H1 H2].
        destruct H as [->| ->]; assumption.
      * exfalso. destruct (Hfst _ He) as [H1 _].
        destruct H as [H|H]; rewrite H in H1.
        -- apply Hq. right. exact H1.
        -- apply Hr. exact H1.
      * apply Hinj; assumption.
Qed.

(** Two lists without repetition, related one to one, are equally long. *)
Lemma related_lists_length (A B : Type) (R : A -> B -> Prop) (l1 : list A) :
  forall l2 : list B,
    NoDup l1 -> NoDup l2 ->
    (forall x, In x l1 -> exists y, In y l2 /\ R x y) ->
    (forall y, In y l2 -> exists x, In x l1 /\ R x y) ->
    (forall x x' y, In x l1 -> In x' l1 -> In y l2 -> R x y -> R x' y -> x = x') ->
    (forall x y y', In x l1 -> In y l2 -> In y' l2 -> R x y -> R x y' -> y = y') ->
    length l1 = length l2.
Proof.
  induction l1 as [|x l1 IH]; intros l2 Hnd1 Hnd2 Hto Hfrom Hinj Hfun.
  - destruct l2 as [|y l2]; [reflexivity|].
    destruct (Hfrom y (or_introl eq_refl)) as (x & [] & _).
  - destruct (Hto x (or_introl eq_refl)) as (y & Hy & Hxy).
    destruct (in_split _ _ Hy) as (la & lb & ->).
    inversion Hnd1 as [|? ? Hx Hnd1']; subst.
    pose proof (NoDup_remove_1 _ _ _ Hnd2) as Hnd2'.
    pose proof (NoDup_remove_2 _ _ _ Hnd2) as Hy'.
    rewrite length_app. cbn [length]. rewrite Nat.add_succ_r, <- length_app.
    f_equal. apply IH; [exact Hnd1'|exact Hnd2'| | | |].
    + intros x' Hx'. destruct (Hto x' (or_intror Hx')) as (y' & Hin & Hr).
      exists y'. split; [|exact Hr].
      apply in_app_iff in Hin as [Hin|[<-|Hin]]; [apply in_app_iff; auto| |
        apply in_app_iff; auto].
      exfalso. apply Hx.
      rewrite (Hinj x x' y (or_introl eq_refl) (or_intror Hx') Hy Hxy Hr).
      exact Hx'.
    + intros y' Hin'.
      assert (Hin2 : In y' (la ++ y :: lb)).
      { apply in_app_iff in Hin' as [H|H]; apply in_app_iff; cbn; auto. }
      destruct (Hfrom y' Hin2) as (x' & [<-|Hx'] & Hr).
      * exfalso. apply Hy'.
        rewrite (Hfun x y y' (or_introl eq_refl) Hy Hin2 Hxy Hr). exact Hin'.
      * exists x'. auto.
    + intros x1 x2 y' H1 H2 Hin'. apply Hinj; [right; exact H1|right; exact H2|].
      apply in_app_iff in Hin' as [H|H]; apply in_app_iff; cbn; auto.
    + intros x1 y1 y2 H1 Hin1 Hin2. apply Hfun; [right; exact H1| |].
      * apply in_app_iff in Hin1 as [H|H]; apply in_app_iff; cbn; auto.
      * apply in_app_iff in Hin2 as [H|H]; apply in_app_iff; cbn; auto.
Qed.

Lemma line_eqb_eq (t u : Position * Position * Position) :
  line_eqb t u = true <-> t = u.
Proof.
  destruct t as [[a b] c], u as [[a' b'] c']. cbn.
  rewrite !andb_true_iff, !Position_eqb_eq. split.
  - intros [[-> ->] ->]. reflexivity.
  - intros H. injection H as -> -> ->. auto.
Qed.

Lemma existsb_line_eqb (t : Position * Position * Position)
    (l : list (Position * Position * Position)) :
  existsb (line_eqb t) l = true <-> In t l.
Proof.
  rewrite existsb_exists. split.
  - intros (u & Hu & E). apply line_eqb_eq in E. subst. exact Hu.
  - intros H. exists t. split; [exact H|apply line_eqb_eq; reflexivity].
Qed.

Lemma dict_get_app (K V : Type) (eqb : K -> K -> bool) (l l' : dict K V) (k : K) :
  dict_get eqb (l ++ l') k
  = match dict_get eqb l k with
    | Some v => Some v
    | None => dict_get eqb l' k
    end.
Proof.
  induction l as [|[k0 v0] l IH]; cbn; [reflexivity|].
  destruct (eqb k0 k); [reflexivity|exact IH].
Qed.

(** Who owns a position after a placement. *)
Lemma owned_by_placed (b : GameBoard) (p : PlayerID) (pos x : Position) (c : list Z) :
  dict_get Position_eqb (fields b) pos = None ->
  owned_by (mkGameBoard (design b) (fields b ++ [(pos, mkPiece p)]) c) p x
  = if Position_eqb pos x then true else owned_by b p x.
Proof.
  intros Hnone. unfold owned_by, get. cbn [fields]. rewrite dict_get_app. cbn.
  destruct (Position_eqb pos x) eqn:E.
  - apply Position_eqb_eq in E. subst x. rewrite Hnone. cbn.
    apply Z.eqb_refl.
  - destruct (dict_get Position_eqb (fields b) x); reflexivity.
Qed.

(** A piece placed on an empty board position closes as many mills as
    [iter_ready_mills] of that position yields before the placement: the
    mills of the player that [iter_mills] yields afterwards and did not
    yield before are that many, and each of them passes through the
    position. *)
Theorem placement_closes_ready_mills (b b' : GameBoard) (p : PlayerID)
    (pos : Position)
    (Hsides : 3 <= sides (design b)) (Hpos : valid_pos (design b) pos)
    (Hplace : place pos (mkPiece p) b = (Ok tt, b')) :
  length (new_mills b b' p) = length (iter_ready_mills b p pos)
  /\ (forall t, In t (new_mills b b' p) -> In pos (line_members t)).
Proof.
  destruct (place_inv pos (mkPiece p) b b' Hplace) as (k & c & Hnone & _ & _ & ->).
  set (b' := mkGameBoard (design b) (fields b ++ [(pos, mkPiece p)])
                         (list_set (_count b) k (c + 1))).
  assert (Hown : forall x, owned_by b' p x
                           = if Position_eqb pos x then true else owned_by b p x)
    by (intros x; apply owned_by_placed; exact Hnone).
  assert (Hposb : owned_by b p pos = false).
  { unfold owned_by, get. rewrite Hnone. reflexivity. }
  assert (Hother : forall x, x <> pos -> owned_by b' p x = owned_by b p x).
  { intros x Hx. rewrite Hown.
    destruct (Position_eqb pos x) eqn:E; [|reflexivity].
    apply Position_eqb_eq in E. congruence. }
  assert (Hnew : forall t, In t (new_mills b b' p) ->
             In t (iter_lines (design b))
             /\ forallb (owned_by b' p) (line_members t) = true
             /\ ~ In t (iter_mills b p)).
  { intros t Ht. unfold new_mills in Ht. apply filter_In in Ht as [Ht Hnot].
    unfold iter_mills in Ht at 1. apply filter_In in Ht as [Ht Hall].
    split; [exact Ht|]. split; [exact Hall|].
    intros Hin. apply existsb_line_eqb in Hin. rewrite Hin in Hnot. discriminate. }
  assert (Hthrough : forall t, In t (new_mills b b' p) -> In pos (line_members t)).
  { intros t Ht. destruct (Hnew t Ht) as (Hl & Hall & Hnot).
    destruct (in_dec Position_eq_dec pos (line_members t)) as [Hin|Hout];
      [exact Hin|].
    exfalso. apply Hnot. unfold iter_mills. apply filter_In. split; [exact Hl|].
    rewrite forallb_forall in *. intros x Hx.
    rewrite <- Hother; [apply Hall; exact Hx|]. intros ->. contradiction. }
  split; [|exact Hthrough].
  assert (Hready : iter_ready_mills b p pos
                   = filter (fun line => owned_by b p (fst line)
                                         && owned_by b p (snd line))
                            (iter_lines_of (design b) pos)).
  { unfold iter_ready_mills. rewrite (proj2 (dict_mem_get _ _) Hnone).
    reflexivity. }
  rewrite Hready.
  destruct (pairs_of_distinct_positions _ _
              (iter_lines_of_positions (design b) Hsides pos Hpos))
    as [Hnd_of Hpairs].
  apply (related_lists_length _ _
           (fun t e => Permutation (line_members t) [pos; fst e; snd e])).
  - unfold new_mills, iter_mills. apply NoDup_filter, NoDup_filter.
    apply NoDup_iter_lines.
  - apply NoDup_filter. exact Hnd_of.
  - intros t Ht. destruct (Hnew t Ht) as (Hl & Hall & _).
    destruct (@line_iter_lines_of (design b) Hsides t pos Hl (Hthrough t Ht))
      as (q & r & Hqr & Hperm).
    exists (q, r). split; [|exact Hperm].
    apply filter_In. split; [exact Hqr|]. cbn [fst snd].
    pose proof (@iter_lines_NoDup (design b) Hsides t Hl) as Hnd.
    apply (Permutation_NoDup Hperm) in Hnd.
    inversion Hnd as [|? ? Hp _]; subst.
    rewrite (forallb_Permutation _ _ _ _ Hperm) in Hall. cbn in Hall.
    apply andb_true_iff in Hall as [_ Hall].
    apply andb_true_iff in Hall as [Hq Hall].
    apply andb_true_iff in Hall as [Hr _].
    rewrite <- (Hother q), <- (Hother r), Hq, Hr; [reflexivity| |];
      intros ->; apply Hp; cbn; auto.
  - intros [q r] He. apply filter_In in He as [He Hqr]. cbn [fst snd] in *.
    apply andb_true_iff in Hqr as [Hq Hr].
    destruct (@iter_lines_of_line (design b) Hsides pos q r Hpos He)
      as (t & Hl & Hperm).
    exists t. split; [|exact Hperm].
    unfold new_mills. apply filter_In. split.
    + unfold iter_mills. apply filter_In. split; [exact Hl|].
      rewrite (forallb_Permutation _ _ _ _ Hperm). cbn.
      rewrite !Hown, Position_eqb_refl, Hq, Hr.
      destruct (Position_eqb pos q), (Position_eqb pos r); reflexivity.
    + apply negb_true_iff.
      destruct (existsb (line_eqb t) (iter_mills b p)) eqn:E; [|reflexivity].
      exfalso. apply existsb_line_eqb in E. unfold iter_mills in E.
      apply filter_In in E as [_ Hall].
      rewrite (forallb_Permutation _ _ _ _ Hperm) in Hall. cbn in Hall.
      rewrite Hposb in Hall. discriminate.
  - intros t t' e Ht Ht' _ Hr Hr'.
    destruct (Hnew t Ht) as (Hl & _). destruct (Hnew t' Ht') as (Hl' & _).
    apply (lines_same_members (design b) Hsides t t' Hl Hl').
    eapply Permutation_trans; [exact Hr|apply Permutation_sym; exact Hr'].
  - intros t e e' _ He He' Hr Hr'.
    apply filter_In in He as [He _]. apply filter_In in He' as [He' _].
    apply (Hpairs e e' He He').
    assert (Hp : Permutation [fst e; snd e] [fst e'; snd e']).
    { apply (Permutation_cons_inv (a := pos)).
      eapply Permutation_trans; [apply Permutation_sym; exact Hr|exact Hr']. }
    assert (Hin : In (fst e) [fst e'; snd e'])
      by (eapply Permutation_in; [exact Hp|cbn; auto]).
    destruct Hin as [H|[H|[]]]; auto.
Qed.

Lemma placement_closes_ready_mills_witness :
  length (new_mills (board placing_state)
            (snd (place (Pos 0 2) (mkPiece 0) (board placing_state))) 0)
  = 1%nat.
Proof.
  destruct (placement_closes_ready_mills (board placing_state)
              (snd (place (Pos 0 2) (mkPiece 0) (board placing_state)))
              0 (Pos 0 2)) as [H _].
  - cbn. lia.
  - unfold valid_pos. cbn. lia.
  - reflexivity.
  - rewrite H. reflexivity.
Defined.


Unset Implicit Arguments.

(* ================================================================== *)
(** * Part VIII: what a game keeps *)

Lemma dict_keys_set (K V : Type) (eqb : K -> K -> bool) (d : dict K V)
    (k k0 : K) (v : V) :
  In k (dict_keys (dict_set eqb d k0 v)) -> k = k0 \/ In k (dict_keys d).
Proof.
  unfold dict_keys. induction d as [|[k1 v1] d IH]; cbn.
  - intros [H|[]]. auto.
  - destruct (eqb k1 k0); cbn; [auto|]. intros [H|H]; [auto|].
    destruct (IH H); auto.
Qed.

Lemma dict_keys_app_fresh (d : Fields) (pos : Position) (piece : Piece) :
  dict_get Position_eqb d pos = None ->
  NoDup (dict_keys d) -> NoDup (dict_keys (d ++ [(pos, piece)])).
Proof.
  intros Hnone Hnd.
  rewrite <- (@dict_set_fresh _ _ Position_eqb d pos piece Hnone).
  apply dict_set_NoDup; [exact Position_eqb_eq|exact Hnd].
Qed.

(** The loop over the captures only takes pieces off the board. *)
Lemma attack_loop_keeps (pid : PlayerID) (l : list Position) :
  forall s s2 : GameState,
    for_each l (execute_attack pid) s = (Ok tt, s2) ->
    NoDup (dict_keys (fields (board s))) -> counts_ok (board s) ->
    NoDup (dict_keys (fields (board s2)))
    /\ (forall k, In k (dict_keys (fields (board s2))) ->
                  In k (dict_keys (fields (board s))))
    /\ counts_ok (board s2)
    /\ length (_count (board s2)) = length (_count (board s)).
Proof.
  induction l as [|y l IH]; intros s s2 H Hnd Hok; cbn [for_each] in H.
  - unfold ret in H. injection H as <-. auto.
  - apply bind_inv in H as ([] & s1 & Hy & H).
    apply execute_attack_inv in Hy as (piece & Hrm & _ & Hs1).
    destruct (@remove_counts_ok y (Some piece) (board s) (board s1) Hrm Hok)
      as [Hok1 Hlen1].
    apply remove_inv in Hrm as [_ (k0 & c & _ & _ & Hb)].
    assert (Hf1 : fields (board s1) = dict_del Position_eqb (fields (board s)) y)
      by (rewrite Hb; reflexivity).
    destruct (IH s1 s2 H) as (Hnd2 & Hsub & Hok2 & Hlen2).
    + rewrite Hf1. apply (@dict_del_NoDup _ _ Position_eqb _ y Hnd).
    + exact Hok1.
    + split; [exact Hnd2|]. split; [|split; [exact Hok2|congruence]].
      intros k Hk. apply Hsub in Hk. rewrite Hf1 in Hk.
      apply (@dict_keys_del _ _ Position_eqb _ y k Hk).
Qed.

Lemma execute_invariant_step (s : GameState) (acts : list Action) (a : Action)
    (Hwf : wf_state s)
    (Hcounts : counts_ok (board s))
    (Hplaced : forall q, placed s q <= max_placed_items s)
    (Hfrozen : frozen s = false)
    (Hacts : fst (calc_available_actions (player_turn s) s) = Ok acts)
    (Hin : In a acts) :
  exists s',
    execute a s = (Ok None, s')
    /\ wf_state s'
    /\ counts_ok (board s')
    /\ (forall q, placed s' q <= max_placed_items s')
    /\ frozen s' = false
    /\ player_turn s' = other (player_turn s)
    /\ max_placed_items s' = max_placed_items s
    /\ design (board s') = design (board s).
Proof.
  apply fst_calc_available_actions in Hacts.
  destruct (execute_enumerated_action s _ acts a Hwf Hfrozen Hacts Hin)
    as (s' & Hexec & Hturn & Hfr').
  exists s'. split; [exact Hexec|].
  destruct (in_calc_available_actions s _ acts a Hacts Hin) as [Henum _].
  destruct (execute_inv _ _ _ _ Hexec)
    as (s1 & s2 & _ & _ & Ha & Hstep & Hatk & Hs').
  apply execute_step_inv in Hstep as (Ht1 & Hf1 & Hm1 & Hstep).
  pose proof Hwf as (Hsides & Hnd & Hvalid & Ht & Hlen).
  (* the state after the move of the action *)
  assert (H1 : design (board s1) = design (board s)
               /\ NoDup (dict_keys (fields (board s1)))
               /\ (forall k, In k (dict_keys (fields (board s1))) ->
                             valid_pos (design (board s)) k)
               /\ counts_ok (board s1)
               /\ length (_count (board s1)) = length (_count (board s))
               /\ (forall q, placed s1 q <= max_placed_items s)).
  { assert (Hstart : forall start piece,
               In (start, piece) (iter_pieces (board s) (player_turn s)) ->
               valid_pos (design (board s)) start).
    { intros start piece H. apply in_iter_pieces in H as [H _].
      apply Hvalid. unfold dict_keys. apply in_map_iff.
      exists (start, piece). auto. }
    assert (Hempty : forall pos, In pos (iter_empty (board s)) ->
               valid_pos (design (board s)) pos).
    { intros pos H. apply in_iter_empty in H as [H _].
      apply in_iter_fields. exact H. }
    assert (Hjump : forall start end_,
               valid_pos (design (board s)) end_ ->
               jump start end_ (board s) = (Ok tt, board s1) ->
               placed_items s1 = placed_items s ->
               design (board s1) = design (board s)
               /\ NoDup (dict_keys (fields (board s1)))
               /\ (forall k, In k (dict_keys (fields (board s1))) ->
                             valid_pos (design (board s)) k)
               /\ counts_ok (board s1)
               /\ length (_count (board s1)) = length (_count (board s))
               /\ (forall q, placed s1 q <= max_placed_items s)).
    { intros start end_ Hend Hj Hpi.
      destruct (@jump_counts_ok start end_ (board s) (board s1) Hj Hcounts)
        as [Hok1 Hlen1].
      apply jump_inv in Hj as (piece & _ & _ & Hb).
      rewrite Hb. cbn [design fields].
      split; [reflexivity|]. split.
      { apply dict_set_NoDup; [exact Position_eqb_eq|].
        apply (@dict_del_NoDup _ _ Position_eqb _ start Hnd). }
      split.
      { intros k Hk. apply dict_keys_set in Hk as [->|Hk]; [exact Hend|].
        apply Hvalid. apply (@dict_keys_del _ _ Position_eqb _ start k Hk). }
      rewrite <- Hb. split; [exact Hok1|]. split; [exact Hlen1|].
      intros q. unfold placed. rewrite Hpi. apply Hplaced. }
    inversion Henum as [pos atk Hph Hpos|start piece end_ atk Hst Hend
                       |start piece end_ atk Hst Hend]; subst a.
    - destruct Hstep as (_ & Hpl & Hpi).
      assert (Hrange : 0 <= playerID (mkPiece (player_turn s))
                       < Z.of_nat (length (_count (board s))))
        by (rewrite Hlen; cbn; lia).
      destruct (@place_counts_ok pos (mkPiece (player_turn s)) (board s) (board s1)
                  Hpl Hrange Hcounts) as [Hok1 Hlen1].
      apply place_inv in Hpl as (k0 & c & Hnone & _ & _ & Hb).
      rewrite Hb. cbn [design fields].
      split; [reflexivity|]. split; [apply dict_keys_app_fresh; assumption|].
      split.
      { intros k Hk. unfold dict_keys in Hk. rewrite map_app, in_app_iff in Hk.
        destruct Hk as [Hk|[<-|[]]]; [apply Hvalid; exact Hk|].
        apply Hempty. exact Hpos. }
      rewrite <- Hb. split; [exact Hok1|]. split; [exact Hlen1|].
      intros q. unfold placed. rewrite Hpi, dict_get_set_Z.
      destruct (Z.eqb_spec (player_turn s) q) as [<-|Hne]; [lia|].
      fold (placed (read_placed (player_turn s) s) q).
      rewrite placed_read_placed. apply Hplaced.
    - destruct Hstep as (_ & Hmv & Hpi). apply move_inv in Hmv as [_ Hj].
      apply (Hjump start end_); [|exact Hj|exact Hpi].
      apply in_iter_available_moves in Hend as [Hnb _].
      apply (@neighbors_of_valid (design (board s)) Hsides start end_
               (Hstart _ _ Hst) Hnb).
    - destruct Hstep as (_ & Hj & Hpi).
      apply (Hjump start end_); [|exact Hj|exact Hpi].
      apply Hempty. exact Hend. }
  destruct H1 as (Hd1 & Hnd1 & Hv1 & Hok1 & Hl1 & Hp1).
  (* the captures *)
  assert (H2 : player_turn s2 = player_turn s1 /\ frozen s2 = frozen s1
               /\ max_placed_items s2 = max_placed_items s1
               /\ placed_items s2 = placed_items s1
               /\ design (board s2) = design (board s1)
               /\ NoDup (dict_keys (fields (board s2)))
               /\ (forall k, In k (dict_keys (fields (board s2))) ->
                             In k (dict_keys (fields (board s1))))
               /\ counts_ok (board s2)
               /\ length (_count (board s2)) = length (_count (board s1))).
  { unfold execute_attacks in Hatk. destruct (has_attacks a).
    - destruct (attack_loop_frame _ _ _ _ Hatk) as (E1 & E2 & E3 & E4 & E5).
      destruct (attack_loop_keeps _ _ _ _ Hatk Hnd1 Hok1) as (E6 & E7 & E8 & E9).
      auto 10.
    - unfold ret in Hatk. injection Hatk as <-. auto 10. }
  destruct H2 as (Ht2 & Hf2 & Hm2 & Hp2 & Hd2 & Hnd2 & Hsub & Hok2 & Hl2).
  subst s'. cbn [board placed_items max_placed_items frozen player_turn] in *.
  split.
  { unfold wf_state. cbn [board player_turn].
    rewrite Hd2, Hd1. split; [exact Hsides|]. split; [exact Hnd2|].
    split; [intros k Hk; apply Hv1, Hsub, Hk|].
    split; [apply other_lt|congruence]. }
  split; [exact Hok2|].
  split.
  { intros q. unfold placed. cbn [placed_items]. rewrite Hp2, Hm2, Hm1.
    apply Hp1. }
  split; [exact Hfr'|]. split; [exact Hturn|].
  split; congruence.
Qed.

(** A game goes on: [execute] on an action offered to the player to move
    returns, and it keeps what holds of the state of a game -- every piece
    stands on a position of the board, the counters count the pieces on the
    board, no player has placed more than [max_placed_items] pieces, and
    the state is not frozen -- while the turn passes to the other player. *)
Theorem execute_keeps_invariant (s : GameState) (acts : list Action) (a : Action)
    (Hwf : wf_state s)
    (Hcounts : counts_ok (board s))
    (Hplaced : forall q, placed s q <= max_placed_items s)
    (Hfrozen : frozen s = false)
    (Hacts : fst (calc_available_actions (player_turn s) s) = Ok acts)
    (Hin : In a acts) :
  exists s',
    execute a s = (Ok None, s')
    /\ wf_state s'
    /\ counts_ok (board s')
    /\ (forall q, placed s' q <= max_placed_items s')
    /\ frozen s' = false
    /\ player_turn s' = other (player_turn s).
Proof.
  destruct (execute_invariant_step s acts a Hwf Hcounts Hplaced Hfrozen Hacts Hin)
    as (s' & H1 & H2 & H3 & H4 & H5 & H6 & _).
  exists s'. auto 10.
Qed.

Ltac two_players_board :=
  split;
  [intros e He; cbn in He;
   repeat (destruct He as [He|He]; [subst e; cbn; lia|]); destruct He
  |intros p Hp; cbn in Hp;
   assert (p = 0 \/ p = 1) as [-> | ->] by lia; reflexivity].

Lemma counts_ok_placing_state : counts_ok (board placing_state).
Proof. two_players_board. Qed.

Lemma execute_keeps_invariant_witness :
  exists s',
    execute (PlaceAction 0 (Pos 0 2) (Some [Pos 1 3])) placing_state
    = (Ok None, s')
    /\ wf_state s' /\ counts_ok (board s').
Proof.
  destruct (fst (calc_available_actions (player_turn placing_state) placing_state))
    as [acts|e] eqn:E; [|vm_compute in E; discriminate].
  destruct (execute_keeps_invariant placing_state acts
              (PlaceAction 0 (Pos 0 2) (Some [Pos 1 3]))
              wf_placing_state counts_ok_placing_state)
    as (s' & H1 & H2 & H3 & _).
  - intros q. unfold placed. cbn [placed_items placing_state dict_get
                                     max_placed_items].
    destruct (0 =? q); [lia|]. destruct (1 =? q); lia.
  - reflexivity.
  - exact E.
  - vm_compute in E. injection E as <-. cbn. auto 10.
  - exists s'. auto.
Defined.

(* ================================================================== *)
(** ** The number of pieces to place *)

Lemma round_half_even_nonneg (a k : Z) : 0 <= a -> 0 <= round_half_even a k.
Proof.
  intros Ha. unfold round_half_even.
  assert (0 <= a / 2 ^ k).
  { destruct (Z.ltb_spec k 0) as [Hk|Hk].
    - rewrite Z.pow_neg_r by exact Hk. rewrite Z.div_0_r. lia.
    - apply Z.div_pos; [exact Ha|]. apply Z.pow_pos_nonneg; lia. }
  destruct (_ || _); lia.
Qed.

Lemma round_binary64_nonneg (m e : Z) (x : binary64) :
  0 <= m -> round_binary64 m e = Some x -> 0 <= mant x.
Proof.
  intros Hm. unfold round_binary64.
  destruct (_ && _); [discriminate|].
  intros H. injection H as <-. cbn [mant].
  pose proof (round_half_even_nonneg (Z.abs m) (excess_bits m e) (Z.abs_nonneg m)).
  destruct m; cbn [Z.sgn]; lia.
Qed.

(** A value of at most 53 bits, not below the last place of the floats,
    is a float. *)
Lemma round_binary64_exact (m e : Z) :
  0 <= m < 2 ^ 53 -> - 1074 <= e <= 0 ->
  round_binary64 m e = Some (Float m e).
Proof.
  intros Hm He.
  assert (Hlog : Z.log2 m < 53).
  { destruct (Z.eq_dec m 0) as [->|Hne]; [cbn; lia|].
    apply Z.log2_lt_pow2; lia. }
  unfold round_binary64.
  assert (Hk : excess_bits m e = 0).
  { unfold excess_bits. rewrite Z.abs_eq by lia. lia. }
  rewrite Hk. unfold round_half_even. rewrite Z.abs_eq by lia.
  change (2 ^ 0) with 1. rewrite Z.div_1_r, Z.mod_1_r. cbn [Z.mul Z.ltb Z.eqb
    Z.compare orb andb].
  replace ((0 <? m) && (1024 <=? Z.log2 m + (e + 0))) with false.
  - f_equal. f_equal; [|lia]. destruct m; cbn [Z.sgn]; lia.
  - symmetry. apply andb_false_iff. right. apply Z.leb_gt. lia.
Qed.

Lemma max_placed_items_init_nonneg (sides n : Z) :
  0 <= sides -> max_placed_items_init sides = Ok n -> 0 <= n.
Proof.
  intros Hs. unfold max_placed_items_init, int_div_pow2. cbn [Z.opp].
  destruct (round_binary64 sides (- 2)) as [q|] eqn:Eq; [|discriminate].
  pose proof (round_binary64_nonneg _ _ _ Hs Eq) as Hq.
  unfold float_mul, float_of_small_int. cbn [mant expo].
  destruct (round_binary64 (mant q * 9) (expo q + 0)) as [[m e]|] eqn:Em;
    [|discriminate].
  assert (Hm : 0 <= m).
  { assert (H9 : 0 <= mant q * 9) by lia.
    exact (round_binary64_nonneg _ _ _ H9 Em). }
  cbn [float_to_int]. destruct (Z.leb_spec 0 e) as [He|He].
  - intros H. injection H as <-.
    apply Z.mul_nonneg_nonneg; [exact Hm|]. apply Z.pow_nonneg. lia.
  - intros H. injection H as <-.
    apply Z.quot_pos; [exact Hm|]. apply Z.pow_pos_nonneg; lia.
Qed.

(** While [9 * sides] has at most 53 bits the floats are exact, and
    [int(sides / 4 * 9)] is the integer quotient of [9 * sides] by [4]. *)
Lemma max_placed_items_init_exact (sides : Z) :
  0 <= sides -> 9 * sides < 2 ^ 53 ->
  max_placed_items_init sides = Ok (Z.quot (sides * 9) 4).
Proof.
  intros Hs Hb. unfold max_placed_items_init, int_div_pow2. cbn [Z.opp].
  rewrite round_binary64_exact by lia.
  unfold float_mul, float_of_small_int. cbn [mant expo].
  rewrite round_binary64_exact by lia.
  reflexivity.
Qed.

(* ================================================================== *)
(** ** Whole games *)

Lemma calc_available_actions_read_placed (p q : PlayerID) (s : GameState) :
  fst (calc_available_actions p (read_placed q s))
  = fst (calc_available_actions p s).
Proof.
  rewrite !calc_available_actions_eq.
  destruct (read_placed_fields q s) as (Ht & Hb & Hm & Hf). rewrite Hb.
  destruct (count (board s) p) as [c|e]; [|reflexivity]. cbn [fst].
  rewrite placed_read_placed.
  unfold actions_of_phase, enhance_with_attacks, calc_available_attacks.
  rewrite Hb, Hm. reflexivity.
Qed.

Lemma play_keeps (choices : list nat) :
  forall s : GameState,
    wf_state s -> counts_ok (board s) ->
    (forall q, placed s q <= max_placed_items s) ->
    exists s',
      play choices s = Ok s'
      /\ wf_state s' /\ counts_ok (board s')
      /\ (forall q, placed s' q <= max_placed_items s')
      /\ max_placed_items s' = max_placed_items s
      /\ design (board s') = design (board s).
Proof.
  induction choices as [|n choices IH]; intros s Hwf Hok Hpl; cbn [play].
  - exists s. auto 10.
  - destruct (read_placed_fields (player_turn s) s) as (Ht & Hb & Hm & Hf).
    assert (Hwf0 : wf_state (read_placed (player_turn s) s))
      by (apply wf_state_read_placed; exact Hwf).
    assert (Hok0 : counts_ok (board (read_placed (player_turn s) s)))
      by (rewrite Hb; exact Hok).
    assert (Hpl0 : forall q, placed (read_placed (player_turn s) s) q
                             <= max_placed_items (read_placed (player_turn s) s)).
    { intros q. rewrite placed_read_placed, Hm. apply Hpl. }
    rewrite calc_available_actions_eq.
    destruct (count (board s) (player_turn s)) as [c|e] eqn:Ec.
    + destruct (actions_of_phase s (player_turn s) (placed s (player_turn s)) c
                  (calc_available_attacks s (player_turn s)))
        as [|a acts] eqn:E.
      * exists (read_placed (player_turn s) s). rewrite Hb.
        split; [reflexivity|]. split; [exact Hwf0|]. split; [exact Hok|].
        split; [exact Hpl0|]. split; [exact Hm|reflexivity].
      * set (chosen := nth (n mod length (a :: acts)) (a :: acts) a).
        assert (Hin : In chosen (a :: acts)).
        { apply nth_In. apply Nat.mod_upper_bound. discriminate. }
        destruct (execute_invariant_step
                    (clone (read_placed (player_turn s) s)) (a :: acts) chosen)
          as (s1 & Hex & Hwf1 & Hok1 & Hpl1 & _ & _ & Hm1 & Hd1).
        -- apply wf_state_clone. exact Hwf0.
        -- cbn [clone board]. rewrite GameBoard_clone_eq. exact Hok0.
        -- exact Hpl0.
        -- reflexivity.
        -- cbn [clone player_turn]. rewrite calc_available_actions_clone, Ht.
           rewrite calc_available_actions_read_placed.
           rewrite calc_available_actions_eq, Ec. cbn [fst]. rewrite E.
           reflexivity.
        -- exact Hin.
        -- rewrite Hex. destruct (IH s1 Hwf1 Hok1 Hpl1)
             as (s' & Hplay & Hwf' & Hok' & Hpl' & Hm' & Hd').
           exists s'. split; [exact Hplay|]. split; [exact Hwf'|].
           split; [exact Hok'|]. split; [exact Hpl'|].
           cbn [clone board max_placed_items] in Hm1, Hd1.
           rewrite GameBoard_clone_eq in Hd1. split; congruence.
    + exfalso.
      destruct Hwf as (_ & _ & _ & Hturn & Hlen).
      destruct (list_getitem_lt _ (_count (board s)) (player_turn s)) as [c Hc];
        [rewrite Hlen; cbn; lia|].
      unfold count in Ec. congruence.
Qed.

(** A game never raises.  [GameState(sides)] with at least three sides
    returns unless its float arithmetic overflows, which raises
    [OverflowError]; while [9 * sides] has at most 53 bits it returns with
    [max_placed_items] the integer quotient of [9 * sides] by [4].  From
    the state it returns, whatever the players choose among the actions
    offered to them, every [calc_available_actions] and every [execute]
    returns, and the state reached has every piece on a position of the
    board, counters that count the pieces on the board, and no more than
    [max_placed_items] pieces placed by a player. *)
Theorem game_never_raises (sides : Z) (choices : list nat) (Hsides : 3 <= sides) :
  (GameState_init sides = Raise OverflowError
   \/ exists start, GameState_init sides = Ok start)
  /\ (9 * sides < 2 ^ 53 ->
      exists start, GameState_init sides = Ok start
                    /\ max_placed_items start = Z.quot (sides * 9) 4)
  /\ forall start,
       GameState_init sides = Ok start ->
       exists final,
         play choices start = Ok final
         /\ wf_state final
         /\ counts_ok (board final)
         /\ (forall q, placed final q <= max_placed_items final)
         /\ max_placed_items final = max_placed_items start
         /\ design (board final) = Design sides false.
Proof.
  unfold GameState_init, DefaultBoardDesign_init.
  destruct (Z.leb_spec 3 sides) as [_|H]; [|lia].
  split; [|split].
  - unfold max_placed_items_init at 1 2.
    destruct (int_div_pow2 sides 2) as [q|]; [|left; reflexivity].
    unfold float_to_int.
    destruct (float_mul q (float_of_small_int 9)) as [[m e]|];
      [|left; reflexivity].
    right. destruct (0 <=? e); eexists; reflexivity.
  - intros Hb. rewrite max_placed_items_init_exact by lia.
    eexists. split; reflexivity.
  - intros start Hstart.
    destruct (max_placed_items_init sides) as [n|e] eqn:En; [|discriminate].
    injection Hstart as <-.
    pose proof (max_placed_items_init_nonneg sides n ltac:(lia) En) as Hn.
    destruct (play_keeps choices
                (mkGameState [] 0 (GameBoard_init (Design sides false)) n false))
      as (final & Hplay & Hwf & Hok & Hpl & Hm & Hd).
    + unfold wf_state. cbn. split; [exact Hsides|]. split; [constructor|].
      split; [intros pos []|]. split; [lia|reflexivity].
    + apply counts_ok_init.
    + intros q. unfold placed. cbn. exact Hn.
    + exists final. auto 10.
Qed.

Lemma game_never_raises_witness :
  exists final, play [0; 5; 2; 7; 1; 3]%nat start_state = Ok final
                /\ wf_state final.
Proof.
  destruct (game_never_raises 4 [0; 5; 2; 7; 1; 3]%nat) as (_ & _ & H).
  - lia.
  - destruct (H start_state eq_refl) as (final & Hplay & Hwf & _).
    exists final. split; [exact Hplay|exact Hwf].
Defined.


Unset Implicit Arguments.

(* ================================================================== *)
(** * Part IX: the playouts behind a reward *)


(** ** What a game keeps, along a playout *)




(** ** The results of a simulation are the ends of playouts *)

Section ResultsOfPlayouts.
Variables (branching branching_depth : Z).




End ResultsOfPlayouts.

(* ================================================================== *)
(** ** [simulate] *)

Section SimulateReward.
Context {F : Type} {PF : PyFloat F}.
Variables (player : PlayerID) (max_depth branching branching_depth : Z).

End SimulateReward.

Lemma game_invariant_single_action_state : game_invariant single_action_state.
Proof.
  split; [wf_example|]. split; [two_players_board|].
  intros q. unfold placed.
  cbn [placed_items single_action_state dict_get max_placed_items].
  destruct (0 =? q); [lia|]. destruct (1 =? q); lia.
Qed.



Unset Implicit Arguments.

(* ================================================================== *)
(** * Part X: the captures that a placement offers *)

(** ** The board's methods and the rules' words *)

(** On a board without repeated keys [owned_by] decides [holds]. *)
Lemma owned_by_holds (b : GameBoard) (p : PlayerID) (x : Position) :
  NoDup (dict_keys (fields b)) -> (owned_by b p x = true <-> holds b p x).
Proof.
  intros Hnd. unfold owned_by, get, holds. split.
  - destruct (dict_get Position_eqb (fields b) x) as [piece|] eqn:E;
      [|discriminate].
    intros H. apply Z.eqb_eq in H. exists piece. split; [|exact H].
    apply (dict_get_In Position_eqb Position_eqb_eq). exact E.
  - intros (piece & Hin & Hid).
    rewrite (dict_get_NoDup Position_eqb Position_eqb_eq _ _ _ Hnd Hin).
    apply Z.eqb_eq. exact Hid.
Qed.

(** [iter_mills] yields the mills. *)
Lemma in_iter_mills (b : GameBoard) (p : PlayerID)
    (t : Position * Position * Position) :
  NoDup (dict_keys (fields b)) -> (In t (iter_mills b p) <-> mill b p t).
Proof.
  intros Hnd. unfold iter_mills, mill. rewrite filter_In, forallb_forall.
  split; intros [Ht H]; (split; [exact Ht|]); intros x Hx;
    apply (owned_by_holds b p x Hnd); apply H; exact Hx.
Qed.

(** [all_mills_pos] holds the positions of the mills. *)
Lemma in_all_mills_pos (b : GameBoard) (q : PlayerID) (x : Position) :
  NoDup (dict_keys (fields b)) ->
  (existsb (Position_eqb x) (all_mills_pos b q) = true <-> in_a_mill b q x).
Proof.
  intros Hnd. unfold all_mills_pos, in_a_mill. rewrite existsb_exists. split.
  - intros (y & Hy & Heq). apply Position_eqb_eq in Heq. subst y.
    apply in_flat_map in Hy as (t & Ht & Hx).
    exists t. split; [apply in_iter_mills; assumption|exact Hx].
  - intros (t & Ht & Hx). exists x. split; [|apply Position_eqb_refl].
    apply in_flat_map. exists t. split; [apply in_iter_mills; assumption|exact Hx].
Qed.

(** The pieces that [iter_pieces_outside_mill] yields. *)
Lemma in_iter_pieces_outside_mill (b : GameBoard) (q : PlayerID)
    (e : Position * Piece) :
  NoDup (dict_keys (fields b)) ->
  (In e (iter_pieces_outside_mill b q) <->
   In e (fields b) /\ playerID (snd e) = q /\ ~ in_a_mill b q (fst e)).
Proof.
  intros Hnd. unfold iter_pieces_outside_mill.
  rewrite filter_In, andb_true_iff, Z.eqb_eq, negb_true_iff.
  rewrite <- (in_all_mills_pos b q (fst e) Hnd).
  destruct (existsb (Position_eqb (fst e)) (all_mills_pos b q));
    intuition congruence.
Qed.

(** The positions of [calc_available_attacks] are the capturable ones. *)
Lemma in_calc_available_attacks_capturable (s : GameState) (t : PlayerID)
    (y : Position) :
  NoDup (dict_keys (fields (board s))) ->
  (In y (map fst (calc_available_attacks s t)) <->
   capturable_position (board s) (other t) y).
Proof.
  intros Hnd. set (q := other t). unfold calc_available_attacks. fold q.
  unfold capturable_position.
  destruct (iter_pieces_outside_mill (board s) q) as [|e0 l] eqn:E.
  - assert (Hall : forall z, holds (board s) q z -> ~ ~ in_a_mill (board s) q z).
    { intros z (piece & Hin & Hid) Hout.
      assert (Hz : In (z, piece) (iter_pieces_outside_mill (board s) q)).
      { apply in_iter_pieces_outside_mill; [exact Hnd|]. cbn [fst snd]. auto. }
      rewrite E in Hz. contradiction. }
    unfold iter_pieces_inside_mill.
    unfold iter_pieces_outside_mill in E.
    rewrite (filter_none_outside _ (fun e => playerID (snd e) =? q)
               (fun e => existsb (Position_eqb (fst e)) (all_mills_pos (board s) q))
               (fields (board s)) E).
    rewrite in_map_iff. split.
    + intros ([y' piece] & Hy & Hin). cbn [fst] in Hy. subst y'.
      apply filter_In in Hin as [Hin Hid]. apply Z.eqb_eq in Hid. cbn [snd] in Hid.
      split; [exists piece; auto|].
      intros (z & Hz & Hout). exfalso. exact (Hall z Hz Hout).
    + intros [(piece & Hin & Hid) _]. exists (y, piece). split; [reflexivity|].
      apply filter_In. split; [exact Hin|]. apply Z.eqb_eq. exact Hid.
  - rewrite <- E. rewrite in_map_iff. split.
    + intros ([y' piece] & Hy & Hin). cbn [fst] in Hy. subst y'.
      apply in_iter_pieces_outside_mill in Hin as (Hin & Hid & Hout);
        [|exact Hnd].
      cbn [fst snd] in *. split; [exists piece; auto|]. intros _. exact Hout.
    + intros [(piece & Hin & Hid) Hout]. exists (y, piece). split; [reflexivity|].
      apply in_iter_pieces_outside_mill; [exact Hnd|]. cbn [fst snd].
      split; [exact Hin|]. split; [exact Hid|]. apply Hout.
      assert (H0 : In e0 (iter_pieces_outside_mill (board s) q))
        by (rewrite E; left; reflexivity).
      apply in_iter_pieces_outside_mill in H0 as (H0 & Hid0 & Hout0);
        [|exact Hnd].
      exists (fst e0). split; [|exact Hout0].
      exists (snd e0). split; [|exact Hid0]. destruct e0; exact H0.
Qed.

(** A list of the capturable positions is as long as
    [calc_available_attacks], and has the same positions. *)
Lemma captures_of_calc_available_attacks (s : GameState) (t : PlayerID)
    (captures : list Position) :
  NoDup (dict_keys (fields (board s))) ->
  lists_all (capturable_position (board s) (other t)) captures ->
  Permutation captures (map fst (calc_available_attacks s t))
  /\ length (calc_available_attacks s t) = length captures.
Proof.
  intros Hnd [Hc Hin].
  assert (Hperm : Permutation captures (map fst (calc_available_attacks s t))).
  { apply NoDup_Permutation.
    - exact Hc.
    - apply calc_available_attacks_NoDup. exact Hnd.
    - intros y. rewrite Hin. symmetry.
      apply in_calc_available_attacks_capturable. exact Hnd. }
  split; [exact Hperm|].
  rewrite (Permutation_length Hperm), length_map. reflexivity.
Qed.

(** A list of the mills that a piece on the empty [pos] completes is as
    long as [iter_ready_mills] of [pos]. *)
Lemma mills_of_iter_ready_mills (b : GameBoard) (p : PlayerID) (pos : Position)
    (mills : list (Position * Position * Position)) :
  3 <= sides (design b) ->
  NoDup (dict_keys (fields b)) ->
  valid_pos (design b) pos ->
  get b pos = None ->
  lists_all (completes b p pos) mills ->
  length (iter_ready_mills b p pos) = length mills.
Proof.
  intros Hsides Hnd Hpos Hnone [Hm Hin].
  assert (Hready : iter_ready_mills b p pos
                   = filter (fun line => owned_by b p (fst line)
                                         && owned_by b p (snd line))
                            (iter_lines_of (design b) pos)).
  { unfold iter_ready_mills. rewrite (proj2 (dict_mem_get _ _) Hnone).
    reflexivity. }
  rewrite Hready. symmetry.
  destruct (pairs_of_distinct_positions _ _
              (iter_lines_of_positions (design b) Hsides pos Hpos))
    as [Hnd_of Hpairs].
  apply (related_lists_length _ _
           (fun t e => Permutation (line_members t) [pos; fst e; snd e])).
  - exact Hm.
  - apply NoDup_filter. exact Hnd_of.
  - intros t Ht. apply Hin in Ht. destruct Ht as (Hl & Hthrough & Hall).
    destruct (@line_iter_lines_of (design b) Hsides t pos Hl Hthrough)
      as (q & r & Hqr & Hperm).
    exists (q, r). split; [|exact Hperm].
    apply filter_In. split; [exact Hqr|]. cbn [fst snd].
    pose proof (@iter_lines_NoDup (design b) Hsides t Hl) as Hndt.
    apply (Permutation_NoDup Hperm) in Hndt.
    inversion Hndt as [|? ? Hp _]; subst.
    apply andb_true_iff. split; apply (owned_by_holds b p _ Hnd); apply Hall.
    + apply (Permutation_in _ (Permutation_sym Hperm)). cbn. auto.
    + intros ->. apply Hp. cbn. auto.
    + apply (Permutation_in _ (Permutation_sym Hperm)). cbn. auto.
    + intros ->. apply Hp. cbn. auto.
  - intros [q r] He. apply filter_In in He as [He Hqr]. cbn [fst snd] in *.
    apply andb_true_iff in Hqr as [Hq Hr].
    destruct (@iter_lines_of_line (design b) Hsides pos q r Hpos He)
      as (t & Hl & Hperm).
    exists t. split; [|exact Hperm]. apply Hin.
    split; [exact Hl|]. split.
    + apply (Permutation_in _ (Permutation_sym Hperm)). cbn. auto.
    + intros x Hx Hne. apply (Permutation_in _ Hperm) in Hx.
      destruct Hx as [<-|[<-|[<-|[]]]].
      * congruence.
      * apply (owned_by_holds b p _ Hnd). exact Hq.
      * apply (owned_by_holds b p _ Hnd). exact Hr.
  - intros t t' e Ht Ht' _ Hr Hr'.
    apply Hin in Ht, Ht'. destruct Ht as (Hl & _). destruct Ht' as (Hl' & _).
    apply (lines_same_members (design b) Hsides t t' Hl Hl').
    eapply Permutation_trans; [exact Hr|apply Permutation_sym; exact Hr'].
  - intros t e e' _ He He' Hr Hr'.
    apply filter_In in He as [He _]. apply filter_In in He' as [He' _].
    apply (Hpairs e e' He He').
    assert (Hp : Permutation [fst e; snd e] [fst e'; snd e']).
    { apply (Permutation_cons_inv (a := pos)).
      eapply Permutation_trans; [apply Permutation_sym; exact Hr|exact Hr']. }
    assert (Hi : In (fst e) [fst e'; snd e'])
      by (eapply Permutation_in; [exact Hp|cbn; auto]).
    destruct Hi as [H|[H|[]]]; auto.
Qed.

(** ** Combinations *)

(** What a filter keeps of a list is one of its combinations. *)
Lemma filter_in_combinations (A : Type) (f : A -> bool) (l : list A) :
  In (filter f l) (combinations l (length (filter f l))).
Proof.
  induction l as [|x l IH]; cbn; [auto|].
  destruct (f x); cbn [length].
  - apply in_or_app. left. apply in_map. exact IH.
  - destruct (length (filter f l)) eqn:E.
    + destruct (filter f l); [|discriminate]. left. reflexivity.
    + apply in_or_app. right. exact IH.
Qed.

(** Two combinations of a list without repetition that have the same
    elements are the same combination. *)
Lemma combinations_Permutation_eq (A B : Type) (f : A -> B) (l : list A) :
  NoDup (map f l) ->
  forall (r : nat) (c c' : list A),
    In c (combinations l r) -> In c' (combinations l r) ->
    Permutation (map f c) (map f c') -> c = c'.
Proof.
  induction l as [|x l IH]; intros Hnd [|r] c c' Hc Hc' Hperm;
    cbn in Hc, Hc'.
  - destruct Hc as [<-|[]], Hc' as [<-|[]]. reflexivity.
  - contradiction.
  - destruct Hc as [<-|[]], Hc' as [<-|[]]. reflexivity.
  - cbn in Hnd. apply NoDup_cons_iff in Hnd as [Hx Hnd].
    assert (Hout : forall u v, In u (combinations l (S r)) ->
                     Permutation (map f (x :: v)) (map f u) -> False).
    { intros u v Hu Hp. apply Hx.
      assert (Hin : In (f x) (map f u))
        by (apply (Permutation_in _ Hp); left; reflexivity).
      apply in_map_iff in Hin as (y & Hy & Hyu). rewrite <- Hy.
      apply in_map. apply (combinations_incl _ _ _ _ Hu). exact Hyu. }
    apply in_app_or in Hc, Hc'.
    destruct Hc as [Hc|Hc], Hc' as [Hc'|Hc'].
    + apply in_map_iff in Hc as (c1 & <- & Hc1).
      apply in_map_iff in Hc' as (c1' & <- & Hc1').
      f_equal. apply (IH Hnd r c1 c1' Hc1 Hc1').
      cbn in Hperm. apply Permutation_cons_inv in Hperm. exact Hperm.
    + apply in_map_iff in Hc as (c1 & <- & Hc1).
      exfalso. exact (Hout c' c1 Hc' Hperm).
    + apply in_map_iff in Hc' as (c1' & <- & Hc1').
      exfalso. exact (Hout c c1' Hc (Permutation_sym Hperm)).
    + exact (IH Hnd (S r) c c' Hc Hc' Hperm).
Qed.

(** Every choice of distinct elements of a list without repetition is, up
    to its order, one of the list's combinations. *)
Lemma combination_of_choice (A : Type) (f : A -> Position) (l : list A)
    (comb : list Position) :
  NoDup (map f l) -> NoDup comb -> incl comb (map f l) ->
  exists c, In c (combinations l (length comb))
            /\ Permutation comb (map f c).
Proof.
  intros Hnd Hcomb Hincl.
  set (sel := filter (fun e => existsb (Position_eqb (f e)) comb) l).
  assert (Hperm : Permutation comb (map f sel)).
  { apply NoDup_Permutation.
    - exact Hcomb.
    - apply NoDup_map_filter. exact Hnd.
    - intros x. unfold sel. rewrite in_map_iff. split.
      + intros Hx. destruct (proj1 (in_map_iff _ _ _) (Hincl x Hx))
          as (e & He & Hel).
        exists e. split; [exact He|]. apply filter_In. split; [exact Hel|].
        apply existsb_exists. exists x. split; [exact Hx|].
        rewrite He. apply Position_eqb_refl.
      + intros (e & He & Hsel). apply filter_In in Hsel as [_ Hsel].
        apply existsb_exists in Hsel as (y & Hy & Heq).
        apply Position_eqb_eq in Heq. congruence. }
  exists sel. split; [|exact Hperm].
  rewrite (Permutation_length Hperm), length_map.
  apply filter_in_combinations.
Qed.

(* ================================================================== *)
(** ** The placements that complete mills *)

(** C4: in the placing phase, for an empty position of the board whose
    filling by the mover completes exactly [k >= 1] mills (the lines through
    the position whose two other positions the mover holds), and with [m]
    capturable positions of the opponent (the positions of the opponent's
    pieces outside the opponent's mills, or of all the opponent's pieces
    when none is outside), [calc_available_actions] yields exactly
    [C(m, k)] actions for that position, all different: each is a placement
    of the mover on the position with [k] different capturable positions to
    attack, every choice of [k] different capturable positions is, up to
    its order, the attack list of one of them, and of one only; there is
    none when [m < k]. *)
Theorem placing_capture_combinations (s : GameState) (acts : list Action)
    (pos : Position) (mills : list (Position * Position * Position))
    (captures : list Position) (k m : nat)
    (Hsides : 3 <= sides (design (board s)))
    (Hkeys : NoDup (dict_keys (fields (board s))))
    (Hphase : placed s (player_turn s) < max_placed_items s)
    (Hacts : fst (calc_available_actions (player_turn s) s) = Ok acts)
    (Hpos : valid_pos (design (board s)) pos)
    (Hempty : get (board s) pos = None)
    (Hmills : lists_all (completes (board s) (player_turn s) pos) mills)
    (Hk : length mills = k)
    (Hk1 : (1 <= k)%nat)
    (Hcaptures : lists_all (capturable_position (board s) (other (player_turn s)))
                           captures)
    (Hm : length captures = m) :
  length (actions_to pos acts) = binomial m k
  /\ NoDup (actions_to pos acts)
  /\ (forall a, In a (actions_to pos acts) ->
        exists comb, a = PlaceAction (player_turn s) pos (Some comb)
                     /\ length comb = k /\ NoDup comb /\ incl comb captures)
  /\ (forall comb, length comb = k -> NoDup comb -> incl comb captures ->
        exists comb', Permutation comb comb'
          /\ In (PlaceAction (player_turn s) pos (Some comb'))
                (actions_to pos acts))
  /\ (forall comb comb',
        In (PlaceAction (player_turn s) pos (Some comb)) (actions_to pos acts) ->
        In (PlaceAction (player_turn s) pos (Some comb')) (actions_to pos acts) ->
        Permutation comb comb' -> comb = comb')
  /\ ((m < k)%nat -> actions_to pos acts = []).
Proof.
  set (t := player_turn s) in *.
  destruct (captures_of_calc_available_attacks s t captures Hkeys Hcaptures)
    as [Hperm Hlen].
  pose proof (mills_of_iter_ready_mills (board s) t pos mills
                Hsides Hkeys Hpos Hempty Hmills) as Hready.
  pose proof (calc_available_attacks_NoDup s t Hkeys) as HndL.
  assert (Hin_empty : In pos (iter_empty (board s))).
  { apply in_iter_empty. split; [apply in_iter_fields; exact Hpos|].
    apply (proj2 (dict_mem_get _ _)). exact Hempty. }
  destruct (calc_available_actions t s) as [o s1] eqn:Ecalc.
  cbn [fst] in Hacts. subst o.
  destruct (placing_actions_of_ready_mills s s1 acts pos k m Hphase Ecalc
              Hin_empty (eq_trans Hready Hk) Hk1 Hkeys (eq_trans Hlen Hm))
    as (Heq & Hcount & Hnd & Hnone).
  fold t in Heq.
  split; [exact Hcount|]. split; [exact Hnd|].
  split; [|split; [|split; [|exact Hnone]]].
  - intros a Ha. rewrite Heq in Ha.
    apply in_map_iff in Ha as (c & <- & Hc).
    exists (map fst c). split; [reflexivity|].
    split; [rewrite length_map; apply (combinations_length _ _ _ _ Hc)|].
    split; [apply (combinations_NoDup_map _ _ _ _ _ _ HndL Hc)|].
    intros y Hy. apply (Permutation_in _ (Permutation_sym Hperm)).
    apply in_map_iff in Hy as (e & <- & He). apply in_map.
    apply (combinations_incl _ _ _ _ Hc). exact He.
  - intros comb Hlc Hndc Hincl.
    destruct (combination_of_choice _ fst (calc_available_attacks s t) comb
                HndL Hndc) as (c & Hc & Hpc).
    { intros y Hy. apply (Permutation_in _ Hperm). apply Hincl. exact Hy. }
    exists (map fst c). split; [exact Hpc|].
    rewrite Heq. apply in_map_iff. exists c. split; [reflexivity|].
    rewrite <- Hlc. exact Hc.
  - intros comb comb' Ha Ha' Hp. rewrite Heq in Ha, Ha'.
    apply in_map_iff in Ha as (c & Hc & Hcin).
    apply in_map_iff in Ha' as (c' & Hc' & Hcin').
    injection Hc as <-. injection Hc' as <-.
    f_equal.
    apply (combinations_Permutation_eq _ _ fst (calc_available_attacks s t)
             HndL k c c' Hcin Hcin' Hp).
Qed.

(** The pieces of [placing_state], position by position. *)
Lemma placing_state_holds (p : PlayerID) (x : Position) :
  holds (board placing_state) p x <->
  (p = 0 /\ (x = Pos 0 0 \/ x = Pos 0 1)) \/ (p = 1 /\ (x = Pos 1 3 \/ x = Pos 2 5)).
Proof.
  unfold holds. cbn [board placing_state fields]. split.
  - intros (piece & Hin & Hid). cbn in Hin.
    destruct Hin as [H|[H|[H|[H|[]]]]]; injection H as <- <-; cbn in Hid; auto.
  - intros [[-> [->| ->]]|[-> [->| ->]]];
      [exists P0|exists P0|exists P1|exists P1]; cbn; auto 6.
Qed.

(** Player 1 has no mill in [placing_state]. *)
Lemma placing_state_no_mill (t : Position * Position * Position) :
  ~ mill (board placing_state) 1 t.
Proof.
  intros [Hl Hall]. vm_compute in Hl.
  repeat (destruct Hl as [Hl|Hl];
          [subst t;
           pose proof (proj1 (placing_state_holds 1 _) (Hall _ (or_introl eq_refl)));
           pose proof (proj1 (placing_state_holds 1 _)
                         (Hall _ (or_intror (or_introl eq_refl))));
           intuition discriminate|]).
  exact Hl.
Qed.

(** The one mill that a piece of player 0 on [0:2] completes there. *)
Lemma placing_state_mills :
  lists_all (completes (board placing_state) 0 (Pos 0 2))
            [(Pos 0 0, Pos 0 1, Pos 0 2)].
Proof.
  split; [repeat constructor; cbn; tauto|]. intros t. split.
  - intros [<-|[]]. split; [vm_compute; tauto|]. split; [cbn; auto|].
    intros x Hx Hne. apply placing_state_holds. cbn in Hx. left.
    split; [reflexivity|]. destruct Hx as [<-|[<-|[<-|[]]]]; auto.
    exfalso. apply Hne. reflexivity.
  - intros (Hl & Hthrough & Hall). vm_compute in Hl.
    repeat (destruct Hl as [Hl|Hl];
            [subst t; try (left; reflexivity); exfalso;
             first [ cbn in Hthrough; intuition discriminate
                   | pose proof (proj1 (placing_state_holds 0 _)
                                   (Hall _ (or_intror (or_introl eq_refl))
                                         ltac:(discriminate)));
                     intuition discriminate ]|]).
    destruct Hl.
Qed.

(** The two positions where player 0 may capture. *)
Lemma placing_state_captures :
  lists_all (capturable_position (board placing_state) 1) [Pos 1 3; Pos 2 5].
Proof.
  split; [repeat constructor; cbn; intuition discriminate|].
  intros y. unfold capturable_position. rewrite placing_state_holds. split.
  - intros Hy. split; [right; cbn in Hy; intuition|].
    intros _ (t & Ht & _). exact (placing_state_no_mill t Ht).
  - intros [[[H _]|[_ H]] _]; [discriminate|]. cbn. intuition.
Qed.

Lemma placing_capture_combinations_witness :
  exists acts,
    fst (calc_available_actions 0 placing_state) = Ok acts
    /\ actions_to (Pos 0 2) acts
       = [PlaceAction 0 (Pos 0 2) (Some [Pos 1 3]);
          PlaceAction 0 (Pos 0 2) (Some [Pos 2 5])]
    /\ length (actions_to (Pos 0 2) acts) = binomial 2 1
    /\ NoDup (actions_to (Pos 0 2) acts).
Proof.
  eexists. split; [vm_compute; reflexivity|]. split; [reflexivity|].
  match goal with
  | |- length (actions_to _ ?acts) = _ /\ _ =>
      destruct (placing_capture_combinations placing_state acts (Pos 0 2)
                  [(Pos 0 0, Pos 0 1, Pos 0 2)] [Pos 1 3; Pos 2 5] 1%nat 2%nat)
        as (H1 & H2 & _); [..|split; [exact H1|exact H2]]
  end.
  - cbn. lia.
  - cbn. repeat constructor; cbn; intuition discriminate.
  - cbn. lia.
  - vm_compute. reflexivity.
  - unfold valid_pos. cbn. lia.
  - reflexivity.
  - exact placing_state_mills.
  - reflexivity.
  - lia.
  - exact placing_state_captures.
  - reflexivity.
Defined.

